(* ===== verification/_CoqProject ===== *)
-Q . S2P
Prelude.v
JsRegex.v
JsNumber.v
Extractor.v
DiffEngine.v
HistoryStore.v
Notifier.v
Pipeline.v
PriceScan.v
JsMap.v
Scheduler.v
Endpoints.v
Server.v
SchedSpec.v
Timed.v
App.v
Http.v
TestClient.v
