(* ===== verification/Prelude.v ===== *)
(** * Flight-Monitor: a verification development

    This library models the Flight-Monitor server
    ([src/flight-monitor-server.js], an Express application) and its
    setup test script ([src/test-flight-monitor.js]), and proves what
    makes them correct, and where they are not.

    ** The program

    The server fetches the flight page of tustus.co.il, extracts the
    destinations on it with regular expressions ([extractDestinations]),
    compares them with the previous snapshot ([detectChanges]), records
    the scan in a capped history and sends an SMS through Twilio when
    something changed ([addScanResult], [sendSMSAlert]).  Scans run on
    request ([POST /api/scan]) and periodically: [POST /api/monitor/start]
    scans once and then schedules a cron task kept in the [Map]
    [monitoringJobs]; [POST /api/monitor/stop] and the [SIGINT] handler
    destroy them.  All of this shares one JavaScript event loop: a
    handler runs up to its next [await], and any other handler, timer or
    completion can run before it resumes.

    ** Files, in dependency order

    - [Prelude]      strings as lists of UTF-16 code units ([jstring], the
                     literal converter [js]), the string and array
                     primitives the code calls ([includes], [unshift],
                     [pop], [slice]), the hint databases [fm]/[fm_rw], the
                     tactics [invc] and [bool_to_prop], shared list lemmas,
                     and [stamped_upto], a list newest first by a clock.
    - [JsRegex]      the ECMAScript pattern fragment of the extractor as the
                     specification's continuation-passing backtracking
                     matcher; [exec] (leftmost match), [String.prototype.match]
                     with the global flag ([match_all]) and the [exec] loop.
    - [JsNumber]     the decimal text of a number in template literals
                     ([show_nat]) and ECMAScript's [parseInt], which reads
                     the [limit] query parameters.
    - [Extractor]    [destinationMap] and [extractDestinations]
                     (lines 95-137, 200-269).
    - [DiffEngine]   [detectChanges] (lines 272-299).
    - [HistoryStore] [scanHistory], [smsHistory], their updates and the
                     read endpoints (lines 141-197, 336-348, 445-475, 528-536).
    - [Notifier]     the Twilio configuration, [sendSMSAlert] split at its
                     [await], [formatSMSMessage] (lines 14-92).
    - [Pipeline]     [scanWebsite] with [addScanResult] (lines 146-197,
                     302-350) over the global state [pstate]; the extractor
                     is reached through the class [ExtractionStrategy]; the
                     clock readings of a completion ([Date.now()] for the
                     record's id, [new Date()] for its timestamp and for a
                     job's startTime) are the separate fields of [scan_env].
    - [PriceScan]    the price search of [extractDestinations] as a direct
                     scan, proved equal to the regular-expression search.
    - [JsMap]        the JavaScript [Map] as an association list in insertion
                     order, refined to stdpp's [gmap].
    - [Scheduler]    [monitoringJobs] and the cron tasks: the start handler
                     split at its [await] ([start_begin], then
                     [start_finish], which fails when [cron.schedule]
                     throws, and [start_resume], the state either way),
                     stop, status and [SIGINT] (lines 374-442, 562-570);
                     node-cron's reading of the expression [*/N * * * *]
                     ([cron_step], [step_minutes], [cron_schedule]: the
                     step values of the minute field, and the validation
                     that throws when they are empty, as for [*/0]) and the
                     gap between two runs ([fires], [gap]).
    - [Endpoints]    the responses of [POST /api/scan], the status, health
                     and SMS test and status handlers.
    - [Server]       the whole server as a step relation [step] on [world]:
                     requests, cron firings and the completions of [fetch]
                     and of the SMS transport, interleaved; [reach] is its
                     reflexive-transitive closure from the initial world.
    - [SchedSpec]    the scheduler's contract of the specification
                     ([start]/[stop]/[status] on a [gmap] from URL to
                     interval and start time, and its labelled transitions
                     [spec_trans]) and the abstraction of [monitoringJobs]
                     onto it, for the registry alone and inside [Server],
                     where [lstep] labels each step of [Server.step] with
                     the scheduler operation it performs (a stop request,
                     a start's completion) or none.
    - [Timed]        the same server with a clock that only moves forward
                     ([tstep], [treach]); a completion reads it once per
                     reading of the code, at times [t1 <= t2 <= t3]
                     ([tenv]); it is a restriction of [step]
                     ([treach_reach]).
    - [App]          the Express application: the middleware chain, the
                     route table with Express's path matching, the error
                     middleware, [GET /] and the port; [dispatch] says which
                     layer answers a request.
    - [Http]         a request end to end: [dispatch], then the handler the
                     router picks, run up to its first [await] on the
                     [world] of [Server], and the response sent when the
                     awaited fetch completes ([completion_response]).
    - [TestClient]   [src/test-flight-monitor.js]: the setup checks,
                     [testEndpoint]'s decoding of a reply (a JSON [null]
                     body included) and [runTests], against the server's
                     replies.

    ** What is proved (claims C1-C40)

    - Interleaving and scheduling (Server, Scheduler, SchedSpec; C1-C4,
      C11, C25, C26, C34, C39): two starts for one URL racing over the
      initial scan leave a cron task no stop can reach, an orphan that
      stays scheduled in every later world and that [SIGINT] does not
      destroy either; clients that never overlap two starts keep at most
      one scheduled task per URL, its job's, and exactly one when every
      interval is positive; [cron.schedule] throws exactly on interval 0,
      and otherwise its cadence is uniform exactly when [N] divides 60;
      a restart with interval 0 destroys the running task and leaves the
      job listed with no task; a stop during a start's initial scan does
      not prevent the job; the status list keeps [Map] order.
    - Scan pipeline (Pipeline, HistoryStore, Notifier; C5-C10, C12, C13,
      C27, C28): the success and error paths of [scanWebsite] field by
      field, rescanning an unchanged page sends nothing, the error path
      does not cap [scanHistory] (so it grows past its 200 entries for
      good), the SMS history is a capped FIFO, invariants of every
      reachable world, the SMS text.
    - Time (Timed; C19, C24): the histories are newest first by
      [timestamp], never ahead of the clock and with every record's id
      read no later than its timestamp, however scans overlap; a job's
      task can start a scan while its previous one is in flight, and two
      scans completing in the same millisecond share their [id].
    - Extraction (Extractor, PriceScan; C14-C18, C35): records come from
      the table, names are unique and exactly the table names seen, the
      link loop terminates, and the price search equals a direct scan,
      which is not the window of the first occurrence the specification
      describes ([price_not_from_first_window]).
    - Change detection (DiffEngine; C20-C22): [detectChanges]'s additions,
      removals and price changes, and exactly when a list compared with
      itself is silent.
    - Read endpoints (HistoryStore, Endpoints; C30-C32): the [limit] of
      [/api/history] and [/api/changes] with [0], no value, text, [0x10]
      and negative values; [/api/sms/test] with and without a client.
    - Routing (App, Http; C29, C33, C36): a body [express.json()] rejects
      is answered 500 by the error middleware, not as a client error; a
      request reaches the handler of the one route that matches it, or
      404; and every request is a step of [Server.step] or changes
      nothing, only [POST]s with an accepted body changing the state.
    - Refinement (SchedSpec; C23, C38): when starts and stops run one at a
      time with positive intervals, the job registry implements the
      specification's [start]/[stop]/[status] contract, with one
      scheduled task per job carrying its interval; inside the server,
      [step] is exactly [lstep] with its labels forgotten, and every
      labelled step changes the registry's contents by that label's
      transition of the contract (a start by [start] or, with interval 0,
      not at all; a stop by [stop]; an unlabelled step not at all),
      overlapping starts included.
    - Requests end to end (Http, Pipeline, Endpoints; C37): a [POST] to
      [/api/scan] or [/api/monitor/start] is answered when its fetch
      completes, with the result that completion put at the head of the
      history; [/api/scan] reports success for a fetch that threw an
      empty message; a start with interval 0 rejects its promise.
    - The test script (TestClient; C40): the script's verdict, which
      ignores failures of its last two requests, and a JSON [null] reply
      counted as a connection failure.

    ** Bounds and fuel

    The regex loops run on fuel: [match_all] uses [S (length s)], enough
    since every iteration consumes a code unit or ends ([match_all_terminates]
    shows more fuel changes nothing); the [exec] loop likewise ([exec_loop_total]).
    The price window is the pattern's [{0,200}].  A cron task's
    minutes are computed over the 60 minutes of an hour, as node-cron
    expands a step; the gap to the next run is searched over the next 59
    minutes and is 60 otherwise, enough because a valid [*/N] schedule
    contains minute 0.  The history caps are the code's 200 (scans)
    and 50 (SMS).  [Date.now()] is an integer (milliseconds), cron time a
    minute count; cron firings are not tied to the clock, which
    over-approximates node-cron's timer.

    ** Not modelled

    The requires and [app.listen] (lines 1-10, 572-584), JSON encoding
    and the bytes of the files Express sends, the start-up and console
    logging, the count of destination images (it only logs), and the
    network: the outcome of [fetch], of the Twilio transport and of the
    test client's requests are inputs of the model, as is
    [toLocaleString()]; the 15-second timeout of [fetch] is one of the
    ways a fetch throws ([FetchThrows] with its message).  The file
    system under [public/] is a parameter of [App.dispatch], which
    models a file's answer but not [express.static]'s redirect of a
    directory path to its trailing-slash form.  The libraries' behaviour
    that [App] relies on (the defaults of [cors], [express.json],
    [express.static] and Express's router) and node-cron's reading of a
    [*/N] minute field are written from their documented behaviour; the
    other fields of a cron expression and node-cron's timer are not
    modelled, a task may fire at any step.  [intervalMinutes] is a
    natural number: a JSON body giving a negative, fractional or
    non-numeric value is not modelled.  A handler whose promise rejects
    ends in [Http.RRejected]; what Express then sends depends on its
    major version, which the repository does not pin. *)

From Stdlib Require Import ZArith Lia Ascii Sorted.
From Stdlib Require String.
Export String.StringSyntax.
From stdpp Require Export base list.


Declare Scope js_scope.
Delimit Scope js_scope with js.

(** ** JavaScript strings

    A JavaScript string is a sequence of UTF-16 code units; [length],
    indices and the [{0,200}] window of the extractor count code units.
    Literals of the source are written here as Rocq strings in UTF-8 and
    converted by [js], which decodes UTF-8 and re-encodes in UTF-16
    (astral characters such as emoji become a surrogate pair, as in the
    JavaScript source text). *)

Definition jstring := list Z.

Definition byte_val (a : ascii) : Z := Z.of_N (N_of_ascii a).

(** UTF-8 decoding of well-formed input to code points; malformed bytes
    are passed through unchanged (literals of the source are well formed). *)
Fixpoint utf8_decode (bs : list Z) : list Z :=
  match bs with
  | [] => []
  | b1 :: rest =>
      if (b1 <? 128)%Z then b1 :: utf8_decode rest
      else if (b1 <? 224)%Z then
        match rest with
        | b2 :: rest2 =>
            (Z.lor (Z.shiftl (Z.land b1 31) 6) (Z.land b2 63)) :: utf8_decode rest2
        | [] => [b1]
        end
      else if (b1 <? 240)%Z then
        match rest with
        | b2 :: b3 :: rest3 =>
            (Z.lor (Z.shiftl (Z.land b1 15) 12)
                   (Z.lor (Z.shiftl (Z.land b2 63) 6) (Z.land b3 63)))
              :: utf8_decode rest3
        | _ => b1 :: utf8_decode rest
        end
      else
        match rest with
        | b2 :: b3 :: b4 :: rest4 =>
            (Z.lor (Z.shiftl (Z.land b1 7) 18)
               (Z.lor (Z.shiftl (Z.land b2 63) 12)
                  (Z.lor (Z.shiftl (Z.land b3 63) 6) (Z.land b4 63))))
              :: utf8_decode rest4
        | _ => b1 :: utf8_decode rest
        end
  end.

(** A code point as UTF-16 code units. *)
Definition utf16_units (cp : Z) : list Z :=
  if (cp <? 65536)%Z then [cp]
  else [(55296 + Z.shiftr (cp - 65536) 10)%Z; (56320 + Z.land (cp - 65536) 1023)%Z].

Definition js (s : String.string) : jstring :=
  List.flat_map utf16_units (utf8_decode (List.map byte_val (String.list_ascii_of_string s))).
Arguments js s%_string_scope : simpl never.

(** ** Primitives of String and Array used by the server *)

(** [str.startsWith(p)] on code units. *)
Fixpoint starts_with (p s : jstring) : bool :=
  match p, s with
  | [], _ => true
  | x :: p', y :: s' => (x =? y)%Z && starts_with p' s'
  | _ :: _, [] => false
  end.

(** [str.includes(p)]: [p] occurs at some index of [str]. *)
Fixpoint includes (s p : jstring) : bool :=
  starts_with p s || match s with [] => false | _ :: s' => includes s' p end.

(** [arr.unshift(x)] inserts at the head; [arr.pop()] removes the last
    element ([removelast]). *)
Definition unshift {A} (x : A) (l : list A) : list A := x :: l.
Definition pop {A} (l : list A) : list A := removelast l.

(** [arr.slice(0, end)] with a JavaScript integer [end]: a negative end
    counts from the back, an end beyond the length is clamped. *)
Definition slice0 {A} (l : list A) (e : Z) : list A :=
  let len := Z.of_nat (length l) in
  let e' := if (e <? 0)%Z then Z.max 0 (len + e) else Z.min e len in
  take (Z.to_nat e') l.

(** ** Automation shared by the components *)

Create HintDb fm discriminated.
Create Rewrite HintDb fm_rw.

Ltac invc H := inversion H; clear H; subst.

(** Turn boolean tests of the code into propositions. *)
Ltac bool_to_prop :=
  repeat match goal with
  | H : (_ && _) = true |- _ => apply andb_prop in H as [? ?]
  | H : (_ || _) = false |- _ => apply Bool.orb_false_elim in H as [? ?]
  | H : negb _ = true |- _ => apply Bool.negb_true_iff in H
  | H : negb _ = false |- _ => apply Bool.negb_false_iff in H
  | H : (_ =? _)%Z = true |- _ => apply Z.eqb_eq in H
  | H : (_ =? _)%Z = false |- _ => apply Z.eqb_neq in H
  | H : (_ =? _)%nat = true |- _ => apply Nat.eqb_eq in H
  | H : (_ =? _)%nat = false |- _ => apply Nat.eqb_neq in H
  end.

(** ** Shared lemmas *)

Lemma starts_with_spec (p s : jstring) :
  starts_with p s = true <-> exists t, s = p ++ t.
Proof.
  revert s; induction p as [|x p IH]; intros [|y s]; simpl.
  - split; eauto.
  - split; eauto.
  - split; [discriminate|]. intros [t Ht]; discriminate.
  - rewrite Bool.andb_true_iff, Z.eqb_eq, IH. split.
    + intros [-> [t ->]]. eauto.
    + intros [t Ht]. injection Ht as -> ->. eauto.
Qed.

Lemma starts_with_app (p t : jstring) : starts_with p (p ++ t) = true.
Proof. apply starts_with_spec. eauto. Qed.

Lemma includes_spec (s p : jstring) :
  includes s p = true <-> exists a b, s = a ++ p ++ b.
Proof.
  induction s as [|x s IH]; simpl; rewrite Bool.orb_true_iff, starts_with_spec.
  - split.
    + intros [[t Ht]|?]; [exists [], t; exact Ht|discriminate].
    + intros (a & b & Hab). left. destruct a; [eauto|discriminate].
  - rewrite IH. split.
    + intros [[t Ht]|(a & b & ->)].
      * exists [], t. exact Ht.
      * exists (x :: a), b. done.
    + intros (a & b & Hab). destruct a as [|y a].
      * left. eauto.
      * right. injection Hab as -> ->. eauto.
Qed.

Lemma length_pop {A} (l : list A) : length (pop l) = length l - 1.
Proof. unfold pop. rewrite removelast_firstn_len, length_take. lia. Qed.

Lemma pop_app_last {A} (l : list A) (x : A) : pop (l ++ [x]) = l.
Proof. unfold pop. apply removelast_last. Qed.

Lemma suffix_length_le {A} (l1 l2 : list A) : suffix l1 l2 -> length l1 <= length l2.
Proof. intros [k ->]. rewrite length_app. lia. Qed.

Lemma take_suffix_app {A} (s r : list A) :
  suffix r s -> take (length s - length r) s ++ r = s.
Proof.
  intros [k ->]. rewrite length_app, Nat.add_sub, take_app_length. done.
Qed.

#[export] Hint Resolve starts_with_app suffix_length_le : fm.
#[export] Hint Rewrite @length_pop @pop_app_last : fm_rw.

(** ** Lists stamped by a clock

    A list of records stamped by [t] (a reading of [Date.now()]), newest
    first and none later than the clock [c]: [unshift] of a record stamped
    now and [pop] keep it, and it survives the clock moving forward. *)
Definition stamped_upto {A} (t : A -> Z) (c : Z) (l : list A) : Prop :=
  StronglySorted (fun a b => (t b <= t a)%Z) l /\ Forall (fun a => (t a <= c)%Z) l.

Lemma stamped_upto_nil {A} (t : A -> Z) c : stamped_upto t c [].
Proof. split; constructor. Qed.

Lemma stamped_upto_mono {A} (t : A -> Z) c c' l :
  (c <= c')%Z -> stamped_upto t c l -> stamped_upto t c' l.
Proof. intros Hc [Hs Hf]. split; [done|]. eapply Forall_impl; [exact Hf|]. simpl; lia. Qed.

Lemma stamped_upto_unshift {A} (t : A -> Z) c x l :
  t x = c -> stamped_upto t c l -> stamped_upto t c (unshift x l).
Proof.
  intros Hx [Hs Hf]. split; constructor; try done; [|lia].
  eapply Forall_impl; [exact Hf|]. simpl; lia.
Qed.

Lemma Forall_removelast {A} (P : A -> Prop) l : Forall P l -> Forall P (removelast l).
Proof.
  induction l as [|x [|y l] IH]; intros Hf; [done|constructor|].
  apply Forall_cons in Hf as [Hx Hf].
  change (removelast (x :: y :: l)) with (x :: removelast (y :: l)).
  constructor; [done|by apply IH].
Qed.

Lemma StronglySorted_removelast {A} (R : A -> A -> Prop) l :
  StronglySorted R l -> StronglySorted R (removelast l).
Proof.
  induction l as [|x [|y l] IH]; intros Hs; [done|constructor|].
  apply StronglySorted_inv in Hs as [Hs Hx].
  change (removelast (x :: y :: l)) with (x :: removelast (y :: l)).
  constructor; [by apply IH|by apply Forall_removelast].
Qed.

Lemma stamped_upto_pop {A} (t : A -> Z) c l : stamped_upto t c l -> stamped_upto t c (pop l).
Proof.
  intros [Hs Hf]. split; [by apply StronglySorted_removelast|by apply Forall_removelast].
Qed.

#[export] Hint Resolve stamped_upto_nil stamped_upto_unshift stamped_upto_pop : fm.

(** A property kept by every step of a [forEach]/[reduce] holds at its end. *)
Lemma fold_left_invariant {A B} (P : B -> Prop) (f : B -> A -> B) (l : list A) (b : B) :
  P b -> (forall b' a, a ∈ l -> P b' -> P (f b' a)) -> P (fold_left f l b).
Proof.
  revert b; induction l as [|a l IH]; intros b Hb Hstep; simpl; [done|].
  apply IH; [apply Hstep; [left|done]|].
  intros b' a' Ha'. apply Hstep. by right.
Qed.

Lemma filter_all_false {A} (P : A -> Prop) `{!forall x, Decision (P x)} (l : list A) :
  (forall z, z ∈ l -> ~ P z) -> filter P l = [].
Proof.
  induction l as [|y l IH]; intros Hno; [done|]. rewrite filter_cons.
  rewrite decide_False by (apply Hno; left). apply IH. intros z Hz. apply Hno. by right.
Qed.

Lemma filter_all_true {A} (P : A -> Prop) `{!forall x, Decision (P x)} (l : list A) :
  (forall z, z ∈ l -> P z) -> filter P l = l.
Proof.
  induction l as [|y l IH]; intros Hall; [done|]. rewrite filter_cons.
  rewrite decide_True by (apply Hall; left). f_equal. apply IH. intros z Hz. apply Hall. by right.
Qed.

(** Filtering commutes with a map that the two tests agree across. *)
Lemma map_filter_commute {A B} (f : A -> B) (P : A -> Prop) (Q : B -> Prop)
    `{!forall x, Decision (P x)} `{!forall y, Decision (Q y)} (l : list A) :
  (forall x, P x <-> Q (f x)) -> map f (filter P l) = filter Q (map f l).
Proof.
  intros HPQ. induction l as [|x l IH]; [done|]. cbn [map]. rewrite !filter_cons.
  destruct (decide (P x)) as [Hp|Hp].
  - rewrite decide_True by by apply HPQ. cbn. by rewrite IH.
  - rewrite decide_False by by rewrite <- HPQ. done.
Qed.

(** In a list whose keys are distinct, filtering on the key of a member
    leaves that member alone. *)
Lemma filter_key_single {A K} `{EqDecision K} (f : A -> K) (l : list A) (x : A) :
  NoDup (map f l) -> x ∈ l -> filter (fun y => f y = f x) l = [x].
Proof.
  induction l as [|y l IH]; intros Hnd Hx; [by apply not_elem_of_nil in Hx|].
  simpl in Hnd. apply NoDup_cons in Hnd as [Hnotin Hnd].
  rewrite filter_cons. apply elem_of_cons in Hx as [->|Hx].
  - rewrite decide_True by done. f_equal.
    apply filter_all_false. intros z Hz Hfz. apply Hnotin.
    apply list_elem_of_fmap. eauto.
  - assert (f y <> f x).
    { intros Heq. apply Hnotin. rewrite Heq. apply list_elem_of_fmap. eauto. }
    rewrite decide_False by done. by apply IH.
Qed.

(** Keys that are distinct stay distinct through a map that is injective
    on the members of the list. *)
Lemma NoDup_map_inj_on {A K1 K2} (f : A -> K1) (g : A -> K2) (l : list A) :
  NoDup (map f l) -> (forall x y, x ∈ l -> y ∈ l -> g x = g y -> f x = f y) ->
  NoDup (map g l).
Proof.
  induction l as [|y l IH]; intros Hnd Hinj; simpl; [constructor|].
  simpl in Hnd. apply NoDup_cons in Hnd as [Hnotin Hnd]. constructor.
  - intros Hin. apply list_elem_of_fmap in Hin as (z & Hgz & Hz).
    apply Hnotin, list_elem_of_fmap. exists z. split; [|done].
    apply Hinj; [by left|by right|done].
  - apply IH; [done|]. intros x z Hx Hz. apply Hinj; by right.
Qed.

(** Collecting the results of a partial function whose result remembers
    its argument is filtering by the domain of the function. *)
Lemma map_omap_filter {A B} (f : A -> option B) (g : B -> A) (P : A -> Prop)
    `{!forall x, Decision (P x)} (l : list A) :
  (forall a b, f a = Some b -> g b = a) -> (forall a, is_Some (f a) <-> P a) ->
  map g (omap f l) = filter P l.
Proof.
  intros Hg HP. induction l as [|a l IH]; [done|].
  rewrite filter_cons, <- IH. simpl. destruct (f a) as [b|] eqn:E.
  - rewrite decide_True by (apply HP; rewrite E; eauto). simpl. by rewrite (Hg _ _ E).
  - rewrite decide_False; [done|]. rewrite <- HP, E. by intros [].
Qed.

Lemma NoDup_map_filter {A B} (f : A -> B) (P : A -> Prop) `{!forall x, Decision (P x)}
    (l : list A) :
  NoDup (map f l) -> NoDup (map f (filter P l)).
Proof.
  intros Hnd. eapply sublist_NoDup; [exact Hnd|].
  induction l as [|x l IH]; [done|]. simpl in *. apply NoDup_cons in Hnd as [_ Hnd].
  rewrite filter_cons. case_decide; simpl.
  - by apply sublist_skip, IH.
  - by apply sublist_cons, IH.
Qed.

(** A duplicate-free list whose only element is [x] is [[x]]. *)
Lemma NoDup_singleton_iff {A} (l : list A) x :
  NoDup l -> (forall y, y ∈ l <-> y = x) -> l = [x].
Proof.
  intros Hnd Hl. destruct l as [|y [|z l]].
  - exfalso. apply (not_elem_of_nil x), Hl. done.
  - by rewrite (proj1 (Hl y)) by by left.
  - apply NoDup_cons in Hnd as [Hy _]. exfalso. apply Hy.
    assert (y = x) as -> by (apply Hl; by left).
    assert (z = x) as -> by (apply Hl; right; by left). by left.
Qed.

(** Ids that are indices are distinct. *)
Lemma NoDup_map_index {A} (f : A -> nat) (l : list A) :
  (forall i x, l !! i = Some x -> f x = i) -> NoDup (map f l).
Proof.
  intros Hi. replace (map f l) with (seq 0 (length l)); [apply NoDup_seq|].
  apply list_eq. intros i. rewrite list_lookup_fmap.
  destruct (l !! i) as [x|] eqn:E; simpl.
  - apply lookup_seq. rewrite (Hi _ _ E). split; [done|]. by eapply lookup_lt_Some.
  - apply lookup_ge_None in E. apply lookup_ge_None. rewrite length_seq. lia.
Qed.
