(* ===== verification/JsRegex.v ===== *)
(** * The ECMAScript regular expressions of the extractor

    [extractDestinations] (src/flight-monitor-server.js, lines 200-269)
    builds five regular expressions and runs them with [String.prototype.match]
    (global flag) and [RegExp.prototype.exec].  This file models the
    fragment of the ECMAScript pattern language they use -- literal code
    units, character classes with ranges and the escapes [\d \s \S], [.],
    alternation, capturing groups and quantifiers over a single character
    (greedy or lazy, bounded or not) -- by the continuation-passing
    backtracking matcher that the ECMAScript specification itself uses
    (section "Pattern Semantics"), and the two search loops on top of it.

    Case-insensitive matching canonicalises ASCII letters only; in
    non-unicode mode ECMAScript never maps a non-ASCII code unit to an ASCII
    one, and the only letters of the program's case-insensitive pattern are
    ASCII, so this is exact for the program. *)

From S2P Require Import Prelude.

(** ** Syntax *)

Inductive class_item :=
| CRange (lo hi : Z)
| CDigit | CNotDigit | CSpace | CNotSpace.

Record char_class := { cc_negated : bool; cc_items : list class_item }.

Inductive atom :=
| AChar (c : Z)
| AClass (cc : char_class)
| ADot.

Inductive regex :=
| REmpty
| RAtom (a : atom)
| RSeq (r1 r2 : regex)
| RAlt (r1 r2 : regex)
| RGroup (n : nat) (r : regex)
| RRep (greedy : bool) (lo : nat) (hi : option nat) (a : atom).

(** A [RegExp] object: its pattern and the flags [i] and [g]. *)
Record jsregex := { re_source : regex; re_ignore_case : bool; re_global : bool }.

(** ** Character predicates *)

Definition is_digit (x : Z) : bool := (48 <=? x)%Z && (x <=? 57)%Z.

Definition is_line_terminator (x : Z) : bool :=
  (x =? 10)%Z || (x =? 13)%Z || (x =? 8232)%Z || (x =? 8233)%Z.

(** WhiteSpace and LineTerminator code units (the set of [\s]). *)
Definition is_space (x : Z) : bool :=
  (x =? 9)%Z || (x =? 11)%Z || (x =? 12)%Z || (x =? 32)%Z || (x =? 160)%Z
  || (x =? 65279)%Z || (x =? 5760)%Z || ((8192 <=? x)%Z && (x <=? 8202)%Z)
  || (x =? 8239)%Z || (x =? 8287)%Z || (x =? 12288)%Z || is_line_terminator x.

Definition is_ascii_letter (x : Z) : bool :=
  ((65 <=? x)%Z && (x <=? 90)%Z) || ((97 <=? x)%Z && (x <=? 122)%Z).

Definition swap_case (x : Z) : Z :=
  if (65 <=? x)%Z && (x <=? 90)%Z then (x + 32)%Z
  else if (97 <=? x)%Z && (x <=? 122)%Z then (x - 32)%Z else x.

(** Canonicalize (non-unicode mode), restricted to ASCII letters. *)
Definition canonicalize (ic : bool) (x : Z) : Z :=
  if ic && (97 <=? x)%Z && (x <=? 122)%Z then (x - 32)%Z else x.

Definition item_has (it : class_item) (x : Z) : bool :=
  match it with
  | CRange lo hi => (lo <=? x)%Z && (x <=? hi)%Z
  | CDigit => is_digit x
  | CNotDigit => negb (is_digit x)
  | CSpace => is_space x
  | CNotSpace => negb (is_space x)
  end.

(** CharacterSetMatcher: some member of the set has the canonical form of [x]. *)
Definition class_has (ic : bool) (items : list class_item) (x : Z) : bool :=
  existsb (fun it => item_has it x || (ic && is_ascii_letter x && item_has it (swap_case x)))
          items.

Definition atom_matches (ic : bool) (a : atom) (x : Z) : bool :=
  match a with
  | AChar c => (canonicalize ic c =? canonicalize ic x)%Z
  | AClass cc => xorb (cc_negated cc) (class_has ic (cc_items cc) x)
  | ADot => negb (is_line_terminator x)
  end.

(** ** The backtracking matcher

    A matcher takes the remaining input (a suffix of the subject), the
    captures so far and a continuation; it returns the final state of the
    first successful path in the order ECMAScript tries them. *)

Definition captures := list (nat * jstring).
Definition mstate := (jstring * captures)%type.
Definition cont := jstring -> captures -> option mstate.

(** RepeatMatcher for a single-character body: [lo] mandatory iterations,
    then at most [hi] in all; greedy tries one more iteration before the
    continuation, lazy tries the continuation first. *)
Fixpoint rep_m (p : Z -> bool) (greedy : bool) (lo : nat) (hi : option nat)
    (k : cont) (s : jstring) (caps : captures) {struct s} : option mstate :=
  match lo with
  | S lo' =>
      match s with
      | x :: s' => if p x then rep_m p greedy lo' (option_map pred hi) k s' caps else None
      | [] => None
      end
  | O =>
      if greedy then
        match (match hi, s with
               | Some O, _ => None
               | _, x :: s' => if p x then rep_m p greedy O (option_map pred hi) k s' caps else None
               | _, [] => None
               end) with
        | Some r => Some r
        | None => k s caps
        end
      else
        match k s caps with
        | Some r => Some r
        | None =>
            match hi, s with
            | Some O, _ => None
            | _, x :: s' => if p x then rep_m p greedy O (option_map pred hi) k s' caps else None
            | _, [] => None
            end
        end
  end.

Fixpoint m (ic : bool) (r : regex) (s : jstring) (caps : captures) (k : cont)
    {struct r} : option mstate :=
  match r with
  | REmpty => k s caps
  | RAtom a =>
      match s with
      | x :: s' => if atom_matches ic a x then k s' caps else None
      | [] => None
      end
  | RSeq r1 r2 => m ic r1 s caps (fun s' caps' => m ic r2 s' caps' k)
  | RAlt r1 r2 =>
      match m ic r1 s caps k with
      | Some res => Some res
      | None => m ic r2 s caps k
      end
  | RGroup n r1 =>
      m ic r1 s caps (fun s' caps' => k s' ((n, take (length s - length s') s) :: caps'))
  | RRep g lo hi a => rep_m (atom_matches ic a) g lo hi k s caps
  end.

(** A match attempt at the start of [s]. *)
Definition match_here (re : jsregex) (s : jstring) : option mstate :=
  m (re_ignore_case re) (re_source re) s [] (fun s' caps => Some (s', caps)).

(** The first capture recorded for group [n] (JavaScript [result[n]]). *)
Fixpoint cap_lookup (n : nat) (caps : captures) : option jstring :=
  match caps with
  | [] => None
  | (j, v) :: caps' => if Nat.eqb j n then Some v else cap_lookup n caps'
  end.

(** ** [RegExp.prototype.exec] and the two loops built on it

    [exec] tries the match at index 0, 1, ..., [length s] and returns the
    first success (the leftmost match).  The result records the index, the
    matched text, the remaining input (where [lastIndex] points after a
    global match) and the captures.  The program's patterns have no
    anchors or look-behind, so a search from [lastIndex] is a search in
    the suffix of the subject at [lastIndex]. *)

Record match_result := {
  mr_index : nat;
  mr_matched : jstring;
  mr_rest : jstring;
  mr_caps : captures
}.

Fixpoint search_from (re : jsregex) (s : jstring) (i : nat) : option match_result :=
  match match_here re s with
  | Some (rest, caps) =>
      Some {| mr_index := i; mr_matched := take (length s - length rest) s;
              mr_rest := rest; mr_caps := caps |}
  | None => match s with [] => None | _ :: s' => search_from re s' (S i) end
  end.

Definition exec (re : jsregex) (s : jstring) : option match_result := search_from re s 0.

(** [while ((m = re.exec(s)) !== null) ...] with a global [re]: each
    iteration resumes at [lastIndex], the end of the previous match.  An
    empty match leaves [lastIndex] in place and the JavaScript loop never
    ends, so the model runs on fuel and returns [None] when it runs out. *)
Fixpoint exec_loop (fuel : nat) (re : jsregex) (s : jstring) : option (list match_result) :=
  match fuel with
  | O => None
  | S fuel' =>
      match exec re s with
      | None => Some []
      | Some res =>
          match exec_loop fuel' re (mr_rest res) with
          | Some l => Some (res :: l)
          | None => None
          end
      end
  end.

(** [s.match(re)] with a global [re]: the list of matched strings, an
    empty match advancing [lastIndex] by one. *)
Fixpoint match_all_fuel (fuel : nat) (re : jsregex) (s : jstring) : list jstring :=
  match fuel with
  | O => []
  | S fuel' =>
      match exec re s with
      | None => []
      | Some res =>
          mr_matched res ::
            match mr_matched res, mr_rest res with
            | [], [] => []
            | [], _ :: t => match_all_fuel fuel' re t
            | _ :: _, r => match_all_fuel fuel' re r
            end
      end
  end.

Definition match_all (re : jsregex) (s : jstring) : list jstring :=
  match_all_fuel (S (length s)) re s.

(** [String.prototype.match] returns [null] when nothing matches. *)
Definition str_match (re : jsregex) (s : jstring) : option (list jstring) :=
  match match_all re s with [] => None | l => Some l end.

(** ** Static analysis: the fewest code units a pattern consumes *)

Fixpoint min_len (r : regex) : nat :=
  match r with
  | REmpty => 0
  | RAtom _ => 1
  | RSeq r1 r2 => min_len r1 + min_len r2
  | RAlt r1 r2 => Nat.min (min_len r1) (min_len r2)
  | RGroup _ r1 => min_len r1
  | RRep _ lo _ _ => lo
  end.

Fixpoint lit (p : jstring) : regex :=
  match p with
  | [] => REmpty
  | c :: p' => RSeq (RAtom (AChar c)) (lit p')
  end.


(** A global pattern made of a literal. *)
Definition lit_re (p : jstring) : jsregex :=
  {| re_source := lit p; re_ignore_case := false; re_global := true |}.

(** ** The matcher consumes a suffix

    Every successful path ends in the continuation, called on a suffix of
    the input that is at least [min_len] code units shorter. *)

Lemma rep_m_consumes p g lo hi k s caps res :
  rep_m p g lo hi k s caps = Some res ->
  exists s', suffix s' s /\ length s' + lo <= length s /\ k s' caps = Some res.
Proof.
  revert lo hi; induction s as [|x s IH]; intros lo hi H;
    destruct lo as [|lo]; simpl in H; repeat (case_match; simplify_eq/=); try discriminate;
    try (eexists; split_and!; [reflexivity|simpl; lia|eassumption]);
    match goal with H : rep_m _ _ _ _ _ _ _ = Some _ |- _ =>
      destruct (IH _ _ H) as (s' & Hs & Hl & Hk);
      (exists s'; split_and!; [by apply suffix_cons_r|simpl; lia|done]) end.
Qed.

Lemma m_consumes ic r :
  forall s caps k res, m ic r s caps k = Some res ->
  exists s' caps', suffix s' s /\ length s' + min_len r <= length s /\ k s' caps' = Some res.
Proof.
  induction r as [|a|r1 IH1 r2 IH2|r1 IH1 r2 IH2|n r1 IH|g lo hi a];
    intros s caps k res H; simpl in H |- *.
  - exists s, caps. split_and!; [reflexivity|lia|done].
  - destruct s as [|x s]; [discriminate|].
    destruct (atom_matches ic a x); [|discriminate].
    exists s, caps. split_and!; [by apply suffix_cons_r|simpl; lia|done].
  - destruct (IH1 _ _ _ _ H) as (s1 & c1 & Hs1 & Hl1 & Hk1).
    destruct (IH2 _ _ _ _ Hk1) as (s2 & c2 & Hs2 & Hl2 & Hk2).
    exists s2, c2. split_and!; [by trans s1|lia|done].
  - destruct (m ic r1 s caps k) eqn:E.
    + injection H as <-. destruct (IH1 _ _ _ _ E) as (s1 & c1 & ? & ? & ?).
      exists s1, c1. split_and!; [done|lia|done].
    + destruct (IH2 _ _ _ _ H) as (s1 & c1 & ? & ? & ?).
      exists s1, c1. split_and!; [done|lia|done].
  - destruct (IH _ _ _ _ H) as (s1 & c1 & ? & ? & ?). eauto.
  - destruct (rep_m_consumes _ _ _ _ _ _ _ _ H) as (s' & ? & ? & ?). eauto.
Qed.

Lemma match_here_consumes re s rest caps :
  match_here re s = Some (rest, caps) ->
  suffix rest s /\ length rest + min_len (re_source re) <= length s.
Proof.
  unfold match_here. intros H.
  destruct (m_consumes _ _ _ _ _ _ H) as (s' & c' & ? & ? & Hk). simplify_eq. done.
Qed.

Lemma search_from_spec re s i res :
  search_from re s i = Some res ->
  i <= mr_index res /\ mr_index res - i <= length s /\
  match_here re (drop (mr_index res - i) s) = Some (mr_rest res, mr_caps res) /\
  mr_matched res ++ mr_rest res = drop (mr_index res - i) s /\
  (forall j, j < mr_index res - i -> match_here re (drop j s) = None).
Proof.
  revert i; induction s as [|x s IH]; intros i H; simpl in H;
    destruct (match_here re _) as [[rest caps]|] eqn:E.
  - injection H as <-. cbn [mr_index mr_matched mr_rest mr_caps].
    rewrite Nat.sub_diag, drop_0. destruct (match_here_consumes _ _ _ _ E) as [Hsuf ?].
    apply suffix_nil_inv in Hsuf as ->. split_and!; [lia|simpl; lia|done|done|lia].
  - discriminate.
  - injection H as <-. cbn [mr_index mr_matched mr_rest mr_caps].
    rewrite Nat.sub_diag, drop_0. destruct (match_here_consumes _ _ _ _ E).
    split_and!; [lia|simpl; lia|done|by apply (take_suffix_app (x :: s))|lia].
  - destruct (IH _ H) as (? & ? & Hm & Happ & Hbefore).
    replace (mr_index res - i) with (S (mr_index res - S i)) by lia. simpl.
    split_and!; [lia|lia|done|done|].
    intros [|j] Hj; [done|]. apply Hbefore. lia.
Qed.

Lemma search_from_none re s i :
  search_from re s i = None -> forall j, j <= length s -> match_here re (drop j s) = None.
Proof.
  revert i; induction s as [|x s IH]; intros i H j Hj; simpl in H;
    destruct (match_here re _) as [[rest caps]|] eqn:E; try discriminate.
  - by replace j with 0 by (simpl in Hj; lia).
  - destruct j as [|j]; [done|]. apply (IH _ H). simpl in Hj. lia.
Qed.

Lemma exec_rest_length re s res :
  exec re s = Some res -> length (mr_rest res) + min_len (re_source re) <= length s.
Proof.
  intros H. destruct (search_from_spec _ _ _ _ H) as (_ & _ & Hm & _).
  destruct (match_here_consumes _ _ _ _ Hm) as [_ Hl].
  rewrite length_drop in Hl. lia.
Qed.

Lemma exec_matched_rest re s res :
  exec re s = Some res -> length (mr_matched res) + length (mr_rest res) <= length s.
Proof.
  intros H. destruct (search_from_spec _ _ _ _ H) as (_ & _ & _ & Happ & _).
  apply (f_equal length) in Happ. rewrite length_app, length_drop in Happ. lia.
Qed.

Lemma exec_loop_fuel_mono re n n' s l :
  exec_loop n re s = Some l -> n <= n' -> exec_loop n' re s = Some l.
Proof.
  revert n' s l; induction n as [|n IH]; intros n' s l H Hle; [discriminate|].
  destruct n' as [|n']; [lia|]. simpl in *.
  destruct (exec re s) as [res|]; [|done].
  destruct (exec_loop n re (mr_rest res)) eqn:E; [|discriminate].
  rewrite (IH n' _ _ E); [done|lia].
Qed.

(** ** Literal patterns

    A pattern made of pattern characters only, such as [`טיסה ל${hebrew}`]
    (a Hebrew name contains no syntax character of the pattern language). *)

Lemma m_lit p s caps k :
  m false (lit p) s caps k =
  if starts_with p s then k (drop (length p) s) caps else None.
Proof.
  revert s; induction p as [|c p IH]; intros s; [done|].
  destruct s as [|x s]; simpl; [done|]. unfold canonicalize; simpl.
  destruct (c =? x)%Z; simpl; [apply IH|done].
Qed.

Lemma m_seq_lit p r s caps k :
  m false (RSeq (lit p) r) s caps k =
  if starts_with p s then m false r (drop (length p) s) caps k else None.
Proof. simpl. apply m_lit. Qed.

Lemma min_len_lit p : min_len (lit p) = length p.
Proof. induction p; simpl; lia. Qed.

(** ** Properties of the search loops *)

(** [exec] returns the leftmost match: the match attempt succeeds at the
    reported index, the reported text and rest split the subject there,
    and every attempt at a smaller index fails. *)
Theorem exec_leftmost re s res :
  exec re s = Some res ->
  match_here re (drop (mr_index res) s) = Some (mr_rest res, mr_caps res) /\
  mr_matched res ++ mr_rest res = drop (mr_index res) s /\
  forall j, j < mr_index res -> match_here re (drop j s) = None.
Proof.
  intros H. destruct (search_from_spec _ _ _ _ H) as (_ & _ & ? & ? & ?).
  rewrite Nat.sub_0_r in *. done.
Qed.

(** [exec] returns [null] exactly when no index of the subject starts a match. *)
Theorem exec_none_iff re s :
  exec re s = None <-> forall j, j <= length s -> match_here re (drop j s) = None.
Proof.
  split; [apply search_from_none|].
  intros Hall. destruct (exec re s) as [res|] eqn:E; [|done].
  destruct (search_from_spec _ _ _ _ E) as (_ & Hle & Hm & _).
  rewrite Nat.sub_0_r in *. by rewrite Hall in Hm.
Qed.

(** The [while (exec ...)] loop over a global pattern that cannot match
    the empty string terminates: [length s + 1] iterations suffice. *)
Lemma exec_loop_total re s :
  1 <= min_len (re_source re) -> exists l, exec_loop (S (length s)) re s = Some l.
Proof.
  intros Hmin.
  assert (Hgen : forall n t, length t < n -> exists l, exec_loop n re t = Some l).
  { induction n as [|n IH]; intros t Ht; [lia|]. simpl.
    destruct (exec re t) as [res|] eqn:E; [|eauto].
    pose proof (exec_rest_length _ _ _ E).
    destruct (IH (mr_rest res)) as [l ->]; [lia|eauto]. }
  apply Hgen. lia.
Qed.

Lemma match_all_fuel_stable re :
  forall n1 n2 s, length s < n1 -> length s < n2 ->
  match_all_fuel n1 re s = match_all_fuel n2 re s.
Proof.
  induction n1 as [|n1 IH]; intros [|n2] s H1 H2; try lia. simpl.
  destruct (exec re s) as [res|] eqn:E; [|done]. f_equal.
  pose proof (exec_matched_rest _ _ _ E) as Hl.
  destruct (mr_matched res) as [|c mt] eqn:Em, (mr_rest res) as [|y t] eqn:Er;
    rewrite ?Em, ?Er in Hl; simpl in Hl |- *; try done; apply IH; simpl; lia.
Qed.

(** [s.match(re)] with the global flag terminates: once the fuel exceeds
    the length of the subject, more fuel changes nothing, so [match_all]
    is the complete result of the JavaScript loop. *)
Theorem match_all_terminates re s n :
  length s < n -> match_all_fuel n re s = match_all re s.
Proof. intros H. apply match_all_fuel_stable; simpl; lia. Qed.

(** ** [String.prototype.match] and [exec] agree on whether there is a match *)

Lemma match_all_nil_iff re s : match_all re s = [] <-> exec re s = None.
Proof. unfold match_all. simpl. destruct (exec re s); split; done. Qed.

Lemma str_match_none_iff re s : str_match re s = None <-> exec re s = None.
Proof.
  unfold str_match. rewrite <- match_all_nil_iff.
  destruct (match_all re s); split; done.
Qed.

Lemma str_match_some_length re s l : str_match re s = Some l -> 0 < length l.
Proof. unfold str_match. destruct (match_all re s); intros; simplify_eq/=; lia. Qed.

Lemma includes_drop (s p : jstring) :
  includes s p = true <-> exists j, j <= length s /\ starts_with p (drop j s) = true.
Proof.
  induction s as [|x s IH]; simpl; rewrite Bool.orb_true_iff.
  - split.
    + intros [H|H]; [exists 0; split; [lia|done]|discriminate].
    + intros (j & Hj & H). left. by replace j with 0 in H by lia.
  - rewrite IH. split.
    + intros [H|(j & Hj & H)]; [exists 0; split; [lia|done]|exists (S j); split; [lia|done]].
    + intros ([|j] & Hj & H); [by left|right; exists j; split; [lia|done]].
Qed.

(** A literal pattern matches somewhere exactly when the subject includes it. *)
Lemma exec_lit_is_some re p s :
  re_source re = lit p -> re_ignore_case re = false ->
  is_Some (exec re s) <-> includes s p = true.
Proof.
  intros Hs Hic. rewrite includes_drop.
  assert (Hhere : forall t, is_Some (match_here re t) <-> starts_with p t = true).
  { intros t. unfold match_here. rewrite Hs, Hic, m_lit.
    destruct (starts_with p t); split; intros H; try done; by destruct H. }
  split.
  - intros [res Hres]. destruct (search_from_spec _ _ _ _ Hres) as (_ & Hle & Hm & _).
    rewrite Nat.sub_0_r in *. exists (mr_index res). split; [lia|].
    apply Hhere. by rewrite Hm.
  - intros (j & Hj & Hst). destruct (exec re s) eqn:E; [done|].
    apply Hhere in Hst. rewrite (search_from_none re s 0 E j Hj) in Hst.
    by destruct Hst.
Qed.

(** ** Witnesses *)

Lemma exec_leftmost_witness :
  exists res, exec (lit_re (js "b")) (js "abab") = Some res /\ mr_index res = 1 /\
    forall j, j < mr_index res -> match_here (lit_re (js "b")) (drop j (js "abab")) = None.
Proof.
  eexists. split; [vm_compute; reflexivity|]. split; [vm_compute; reflexivity|].
  refine (proj2 (proj2 (exec_leftmost (lit_re (js "b")) (js "abab") _ _))).
  vm_compute. reflexivity.
Defined.

Lemma exec_none_iff_witness :
  exec (lit_re (js "b")) (js "aa") = None /\
  forall j, j <= 2 -> match_here (lit_re (js "b")) (drop j (js "aa")) = None.
Proof.
  assert (E : exec (lit_re (js "b")) (js "aa") = None) by (vm_compute; reflexivity).
  split; [exact E|]. exact (proj1 (exec_none_iff (lit_re (js "b")) (js "aa")) E).
Defined.

Lemma match_all_terminates_witness :
  length (js "abab") < 10 /\
  match_all_fuel 10 (lit_re (js "b")) (js "abab") = match_all (lit_re (js "b")) (js "abab").
Proof.
  assert (H : length (js "abab") < 10) by (vm_compute; lia).
  split; [exact H|]. exact (match_all_terminates (lit_re (js "b")) (js "abab") 10 H).
Defined.
