(* ===== verification/JsNumber.v ===== *)
(** * JsNumber: integers to strings and back

    The server turns numbers into text in template literals
    ([`HTTP ${response.status}`], [`*/${intervalMinutes} * * * *`],
    [`(${destinations.length})`]) and reads the [limit] of three
    endpoints with [parseInt(req.query.limit)] (lines 446, 466, 529).
    [show_nat] is the decimal text of a non-negative integer, and
    [parseInt] the algorithm of ECMAScript's [parseInt(string)] with no
    radix: leading white space, a sign, the prefix [0x]/[0X] for base 16,
    then the longest run of digits of the base, [NaN] ([None]) when the
    run is empty.  The result is the exact integer; JavaScript rounds it
    to a double above 2^53, which no limit of the program comes near. *)

From Stdlib Require DecimalN.
From S2P Require Import Prelude JsRegex.

(** ** Printing *)

Fixpoint uint_digits (u : Decimal.uint) : jstring :=
  match u with
  | Decimal.Nil => []
  | Decimal.D0 u => 48%Z :: uint_digits u | Decimal.D1 u => 49%Z :: uint_digits u
  | Decimal.D2 u => 50%Z :: uint_digits u | Decimal.D3 u => 51%Z :: uint_digits u
  | Decimal.D4 u => 52%Z :: uint_digits u | Decimal.D5 u => 53%Z :: uint_digits u
  | Decimal.D6 u => 54%Z :: uint_digits u | Decimal.D7 u => 55%Z :: uint_digits u
  | Decimal.D8 u => 56%Z :: uint_digits u | Decimal.D9 u => 57%Z :: uint_digits u
  end.

(** A non-negative integer in a template literal: its decimal digits. *)
Definition show_nat (n : nat) : jstring := uint_digits (N.to_uint (N.of_nat n)).

(** ** [parseInt] *)

(** The value of a code unit as a digit of base 36 at most. *)
Definition digit_value (x : Z) : option Z :=
  if is_digit x then Some (x - 48)%Z
  else if (97 <=? x)%Z && (x <=? 122)%Z then Some (x - 87)%Z
  else if (65 <=? x)%Z && (x <=? 90)%Z then Some (x - 55)%Z
  else None.

Definition is_radix_digit (R x : Z) : bool :=
  match digit_value x with Some d => (d <? R)%Z | None => false end.

(** The longest prefix of digits of base [R]. *)
Fixpoint radix_run (R : Z) (s : jstring) : jstring :=
  match s with
  | x :: s' => if is_radix_digit R x then x :: radix_run R s' else []
  | [] => []
  end.

(** The integer a run of digits of base [R] denotes, read from the left. *)
Definition radix_value (R acc : Z) (ds : jstring) : Z :=
  fold_left (fun a x => a * R + default 0 (digit_value x))%Z ds acc.

Fixpoint trim_start (s : jstring) : jstring :=
  match s with x :: s' => if is_space x then trim_start s' else s | [] => [] end.

(** Steps 4-5 of the algorithm: the sign. *)
Definition parse_sign (s : jstring) : Z * jstring :=
  match s with
  | x :: s' => if (x =? 45)%Z then (-1, s')%Z else if (x =? 43)%Z then (1, s')%Z else (1, s)%Z
  | [] => (1, s)%Z
  end.

(** Steps 10-11: the prefix [0x] or [0X] selects base 16. *)
Definition parse_radix (s : jstring) : Z * jstring :=
  match s with
  | x :: y :: s' => if (x =? 48)%Z && ((y =? 120)%Z || (y =? 88)%Z) then (16, s')%Z else (10, s)%Z
  | _ => (10, s)%Z
  end.

Definition parseInt (s : jstring) : option Z :=
  let '(sign, s1) := parse_sign (trim_start s) in
  let '(R, s2) := parse_radix s1 in
  match radix_run R s2 with
  | [] => None
  | ds => Some (sign * radix_value R 0 ds)%Z
  end.

(** [parseInt(req.query.limit)]: an absent parameter is [undefined],
    whose text ["undefined"] has no digits. *)
Definition parseInt_query (q : option jstring) : option Z :=
  match q with Some s => parseInt s | None => None end.

(** ** Lemmas *)

Lemma radix_value_app R acc l1 l2 :
  radix_value R acc (l1 ++ l2) = radix_value R (radix_value R acc l1) l2.
Proof. apply fold_left_app. Qed.

(** The digits of [uint_digits] are decimal digits. *)
Lemma uint_digits_digits u : Forall (fun x => is_radix_digit 10 x = true) (uint_digits u).
Proof. induction u; constructor; done. Qed.

Lemma radix_run_digits R l post :
  Forall (fun x => is_radix_digit R x = true) l ->
  match post with x :: _ => is_radix_digit R x = false | [] => True end ->
  radix_run R (l ++ post) = l.
Proof.
  intros Hl Hp. induction Hl as [|x l Hx Hl IH]; cbn.
  - destruct post as [|x post]; [done|]. cbn. by rewrite Hp.
  - by rewrite Hx, IH.
Qed.

Lemma radix_value_cons R acc x l :
  radix_value R acc (x :: l) = radix_value R (acc * R + default 0 (digit_value x))%Z l.
Proof. reflexivity. Qed.

Ltac eval_digit :=
  rewrite radix_value_cons;
  match goal with |- context [digit_value ?d] =>
    let v := eval vm_compute in (digit_value d) in change (digit_value d) with v end;
  cbn [default id].

Lemma radix_value_uint_acc u acc :
  radix_value 10 (Z.pos acc) (uint_digits u) = Z.pos (Pos.of_uint_acc u acc).
Proof.
  revert acc; induction u; intros acc; cbn [uint_digits Pos.of_uint_acc]; [done|..];
    eval_digit; rewrite <- IHu; f_equal; lia.
Qed.

Lemma radix_value_uint u : radix_value 10 0 (uint_digits u) = Z.of_N (N.of_uint u).
Proof.
  induction u; cbn [uint_digits N.of_uint Pos.of_uint]; [done|eval_digit; exact IHu|..];
    eval_digit; apply radix_value_uint_acc.
Qed.

Lemma show_nat_value n : radix_value 10 0 (show_nat n) = Z.of_nat n.
Proof. unfold show_nat. by rewrite radix_value_uint, DecimalN.Unsigned.of_to, nat_N_Z. Qed.

Lemma show_nat_cons n : exists x s, show_nat n = x :: s /\ is_radix_digit 10 x = true.
Proof.
  unfold show_nat. pose proof (uint_digits_digits (N.to_uint (N.of_nat n))) as F.
  destruct (N.of_nat n) as [|p] eqn:E; [by eexists _, []|].
  destruct (uint_digits (N.to_uint (N.pos p))) as [|x s] eqn:D.
  - exfalso. enough (N.of_uint (N.to_uint (N.pos p)) = 0%N) by (rewrite DecimalN.Unsigned.of_to in *; lia).
    apply (f_equal (radix_value 10 0)) in D. rewrite radix_value_uint in D.
    unfold radix_value in D. cbn [fold_left] in D. lia.
  - apply Forall_cons in F as [Fx _]. eauto.
Qed.

Lemma trim_start_spaces pre s :
  Forall (fun x => is_space x = true) pre ->
  match s with x :: _ => is_space x = false | [] => True end ->
  trim_start (pre ++ s) = s.
Proof.
  induction 1 as [|x pre Hx _ IH]; cbn; [|by rewrite Hx].
  destruct s as [|x s]; [done|]. cbn. intros Hs. by rewrite Hs.
Qed.

Lemma decimal_digit_range x : is_radix_digit 10 x = true -> (48 <= x <= 57)%Z.
Proof.
  unfold is_radix_digit, digit_value, is_digit.
  repeat match goal with |- context [(?a <=? ?b)%Z] => destruct (Z.leb_spec a b) end;
    cbn; intros Hlt; try discriminate; apply Z.ltb_lt in Hlt; lia.
Qed.

Lemma not_digit_not_radix10 x : is_digit x = false -> is_radix_digit 10 x = false.
Proof.
  intros Hd. destruct (is_radix_digit 10 x) eqn:E; [|done].
  apply decimal_digit_range in E. unfold is_digit in Hd.
  rewrite andb_false_iff, !Z.leb_gt in Hd. lia.
Qed.

Lemma digit_not_space x : (48 <= x <= 57)%Z -> is_space x = false.
Proof.
  intros [H1 H2]. unfold is_space, is_line_terminator.
  repeat match goal with |- context [(?a =? ?b)%Z] => destruct (Z.eqb_spec a b); [lia|] end.
  destruct (Z.leb_spec 8192 x); [lia|]. reflexivity.
Qed.

(** The text of a number, followed by anything that is not a digit or a
    letter, is read back in base 10 with its digits. *)
Lemma parse_show_nat n post :
  match post with x :: _ => is_digit x = false /\ is_ascii_letter x = false | [] => True end ->
  parse_radix (show_nat n ++ post) = (10%Z, show_nat n ++ post) /\
  radix_run 10 (show_nat n ++ post) = show_nat n /\
  exists x s, show_nat n = x :: s /\ (48 <= x <= 57)%Z.
Proof.
  intros Hp. destruct (show_nat_cons n) as (x & s & Hs & Hx).
  pose proof (uint_digits_digits (N.to_uint (N.of_nat n))) as F. fold (show_nat n) in F.
  split_and!; [|apply radix_run_digits; [done|destruct post; [done|apply not_digit_not_radix10, (proj1 Hp)]]
              |exists x, s; split; [done|by apply decimal_digit_range]].
  rewrite Hs. cbn [app parse_radix]. rewrite Hs in F. apply Forall_cons in F as [_ F].
  destruct s as [|y s].
  - destruct post as [|y post]; [done|]. destruct Hp as [_ Hl]. cbn [app].
    assert (y <> 120 /\ y <> 88)%Z as [? ?]
      by (unfold is_ascii_letter in Hl; rewrite orb_false_iff, !andb_false_iff, !Z.leb_gt in Hl; lia).
    by rewrite (proj2 (Z.eqb_neq _ _) H), (proj2 (Z.eqb_neq _ _) H0), andb_false_r.
  - apply Forall_cons in F as [Fy _]. apply decimal_digit_range in Fy. cbn [app].
    by rewrite (proj2 (Z.eqb_neq y 120) ltac:(lia)), (proj2 (Z.eqb_neq y 88) ltac:(lia)), andb_false_r.
Qed.

Lemma parseInt_trim pre s :
  Forall (fun x => is_space x = true) pre ->
  match s with x :: _ => is_space x = false | [] => True end ->
  parseInt (pre ++ s) = parseInt s.
Proof.
  intros Hpre Hs. unfold parseInt. rewrite trim_start_spaces by done.
  assert (E : trim_start s = s) by (destruct s as [|x s]; [done|]; cbn; by rewrite Hs).
  by rewrite E.
Qed.

(** A minus sign before the text of a number. *)
Lemma parseInt_minus_show_nat n post :
  match post with x :: _ => is_digit x = false /\ is_ascii_letter x = false | [] => True end ->
  parseInt (js "-" ++ show_nat n ++ post) = Some (- Z.of_nat n)%Z.
Proof.
  intros Hpost. destruct (parse_show_nat n post Hpost) as (Hr & Hrun & x & s & Hs & Hx).
  change (js "-") with [45%Z]. unfold parseInt.
  change (trim_start ([45%Z] ++ show_nat n ++ post)) with (45%Z :: show_nat n ++ post).
  change (parse_sign (45%Z :: show_nat n ++ post)) with ((-1)%Z, show_nat n ++ post).
  cbv beta iota. rewrite Hr, Hrun, Hs.
  rewrite <- Hs, show_nat_value. f_equal; lia.
Qed.

(** ** Properties *)

(** [parseInt] reads back the decimal text of every non-negative
    integer, with or without a minus sign, after any leading white space
    and before any text that does not start with a digit or a letter:
    printing and parsing are inverse. *)
Theorem parseInt_show_nat n pre post :
  Forall (fun x => is_space x = true) pre ->
  match post with x :: _ => is_digit x = false /\ is_ascii_letter x = false | [] => True end ->
  parseInt (pre ++ show_nat n ++ post) = Some (Z.of_nat n) /\
  parseInt (pre ++ js "-" ++ show_nat n ++ post) = Some (- Z.of_nat n)%Z.
Proof.
  intros Hpre Hpost. destruct (parse_show_nat n post Hpost) as (Hr & Hrun & x & s & Hs & Hx).
  split; [|rewrite parseInt_trim by done; by apply parseInt_minus_show_nat].
  assert (Hsp : is_space x = false) by (by apply digit_not_space).
  rewrite parseInt_trim by (try done; by rewrite Hs). unfold parseInt.
  rewrite Hs. cbn [trim_start app]. rewrite Hsp. cbn [parse_sign].
  rewrite (proj2 (Z.eqb_neq x 45) ltac:(lia)), (proj2 (Z.eqb_neq x 43) ltac:(lia)).
  change (x :: s ++ post) with ((x :: s) ++ post). rewrite <- Hs, Hr, Hrun, Hs.
  rewrite <- Hs, show_nat_value. f_equal; lia.
Qed.

(** The text [" 42 items"]. *)
Lemma parseInt_show_nat_witness :
  Forall (fun x => is_space x = true) [32%Z] /\ parseInt ([32%Z] ++ show_nat 42 ++ js " items") = Some 42%Z.
Proof.
  split; [repeat constructor|].
  exact (proj1 (parseInt_show_nat 42 [32%Z] (js " items") ltac:(repeat constructor) (conj eq_refl eq_refl))).
Defined.
