(* ===== verification/Extractor.v ===== *)
(** * Extractor: [extractDestinations]

    Models [destinationMap] (src/flight-monitor-server.js, lines 95-137)
    and [extractDestinations] (lines 200-269): the trigger-phrase pass
    over the names of the table, with its three windowed searches for a
    price, a departure date and a return date, and the hyperlink pass that
    adds a name seen only in the text of a flight link.  The count of
    destination images (lines 260-266) only writes to the console and is
    not modelled; [baseUrl] is unused by the code. *)

From S2P Require Import Prelude JsRegex.

Module Extractor.

(** ** The translation table, in the order of [Object.keys] *)

Definition destinationMap : list (jstring * jstring) := [
  (js "אילת", js "Eilat"); (js "כרתים", js "Crete"); (js "אתונה", js "Athens");
  (js "רודוס", js "Rhodes"); (js "סלוניקי", js "Thessaloniki");
  (js "לרנקה", js "Larnaca"); (js "בודפשט", js "Budapest"); (js "פראג", js "Prague");
  (js "ברלין", js "Berlin"); (js "רומא", js "Rome"); (js "מילאנו", js "Milan");
  (js "ברצלונה", js "Barcelona"); (js "מדריד", js "Madrid"); (js "לונדון", js "London");
  (js "פריז", js "Paris"); (js "אמסטרדם", js "Amsterdam"); (js "ניו יורק", js "New York");
  (js "לוס אנג'לס", js "Los Angeles"); (js "מיאמי", js "Miami");
  (js "טורונטו", js "Toronto"); (js "קלמטה", js "Kalamata"); (js "מיקונוס", js "Mykonos");
  (js "זנזיבר", js "Zanzibar"); (js "קורפו", js "Corfu"); (js "פרבזה", js "Preveza");
  (js "טיראנה", js "Tirana"); (js "בטומי", js "Batumi"); (js "טביליסי", js "Tbilisi");
  (js "חלקידיקי", js "Halkidiki"); (js "לפקדה", js "Lefkada"); (js "קוס", js "Kos");
  (js "בודווה", js "Budva"); (js "טיווט", js "Tivat"); (js "קוטור", js "Kotor");
  (js "בלגרד", js "Belgrade"); (js "סרי לנקה-קולומבו", js "Colombo");
  (js "איה נאפה", js "Ayia Napa"); (js "לימסול", js "Limassol"); (js "זאדאר", js "Zadar");
  (js "טרוגיר", js "Trogir"); (js "ספליט", js "Split")
].

(** [Object.keys(destinationMap)] (line 204). *)
Definition hebrewDestinations : list jstring := map fst destinationMap.

(** [destinationMap[hebrew]]; every key of the table is found. *)
Fixpoint lookup_name (tbl : list (jstring * jstring)) (k : jstring) : option jstring :=
  match tbl with
  | [] => None
  | (k', v) :: tbl' => if bool_decide (k' = k) then Some v else lookup_name tbl' k
  end.

(** ** Destination records *)

(** The trigger pass builds objects without a [source] field; the link
    pass sets [source: 'link']. *)
Inductive dest_source := SourceAbsent | SourceLink.

Record destination := {
  hebrewName : jstring;
  englishName : jstring;
  price : jstring;
  departureDate : jstring;
  returnDate : jstring;
  occurrences : nat;
  found : bool;
  source : dest_source
}.

Definition NA : jstring := js "N/A".
Arguments NA : simpl never.

(** ** The patterns *)

Definition flight_prefix : jstring := js "טיסה ל".
Arguments flight_prefix : simpl never.

(** [[\s\S]], [\d], [[₪$€]], [[א-ת]], [[^>]], and the class of the two
    quote characters with its negation *)
Definition any_unit : atom := AClass {| cc_negated := false; cc_items := [CSpace; CNotSpace] |}.
Definition digit : atom := AClass {| cc_negated := false; cc_items := [CDigit] |}.
Definition currency : atom :=
  AClass {| cc_negated := false; cc_items := [CRange 8362 8362; CRange 36 36; CRange 8364 8364] |}.
Definition hebrew_letter : atom := AClass {| cc_negated := false; cc_items := [CRange 1488 1514] |}.
Definition not_gt : atom := AClass {| cc_negated := true; cc_items := [CRange 62 62] |}.
Definition quote : atom := AClass {| cc_negated := false; cc_items := [CRange 34 34; CRange 39 39] |}.
Definition not_quote : atom := AClass {| cc_negated := true; cc_items := [CRange 34 34; CRange 39 39] |}.

Definition seqs (rs : list regex) : regex := fold_right RSeq REmpty rs.

(** [`טיסה ל${hebrew}`], flag [g] (line 208). *)
Definition flightPattern (hebrew : jstring) : jsregex :=
  {| re_source := lit (flight_prefix ++ hebrew); re_ignore_case := false; re_global := true |}.

(** The lazy window [[\s\S]{0,200}?] after the trigger phrase. *)
Definition window : regex := RRep false 0 (Some 200) any_unit.

(** [\d{2}\/\d{2}] *)
Definition ddmm : regex :=
  seqs [RRep true 2 (Some 2) digit; RAtom (AChar 47); RRep true 2 (Some 2) digit].

(** [יום [א-ת]' ] *)
Definition weekday : regex := seqs [lit (js "יום "); RAtom hebrew_letter; lit (js "' ")].

(** [`טיסה ל${hebrew}[\s\S]{0,200}?([₪$€]\d+)`] (line 213). *)
Definition contextPattern (hebrew : jstring) : jsregex :=
  {| re_source := seqs [lit (flight_prefix ++ hebrew); window;
                        RGroup 1 (seqs [RAtom currency; RRep true 1 None digit])];
     re_ignore_case := false; re_global := true |}.

(** [`טיסה ל${hebrew}[\s\S]{0,200}?יום [א-ת]' (\d{2}\/\d{2})`] (line 217). *)
Definition datePattern (hebrew : jstring) : jsregex :=
  {| re_source := seqs [lit (flight_prefix ++ hebrew); window; weekday; RGroup 1 ddmm];
     re_ignore_case := false; re_global := true |}.

(** [`...יום [א-ת]' \d{2}\/\d{2} - יום [א-ת]' (\d{2}\/\d{2})`] (line 221). *)
Definition returnDatePattern (hebrew : jstring) : jsregex :=
  {| re_source := seqs [lit (flight_prefix ++ hebrew); window; weekday; ddmm;
                        lit (js " - "); weekday; RGroup 1 ddmm];
     re_ignore_case := false; re_global := true |}.

(** The link pattern of line 237 with flags [gi], spaced out here:
    [<a [^>]* href= [Q'] ( [^Q']* (?:flight|טיסה|destination) [^Q']* ) [Q'] [^>]* > ( .*? ) <\/a>],
    where Q stands for the double quote. *)
Definition linkPattern : jsregex :=
  {| re_source :=
       seqs [lit (js "<a"); RRep true 0 None not_gt; lit (js "href="); RAtom quote;
             RGroup 1 (seqs [RRep true 0 None not_quote;
                             RAlt (lit (js "flight")) (RAlt (lit (js "טיסה")) (lit (js "destination")));
                             RRep true 0 None not_quote]);
             RAtom quote; RRep true 0 None not_gt; RAtom (AChar 62);
             RGroup 2 (RRep false 0 None ADot); lit (js "</a>")];
     re_ignore_case := true; re_global := true |}.

(** [m ? m[1] : 'N/A'] for one of the three windowed searches; group 1
    lies on every path of these patterns, so a match always has it. *)
Definition capture_or_na (re : jsregex) (html : jstring) : jstring :=
  match exec re html with
  | Some r => match cap_lookup 1 (mr_caps r) with Some v => v | None => NA end
  | None => NA
  end.

(** [destinations.find(d => d.hebrewName === hebrew)] is truthy. *)
Definition has_name (dests : list destination) (hebrew : jstring) : bool :=
  existsb (fun d => bool_decide (hebrewName d = hebrew)) dests.

Definition link_text (r : match_result) : jstring := default [] (cap_lookup 2 (mr_caps r)).

(** The matches of the [while (exec ...)] loop; the fuel [length html + 1]
    is never exhausted (see the termination theorem below). *)
Definition link_matches (html : jstring) : list match_result :=
  default [] (exec_loop (S (length html)) linkPattern html).

Definition names (ds : list destination) : list jstring := map hebrewName ds.

(** ** The extraction, over a translation table

    The function reads the table [destinationMap] through [Object.keys]
    and [destinationMap[hebrew]]; it is written here over a table [tbl],
    so that the proofs treat the table as a parameter and do not unfold
    its 41 entries, and [extractDestinations] applies it to
    [destinationMap]. *)

Section WithTable.

Variable tbl : list (jstring * jstring).

(** *** The trigger-phrase pass (lines 206-234) *)

Definition trigger_entry (html : jstring) (hebrew : jstring) : option destination :=
  match str_match (flightPattern hebrew) html with
  | Some matches =>
      if 0 <? length matches then
        Some {| hebrewName := hebrew;
                englishName := default [] (lookup_name tbl hebrew);
                price := capture_or_na (contextPattern hebrew) html;
                departureDate := capture_or_na (datePattern hebrew) html;
                returnDate := capture_or_na (returnDatePattern hebrew) html;
                occurrences := length matches;
                found := true;
                source := SourceAbsent |}
      else None
  | None => None
  end.

Definition trigger_pass (html : jstring) : list destination :=
  omap (trigger_entry html) (map fst tbl).

(** *** The hyperlink pass (lines 237-258) *)

Definition link_record (hebrew : jstring) : destination :=
  {| hebrewName := hebrew;
     englishName := default [] (lookup_name tbl hebrew);
     price := NA; departureDate := NA; returnDate := NA;
     occurrences := 1; found := true; source := SourceLink |}.

Definition link_step (linkText : jstring) (dests : list destination) (hebrew : jstring)
    : list destination :=
  if includes linkText hebrew && negb (has_name dests hebrew)
  then dests ++ [link_record hebrew] else dests.

Definition link_pass_one (dests : list destination) (r : match_result) : list destination :=
  fold_left (link_step (link_text r)) (map fst tbl) dests.

Definition extract_with (html : jstring) : list destination :=
  fold_left link_pass_one (link_matches html) (trigger_pass html).

End WithTable.

Definition extractDestinations (html : jstring) : list destination :=
  extract_with destinationMap html.

(** The page of the end-to-end example of the specification: the trigger
    phrase twice for Eilat with a price [₪300] in the window, once for
    Crete with no price. *)
Definition spec_page : jstring :=
  js "<p>טיסה לאילת ב-₪300</p><p>טיסה לאילת</p><p>טיסה לכרתים</p>".

(** ** Lemmas over any table *)

Lemma lookup_name_in tbl h :
  h ∈ map fst tbl -> (h, default [] (lookup_name tbl h)) ∈ tbl.
Proof.
  induction tbl as [|[k v] tbl IH]; simpl; intros Hin; [by apply not_elem_of_nil in Hin|].
  case_bool_decide as Hk; [subst; left|].
  apply elem_of_cons in Hin as [->|Hin]; [done|]. right. by apply IH.
Qed.

Lemma has_name_spec ds h : has_name ds h = true <-> h ∈ names ds.
Proof.
  unfold has_name, names. rewrite existsb_exists, list_elem_of_fmap.
  split.
  - intros (d & Hd & Hb). apply bool_decide_eq_true in Hb. exists d.
    split; [done|]. by apply list_elem_of_In.
  - intros (d & -> & Hd). exists d. split; [by apply list_elem_of_In|].
    by apply bool_decide_eq_true.
Qed.

Section Properties.

Variable tbl : list (jstring * jstring).

(** A record of the extraction: its names are an entry of the table, it
    was seen at least once, and [found] is set. *)
Definition dest_ok (d : destination) : Prop :=
  (hebrewName d, englishName d) ∈ tbl /\ 1 <= occurrences d /\ found d = true.

Lemma trigger_entry_some html h d :
  trigger_entry tbl html h = Some d ->
  hebrewName d = h /\ englishName d = default [] (lookup_name tbl h) /\
  1 <= occurrences d /\ found d = true /\ source d = SourceAbsent.
Proof.
  unfold trigger_entry. destruct (str_match _ _) as [l|] eqn:E; [|discriminate].
  destruct (0 <? length l) eqn:L; [|discriminate]. intros [= <-].
  apply Nat.ltb_lt in L. simpl. split_and!; auto; lia.
Qed.

Lemma trigger_entry_is_some html h :
  is_Some (trigger_entry tbl html h) <-> includes html (flight_prefix ++ h) = true.
Proof.
  rewrite <- (exec_lit_is_some (flightPattern h)) by done.
  unfold trigger_entry. destruct (str_match _ _) as [l|] eqn:E.
  - apply str_match_some_length in E as L. apply Nat.ltb_lt in L as ->.
    split; [|done]. intros _. destruct (exec (flightPattern h) html) eqn:Ex; [done|].
    apply str_match_none_iff in Ex. congruence.
  - apply str_match_none_iff in E. rewrite E. split; intros []; discriminate.
Qed.

Lemma trigger_pass_names html :
  names (trigger_pass tbl html) =
  filter (fun h => includes html (flight_prefix ++ h) = true) (map fst tbl).
Proof.
  apply map_omap_filter; [|apply trigger_entry_is_some].
  intros h d E. by destruct (trigger_entry_some _ _ _ E).
Qed.

Lemma trigger_pass_ok html : Forall dest_ok (trigger_pass tbl html).
Proof.
  apply Forall_forall. intros d Hd. apply list_elem_of_omap in Hd as (h & Hh & E).
  destruct (trigger_entry_some _ _ _ E) as (Hn & He & ? & ? & _).
  split; [|by split]. rewrite He, Hn. by apply lookup_name_in.
Qed.

Lemma link_step_cases t ds h :
  link_step tbl t ds h = ds \/
  (link_step tbl t ds h = ds ++ [link_record tbl h] /\ includes t h = true /\ h ∉ names ds).
Proof.
  unfold link_step. destruct (includes t h) eqn:I, (has_name ds h) eqn:Hn; simpl; auto.
  right. split_and!; [done|done|]. rewrite <- has_name_spec. congruence.
Qed.

Lemma link_step_names t ds h x :
  x ∈ names (link_step tbl t ds h) <-> x ∈ names ds \/ (x = h /\ includes t h = true).
Proof.
  unfold link_step. destruct (includes t h) eqn:I, (has_name ds h) eqn:Hn; simpl.
  - split; [auto|]. intros [?|[-> _]]; [done|]. by apply has_name_spec.
  - unfold names. rewrite map_app, elem_of_app. simpl. rewrite list_elem_of_singleton.
    naive_solver.
  - naive_solver.
  - naive_solver.
Qed.

Lemma fold_link_step_names t hs ds x :
  x ∈ names (fold_left (link_step tbl t) hs ds) <->
  x ∈ names ds \/ (x ∈ hs /\ includes t x = true).
Proof.
  revert ds; induction hs as [|h hs IH]; intros ds; simpl.
  - split; [auto|]. intros [?|[Hx _]]; [done|by apply not_elem_of_nil in Hx].
  - rewrite IH, link_step_names, elem_of_cons. naive_solver.
Qed.

Lemma fold_link_pass_names rs ds x :
  x ∈ names (fold_left (link_pass_one tbl) rs ds) <->
  x ∈ names ds \/
  (x ∈ map fst tbl /\ exists r, r ∈ rs /\ includes (link_text r) x = true).
Proof.
  revert ds; induction rs as [|r rs IH]; intros ds; simpl.
  - split; [auto|]. intros [?|(_ & r & Hr & _)]; [done|by apply not_elem_of_nil in Hr].
  - rewrite IH. unfold link_pass_one. rewrite fold_link_step_names.
    setoid_rewrite elem_of_cons. naive_solver.
Qed.

Lemma link_step_nodup t ds h : NoDup (names ds) -> NoDup (names (link_step tbl t ds h)).
Proof.
  intros Hnd. destruct (link_step_cases t ds h) as [->|(-> & _ & Hnot)]; [done|].
  unfold names in *. rewrite map_app. apply NoDup_app. split_and!; [done| |].
  - intros x Hx Hy. apply list_elem_of_singleton in Hy as ->. simpl in *. done.
  - apply NoDup_singleton.
Qed.

Lemma link_step_ok t ds h :
  h ∈ map fst tbl -> Forall dest_ok ds -> Forall dest_ok (link_step tbl t ds h).
Proof.
  intros Hh Hds. destruct (link_step_cases t ds h) as [->|(-> & _ & _)]; [done|].
  apply Forall_app. split; [done|]. apply Forall_singleton.
  split; [|by split]. by apply lookup_name_in.
Qed.

(** The link pass only appends records, each for a name of the table. *)
Lemma link_pass_preserves (P : list destination -> Prop) html :
  P (trigger_pass tbl html) ->
  (forall ds t h, h ∈ map fst tbl -> P ds -> P (link_step tbl t ds h)) ->
  P (extract_with tbl html).
Proof.
  intros H0 Hstep. unfold extract_with.
  apply fold_left_invariant; [done|]. intros ds r _ Hds. unfold link_pass_one.
  apply fold_left_invariant; [done|]. intros ds' h Hh. by apply Hstep.
Qed.

Lemma extract_with_split html :
  exists extra, extract_with tbl html = trigger_pass tbl html ++ extra /\
                Forall (fun d => source d = SourceLink) extra.
Proof.
  apply link_pass_preserves.
  - exists []. by rewrite app_nil_r.
  - intros ds t h _ (extra & -> & Hex).
    destruct (link_step_cases t (trigger_pass tbl html ++ extra) h)
      as [->|(-> & _ & _)]; [eauto|].
    exists (extra ++ [link_record tbl h]). rewrite app_assoc. split; [done|].
    apply Forall_app. split; [done|]. by apply Forall_singleton.
Qed.

Lemma extract_with_ok html : Forall dest_ok (extract_with tbl html).
Proof.
  apply link_pass_preserves; [apply trigger_pass_ok|]. intros. by apply link_step_ok.
Qed.

Lemma extract_with_names html h :
  h ∈ names (extract_with tbl html) <->
  h ∈ map fst tbl /\
  (includes html (flight_prefix ++ h) = true \/
   exists r, r ∈ link_matches html /\ includes (link_text r) h = true).
Proof.
  unfold extract_with. rewrite fold_link_pass_names, trigger_pass_names,
    list_elem_of_filter. naive_solver.
Qed.

Hypothesis keys_nodup : NoDup (map fst tbl).
Hypothesis values_nodup : NoDup (map snd tbl).

Lemma extract_with_nodup html : NoDup (names (extract_with tbl html)).
Proof.
  apply link_pass_preserves; [|intros; by apply link_step_nodup].
  rewrite trigger_pass_names. by apply NoDup_filter.
Qed.

Lemma table_value_inj h1 h2 e : (h1, e) ∈ tbl -> (h2, e) ∈ tbl -> h1 = h2.
Proof.
  intros H1 H2. apply list_elem_of_lookup in H1 as [i Hi], H2 as [j Hj].
  assert (i = j) as ->.
  { eapply NoDup_lookup; [exact values_nodup| |];
      rewrite list_lookup_fmap; [rewrite Hi|rewrite Hj]; done. }
  congruence.
Qed.

Lemma extract_with_english_nodup html : NoDup (map englishName (extract_with tbl html)).
Proof.
  apply (NoDup_map_inj_on hebrewName); [apply extract_with_nodup|].
  pose proof (extract_with_ok html) as Hok. rewrite Forall_forall in Hok.
  intros x y Hx Hy He. destruct (Hok x Hx) as [Hx' _], (Hok y Hy) as [Hy' _].
  rewrite He in Hx'. exact (table_value_inj _ _ _ Hx' Hy').
Qed.

Lemma extract_with_trigger_kept html h d :
  h ∈ map fst tbl -> trigger_entry tbl html h = Some d ->
  filter (fun d' => hebrewName d' = h) (extract_with tbl html) = [d].
Proof.
  intros Hh E. destruct (trigger_entry_some _ _ _ E) as (<- & _).
  apply filter_key_single; [apply extract_with_nodup|].
  destruct (extract_with_split html) as (extra & -> & _).
  apply elem_of_app. left. apply list_elem_of_omap. eauto.
Qed.

End Properties.

(** ** The extraction over [destinationMap] *)

Lemma hebrewDestinations_nodup : NoDup hebrewDestinations.
Proof. apply (bool_decide_unpack _). vm_compute. reflexivity. Qed.

Lemma englishNames_nodup : NoDup (map snd destinationMap).
Proof. apply (bool_decide_unpack _). vm_compute. reflexivity. Qed.

(** The interface the pipeline relies on (see [Pipeline.ExtractionStrategy]). *)
Lemma extractDestinations_english_nodup html :
  NoDup (map englishName (extractDestinations html)).
Proof.
  apply extract_with_english_nodup; [apply hebrewDestinations_nodup|apply englishNames_nodup].
Qed.

(** C14: Every record [extractDestinations] returns names an entry of the
    translation table (its Hebrew key with its English translation), has
    [occurrences] at least 1 and [found] set. *)
Theorem extract_records_in_table html :
  Forall (dest_ok destinationMap) (extractDestinations html).
Proof. apply extract_with_ok. Qed.

(** C15: No destination is reported twice: the Hebrew names of the result
    are distinct, and so are its English names, the identity the change
    detection uses. *)
Theorem extract_names_unique html :
  NoDup (names (extractDestinations html)) /\
  NoDup (map englishName (extractDestinations html)).
Proof.
  split; [apply extract_with_nodup, hebrewDestinations_nodup|].
  apply extract_with_english_nodup; [apply hebrewDestinations_nodup|apply englishNames_nodup].
Qed.

(** C16: A name of the table is reported exactly when the page contains
    the trigger phrase [טיסה ל] followed by it, or the text of a flight
    link contains it. *)
Theorem extract_names_iff html h :
  h ∈ names (extractDestinations html) <->
  h ∈ hebrewDestinations /\
  (includes html (flight_prefix ++ h) = true \/
   exists r, r ∈ link_matches html /\ includes (link_text r) h = true).
Proof. apply extract_with_names. Qed.

(** C17: A name found by the trigger-phrase pass appears exactly once in
    the result, as the record of that pass (the hyperlink pass never
    duplicates it nor replaces its price and dates). *)
Theorem extract_trigger_kept html h d :
  h ∈ hebrewDestinations -> trigger_entry destinationMap html h = Some d ->
  filter (fun d' => hebrewName d' = h) (extractDestinations html) = [d].
Proof. apply extract_with_trigger_kept, hebrewDestinations_nodup. Qed.

(** C18: The [while ((linkMatch = linkPattern.exec(html)) !== null)] loop
    terminates on every page: the link pattern never matches the empty
    string, so [length html + 1] iterations are enough. *)
Theorem link_loop_terminates html :
  exists l, exec_loop (S (length html)) linkPattern html = Some l.
Proof. apply exec_loop_total. vm_compute. lia. Qed.

(** ** Witnesses on concrete pages *)

Lemma extract_trigger_kept_witness :
  js "אילת" ∈ hebrewDestinations /\
  exists d, trigger_entry destinationMap spec_page (js "אילת") = Some d /\
    filter (fun d' => hebrewName d' = js "אילת") (extractDestinations spec_page) = [d].
Proof.
  assert (Hin : js "אילת" ∈ hebrewDestinations)
    by (apply (bool_decide_unpack _); vm_compute; reflexivity).
  split; [exact Hin|]. eexists. split; [vm_compute; reflexivity|].
  apply (extract_trigger_kept spec_page (js "אילת")); [exact Hin|vm_compute; reflexivity].
Defined.

(** The result is not in the order of the table when the hyperlink
    pass finds a name: link records come after all trigger-pass records.
    On a page with the trigger phrase for Crete and a flight link naming
    Eilat, the result is [Crete; Eilat] although Eilat comes first in
    [destinationMap]. *)
Theorem extract_link_after_trigger :
  map englishName (extractDestinations
    (js "<p>טיסה לכרתים</p><a href='/flight/1'>אילת</a>")) = [js "Crete"; js "Eilat"].
Proof. vm_compute. reflexivity. Qed.

End Extractor.
