(* ===== verification/DiffEngine.v ===== *)
(** * DiffEngine: [detectChanges]

    Models [detectChanges] (src/flight-monitor-server.js, lines 272-299).
    The source reads the previous snapshot from the global
    [lastDestinations]; here it is an argument, and the pipeline
    ([Pipeline.v]) passes the global state's field.  The result is the
    list of rendered change strings, in the order of the code: additions,
    then removals, then price changes. *)

From S2P Require Import Prelude JsRegex Extractor.
Import Extractor.

Module DiffEngine.

(** ** The three kinds of change and their rendering *)

Definition added_msg (name : jstring) : jstring := js "+ Added: " ++ name.
Definition removed_msg (name : jstring) : jstring := js "- Removed: " ++ name.
Definition price_msg (name old new : jstring) : jstring :=
  js "💰 " ++ name ++ js ": " ++ old ++ js " → " ++ new.

(** [lastDestinations.find(d => d.englishName === name)] *)
Fixpoint find_dest (ds : list destination) (name : jstring) : option destination :=
  match ds with
  | [] => None
  | d :: ds' => if bool_decide (englishName d = name) then Some d else find_dest ds' name
  end.

(** [newNames.filter(name => !oldNames.includes(name))] (lines 279 and 285) *)
Definition absent_from (names others : list jstring) : list jstring :=
  filter (fun name => name ∉ others) names.

(** The test of line 293 for one new destination. *)
Definition price_change (lastDestinations : list destination) (newDest : destination)
    : option jstring :=
  match find_dest lastDestinations (englishName newDest) with
  | Some oldDest =>
      if bool_decide (price oldDest <> price newDest) && bool_decide (price newDest <> NA)
         && bool_decide (price oldDest <> NA)
      then Some (price_msg (englishName newDest) (price oldDest) (price newDest))
      else None
  | None => None
  end.

Definition detectChanges (newDestinations lastDestinations : list destination)
    : list jstring :=
  let newNames := map englishName newDestinations in
  let oldNames := map englishName lastDestinations in
  map added_msg (absent_from newNames oldNames) ++
  map removed_msg (absent_from oldNames newNames) ++
  omap (price_change lastDestinations) newDestinations.


(** ** The examples of the specification *)

Definition mk_dest (name p : jstring) : destination :=
  {| hebrewName := []; englishName := name; price := p; departureDate := NA;
     returnDate := NA; occurrences := 1; found := true; source := SourceAbsent |}.

(** ** Properties *)

Lemma absent_from_nil l : absent_from l [] = l.
Proof.
  unfold absent_from. induction l as [|x l IH]; [done|].
  rewrite filter_cons, decide_True by apply not_elem_of_nil. by rewrite IH.
Qed.

Lemma absent_from_nil_l l : absent_from [] l = [].
Proof. apply filter_nil. Qed.

Lemma absent_from_self l : absent_from l l = [].
Proof. apply filter_all_false. intros z Hz Hn. by apply Hn. Qed.

Lemma omap_none {A B} (f : A -> option B) (l : list A) :
  (forall x, x ∈ l -> f x = None) -> omap f l = [].
Proof.
  induction l as [|x l IH]; intros Hnone; [done|]. simpl.
  rewrite (Hnone x) by by left. apply IH. intros y Hy. apply Hnone. by right.
Qed.

Lemma find_dest_some ds name d :
  find_dest ds name = Some d -> d ∈ ds /\ englishName d = name.
Proof.
  induction ds as [|d' ds IH]; simpl; [discriminate|].
  case_bool_decide; [intros [= <-]; split; [left|done]|].
  intros Hf. destruct (IH Hf). split; [by right|done].
Qed.

Lemma find_dest_member ds d :
  NoDup (map englishName ds) -> d ∈ ds -> find_dest ds (englishName d) = Some d.
Proof.
  induction ds as [|d' ds IH]; intros Hnd Hd; [by apply not_elem_of_nil in Hd|].
  simpl in *. apply NoDup_cons in Hnd as [Hnot Hnd].
  apply elem_of_cons in Hd as [->|Hd]; [by rewrite bool_decide_true|].
  rewrite bool_decide_false; [by apply IH|].
  intros Heq. apply Hnot. rewrite Heq. apply list_elem_of_fmap. eauto.
Qed.


(** Against an empty previous snapshot every destination is reported
    as added, once, in order; against an empty new list every previous
    destination is reported as removed. *)
Theorem detectChanges_from_empty ds :
  detectChanges ds [] = map added_msg (map englishName ds) /\
  detectChanges [] ds = map removed_msg (map englishName ds).
Proof.
  unfold detectChanges. split.
  - rewrite absent_from_nil, absent_from_nil_l, (omap_none _ ds) by done.
    by rewrite !app_nil_r.
  - rewrite absent_from_nil, absent_from_nil_l. simpl. by rewrite app_nil_r.
Qed.

Lemma detectChanges_self ds :
  NoDup (map englishName ds) -> detectChanges ds ds = [].
Proof.
  intros Hnd. unfold detectChanges. rewrite absent_from_self. simpl.
  apply omap_none. intros d Hd. unfold price_change.
  rewrite (find_dest_member _ _ Hnd Hd), (bool_decide_false (price d <> price d)); [done|].
  intros Hne. by apply Hne.
Qed.


Lemma omap_nil_iff {A B} (f : A -> option B) (l : list A) :
  omap f l = [] <-> forall x, x ∈ l -> f x = None.
Proof.
  split; [|apply omap_none]. induction l as [|x l IH]; cbn; intros Hl y Hy.
  - by apply elem_of_nil in Hy.
  - destruct (f x) eqn:E; [discriminate|].
    apply elem_of_cons in Hy as [->|Hy]; [done|by apply IH].
Qed.

(** [price_change] is silent exactly when the old record of the name, if
    any, has the same price or one of the two prices is [N/A]. *)
Lemma price_change_none lastD nd :
  price_change lastD nd = None <->
  forall od, find_dest lastD (englishName nd) = Some od ->
    price od = price nd \/ price nd = NA \/ price od = NA.
Proof.
  unfold price_change. destruct (find_dest lastD (englishName nd)) as [od|].
  - split.
    + intros Hn od' [= <-]. repeat case_bool_decide; naive_solver.
    + intros Hod. specialize (Hod od eq_refl). repeat case_bool_decide; naive_solver.
  - split; [|done]. by intros _ ? ?.
Qed.

(** C22: Comparing a snapshot with itself reports no change exactly when
    every record's price agrees with that of the first record of its
    name (or one of the two is [N/A]); in particular a snapshot whose
    English names are distinct, as every extraction's are, compared with
    itself reports no change.  Additions and removals never appear. *)
Theorem detectChanges_same ds :
  (detectChanges ds ds = [] <->
   forall d d', d ∈ ds -> find_dest ds (englishName d) = Some d' ->
     price d' = price d \/ price d = NA \/ price d' = NA) /\
  (NoDup (map englishName ds) -> detectChanges ds ds = []).
Proof.
  split; [|apply detectChanges_self].
  unfold detectChanges. rewrite absent_from_self. cbn [map app]. rewrite omap_nil_iff.
  setoid_rewrite price_change_none. naive_solver.
Qed.

Lemma price_change_some lastD nd c :
  price_change lastD nd = Some c -> exists n o p, c = price_msg n o p.
Proof.
  unfold price_change. destruct (find_dest lastD (englishName nd)); [|discriminate].
  case_match; [|discriminate]. intros [= <-]. eauto.
Qed.

(** The three renderings start differently ([+], [-], and the surrogate
    pair of the emoji), and each is injective in the name. *)
Lemma added_msg_inj a b : added_msg a = added_msg b -> a = b.
Proof. apply app_inv_head. Qed.

Lemma removed_msg_inj a b : removed_msg a = removed_msg b -> a = b.
Proof. apply app_inv_head. Qed.

Lemma added_not_removed a b : added_msg a <> removed_msg b.
Proof. by vm_compute. Qed.

Lemma added_not_price a n o p : added_msg a <> price_msg n o p.
Proof. by vm_compute. Qed.

Lemma removed_not_price a n o p : removed_msg a <> price_msg n o p.
Proof. by vm_compute. Qed.

Lemma elem_of_absent_from x l1 l2 : x ∈ absent_from l1 l2 <-> x ∈ l1 /\ x ∉ l2.
Proof. unfold absent_from. rewrite list_elem_of_filter. tauto. Qed.

(** C20: The change list reports a name as added exactly when it is a
    name of the new snapshot and not of the previous one, and as removed
    exactly when it is a name of the previous snapshot and not of the new
    one. *)
Theorem detectChanges_added_removed newD lastD name :
  (added_msg name ∈ detectChanges newD lastD <->
   name ∈ map englishName newD /\ name ∉ map englishName lastD) /\
  (removed_msg name ∈ detectChanges newD lastD <->
   name ∈ map englishName lastD /\ name ∉ map englishName newD).
Proof.
  unfold detectChanges. split; split.
  - rewrite !elem_of_app. intros [Hm|[Hm|Hp]].
    + apply list_elem_of_fmap in Hm as (n & Hn & Hin).
      apply added_msg_inj in Hn as ->. by apply elem_of_absent_from.
    + apply list_elem_of_fmap in Hm as (n & Hn & _). by apply added_not_removed in Hn.
    + apply list_elem_of_omap in Hp as (nd & _ & Hc). apply price_change_some in Hc
        as (? & ? & ? & Hc). by apply added_not_price in Hc.
  - intros H. apply elem_of_app. left. apply list_elem_of_fmap.
    exists name. split; [done|]. by apply elem_of_absent_from.
  - rewrite !elem_of_app. intros [Hm|[Hm|Hp]].
    + apply list_elem_of_fmap in Hm as (n & Hn & _).
      symmetry in Hn. by apply added_not_removed in Hn.
    + apply list_elem_of_fmap in Hm as (n & Hn & Hin).
      apply removed_msg_inj in Hn as ->. by apply elem_of_absent_from.
    + apply list_elem_of_omap in Hp as (nd & _ & Hc). apply price_change_some in Hc
        as (? & ? & ? & Hc). by apply removed_not_price in Hc.
  - intros H. rewrite !elem_of_app. right. left. apply list_elem_of_fmap.
    exists name. split; [done|]. by apply elem_of_absent_from.
Qed.


(** A price moving from [₪300] to [₪350] is reported as exactly one
    price change, and a destination that disappears as exactly one
    removal (the two examples of the specification). *)
Theorem detectChanges_spec_examples :
  detectChanges [mk_dest (js "Eilat") (js "₪350")] [mk_dest (js "Eilat") (js "₪300")]
    = [price_msg (js "Eilat") (js "₪300") (js "₪350")] /\
  detectChanges [mk_dest (js "Crete") (js "₪200")]
                [mk_dest (js "Eilat") (js "₪300"); mk_dest (js "Crete") (js "₪200")]
    = [removed_msg (js "Eilat")].
Proof. split; vm_compute; reflexivity. Qed.

(** Without distinct names the comparison of a list with itself is not
    empty: two records named Eilat with different prices produce a price
    change.  (The specification states the empty result for every list;
    the extractor never produces such a list, since its names are
    distinct.) *)
Theorem detectChanges_same_duplicates :
  let A := [mk_dest (js "Eilat") (js "₪300"); mk_dest (js "Eilat") (js "₪350")] in
  detectChanges A A = [price_msg (js "Eilat") (js "₪300") (js "₪350")].
Proof. vm_compute. reflexivity. Qed.

Lemma detectChanges_same_witness :
  let A := [mk_dest (js "Eilat") (js "₪300"); mk_dest (js "Crete") (js "₪200")] in
  NoDup (map englishName A) /\ detectChanges A A = [].
Proof.
  intros A. assert (H : NoDup (map englishName A)) by (apply (bool_decide_unpack _); vm_compute; reflexivity).
  split; [exact H|]. exact (proj2 (detectChanges_same A) H).
Defined.

End DiffEngine.
