(* ===== verification/HistoryStore.v ===== *)
(** * HistoryStore: the scan and SMS histories and the read endpoints

    Models the arrays [scanHistory] and [smsHistory]
    (src/flight-monitor-server.js, lines 141-143), their updates in
    [addScanResult] (lines 146-197) and in the error path of
    [scanWebsite] (lines 336-348), and the read endpoints [/api/history],
    [/api/destinations], [/api/changes] and [/api/sms/history]
    (lines 445-475, 528-536).  Both arrays grow at the head with
    [unshift]; the success path and the SMS path drop the tail with [pop]
    once the array is over its cap, the error path does not. *)

From S2P Require Import Prelude JsRegex JsNumber Extractor.
Import Extractor.

Module HistoryStore.

(** ** Records *)

(** The object built by [addScanResult] (lines 147-156) or by the error
    path (lines 336-345).  [Date.now()] and [new Date().toISOString()]
    are one reading [sr_time] of the clock in milliseconds.  The success
    object has [smsResult: null] and no [error]; the error object has an
    [error] and no [smsResult]. *)
Record scan_result := {
  sr_id : Z;
  sr_time : Z;
  sr_url : jstring;
  sr_destinations : list destination;
  sr_changes : list jstring;
  sr_totalDestinations : nat;
  sr_totalChanges : nat;
  sr_error : option jstring
}.

(** The record pushed to [smsHistory] (lines 180-185). *)
Record sms_record := {
  sms_time : Z;
  sms_changes : list jstring;
  sms_sid : jstring;
  sms_phone : option jstring
}.

Definition scan_cap : nat := 200.
Definition sms_cap : nat := 50.

(** ** Updates *)

(** [arr.unshift(x); if (arr.length > cap) arr.pop();] *)
Definition push_capped {A} (cap : nat) (x : A) (l : list A) : list A :=
  let l' := unshift x l in
  if cap <? length l' then pop l' else l'.

(** Lines 158-163. *)
Definition record_scan (r : scan_result) (h : list scan_result) : list scan_result :=
  push_capped scan_cap r h.

(** Line 347: the error result is inserted with no capacity check. *)
Definition record_error_scan (r : scan_result) (h : list scan_result) : list scan_result :=
  unshift r h.

(** Lines 180-190. *)
Definition record_sms (e : sms_record) (h : list sms_record) : list sms_record :=
  push_capped sms_cap e h.

(** ** Read endpoints *)

(** [parseInt(req.query.limit) || dflt]: [NaN] ([None], a missing or
    non-numeric parameter) and [0] are falsy. *)
Definition limit_or (q : option jstring) (dflt : Z) : Z :=
  match parseInt_query q with
  | Some n => if (n =? 0)%Z then dflt else n
  | None => dflt
  end.

(** [GET /api/history]: [history] and [total]. *)
Definition history_endpoint (q : option jstring) (h : list scan_result) : list scan_result * nat :=
  (slice0 h (limit_or q 50), length h).

(** [GET /api/changes]: scans with changes, then the limit. *)
Definition changes_endpoint (q : option jstring) (h : list scan_result) : list scan_result * nat :=
  let l := slice0 (filter (fun r => 0 < sr_totalChanges r) h) (limit_or q 20) in
  (l, length l).

(** [GET /api/destinations]: the latest scan's destinations, its time and
    its count, or [[]], [null] and [0] when there is no scan. *)
Definition destinations_endpoint (h : list scan_result)
    : list destination * option Z * nat :=
  match h with
  | latest :: _ => (sr_destinations latest, Some (sr_time latest), sr_totalDestinations latest)
  | [] => ([], None, 0)
  end.

(** [GET /api/sms/history]: the records, the total, [!!twilioClient] and
    [ALERT_PHONE_NUMBER], which the caller reads from the configuration. *)
Record sms_history_response := {
  smsh_records : list sms_record;
  smsh_total : nat;
  smsh_configured : bool;
  smsh_alertPhone : option jstring
}.

Definition sms_history_endpoint (q : option jstring) (h : list sms_record)
    (configured : bool) (alertPhone : option jstring) : sms_history_response :=
  {| smsh_records := slice0 h (limit_or q 20); smsh_total := length h;
     smsh_configured := configured; smsh_alertPhone := alertPhone |}.


(** ** Properties of the bounded arrays *)

Lemma push_capped_under {A} cap (x : A) l :
  length l < cap -> push_capped cap x l = x :: l.
Proof.
  intros H. unfold push_capped, unshift. simpl.
  destruct (Nat.ltb_spec cap (S (length l))); [lia|done].
Qed.

Lemma push_capped_full {A} cap (x : A) l :
  0 < cap -> cap <= length l -> push_capped cap x l = x :: removelast l.
Proof.
  intros Hc H. unfold push_capped, unshift, pop. simpl.
  destruct (Nat.ltb_spec cap (S (length l))); [|lia].
  destruct l as [|y l]; [simpl in H; lia|done].
Qed.

Lemma length_push_capped {A} cap (x : A) l :
  length (push_capped cap x l) = if cap <? S (length l) then length l else S (length l).
Proof.
  unfold push_capped. change (length (unshift x l)) with (S (length l)).
  destruct (cap <? S (length l)); [|done]. rewrite length_pop. simpl. lia.
Qed.

(** A capped array under its cap (and a positive cap) is the new element
    followed by the most recent [cap - 1] old ones: insertion at the head,
    eviction of the oldest. *)
Lemma push_capped_take {A} cap (x : A) l :
  0 < cap -> length l <= cap -> push_capped cap x l = x :: take (cap - 1) l.
Proof.
  intros Hc Hl. destruct (decide (length l < cap)).
  - rewrite push_capped_under by done. f_equal. symmetry. apply take_ge. lia.
  - rewrite push_capped_full by lia. f_equal.
    rewrite removelast_firstn_len. f_equal. lia.
Qed.

Lemma push_capped_bounded {A} cap (x : A) l :
  length l <= cap -> length (push_capped cap x l) <= cap.
Proof.
  intros Hl. rewrite length_push_capped. destruct (Nat.ltb_spec cap (S (length l))); lia.
Qed.

(** C10: The success path of [addScanResult] keeps [scanHistory] within its
    200 entries and [smsHistory] within its 50: each insertion puts the
    new record at the head and, when the array is full, evicts the oldest
    (the last) one. *)
Theorem record_scan_sms_fifo r h e hs :
  length h <= scan_cap -> length hs <= sms_cap ->
  record_scan r h = r :: take (scan_cap - 1) h /\ length (record_scan r h) <= scan_cap /\
  record_sms e hs = e :: take (sms_cap - 1) hs /\ length (record_sms e hs) <= sms_cap.
Proof.
  intros Hh Hs. unfold record_scan, record_sms.
  rewrite !push_capped_take by (unfold scan_cap, sms_cap in *; lia).
  simpl. rewrite !length_take. unfold scan_cap, sms_cap in *. split_and!; auto; lia.
Qed.

(** C9: The error path inserts with no capacity check, and once
    [scanHistory] is over 200 entries the success path never brings it
    back: [unshift] then a single [pop] keep the length. *)
Theorem scan_history_overflow_persists r h :
  length (record_error_scan r h) = S (length h) /\
  (scan_cap < length h -> length (record_scan r h) = length h).
Proof.
  split; [done|]. intros H. unfold record_scan. rewrite length_push_capped.
  destruct (Nat.ltb_spec scan_cap (S (length h))); lia.
Qed.

(** ** Properties of the read endpoints *)

Lemma slice0_nonneg {A} (l : list A) e : (0 <= e)%Z -> slice0 l e = take (Z.to_nat e) l.
Proof.
  intros He. unfold slice0. destruct (Z.ltb_spec e 0); [lia|].
  destruct (Z.le_ge_cases e (Z.of_nat (length l))).
  - by rewrite Z.min_l.
  - rewrite Z.min_r by lia. rewrite Nat2Z.id, take_ge by lia.
    rewrite take_ge; [done|lia].
Qed.

Lemma slice0_neg {A} (l : list A) e :
  (e < 0)%Z -> slice0 l e = take (length l - Z.to_nat (- e)) l.
Proof.
  intros He. unfold slice0. destruct (Z.ltb_spec e 0); [|lia]. f_equal. lia.
Qed.

(** C32: [GET /api/changes] answers with the scans of the history that
    reported changes, in its most-recent-first order, cut by
    [parseInt(limit) || 20] as [slice(0, limit)] cuts: a positive limit
    [n] keeps the first [n] of them, a missing, non-numeric or zero limit
    the first 20, and a negative limit [-k] all but the [k] oldest; its
    [total] is the number returned, not the number of scans with
    changes. *)
Theorem changes_endpoint_spec q h :
  let chg := filter (fun r => 0 < sr_totalChanges r) h in
  snd (changes_endpoint q h) = length (fst (changes_endpoint q h)) /\
  (forall n, parseInt_query q = Some n -> (0 < n)%Z ->
     fst (changes_endpoint q h) = take (Z.to_nat n) chg) /\
  (parseInt_query q = None \/ parseInt_query q = Some 0%Z -> fst (changes_endpoint q h) = take 20 chg) /\
  (forall k, parseInt_query q = Some (- Z.of_nat k)%Z -> 0 < k ->
     fst (changes_endpoint q h) = take (length chg - k) chg).
Proof.
  intros chg. unfold changes_endpoint, limit_or. fold chg. split_and!; [done| | |].
  - intros n -> Hn. destruct (Z.eqb_spec n 0); [lia|]. by rewrite slice0_nonneg by lia.
  - intros [E|E]; rewrite E; [|rewrite Z.eqb_refl]; by rewrite slice0_nonneg by lia.
  - intros k -> Hk. destruct (Z.eqb_spec (- Z.of_nat k) 0); [lia|].
    rewrite slice0_neg by lia. by rewrite Z.opp_involutive, Nat2Z.id.
Qed.

(** C30: The limit of [/api/history] follows [parseInt(limit) || 50] and
    [Array.prototype.slice]: a limit of [0], a missing one or one that does
    not parse returns the default 50 entries, [0x10] is read in base 16,
    and a negative limit [-k] returns all but the [k] oldest entries. *)
Theorem history_endpoint_limits h (k : nat) :
  fst (history_endpoint (Some (js "0")) h) = take 50 h /\
  fst (history_endpoint None h) = take 50 h /\
  fst (history_endpoint (Some (js "all")) h) = take 50 h /\
  fst (history_endpoint (Some (js "0x10")) h) = take 16 h /\
  (0 < k -> fst (history_endpoint (Some (js "-" ++ show_nat k)) h) = take (length h - k) h).
Proof.
  unfold history_endpoint, limit_or, parseInt_query.
  change (parseInt (js "0")) with (Some 0%Z). change (parseInt (js "all")) with (@None Z).
  change (parseInt (js "0x10")) with (Some 16%Z). cbn -[slice0 take js show_nat parseInt].
  rewrite !slice0_nonneg by lia. split_and!; [done..|].
  intros Hk. rewrite <- (app_nil_r (show_nat k)), parseInt_minus_show_nat by done.
  destruct (Z.eqb_spec (- Z.of_nat k) 0); [lia|].
  rewrite slice0_neg by lia. f_equal. lia.
Qed.

(** ** Witnesses *)

Lemma record_scan_sms_fifo_witness :
  let r := {| sr_id := 0; sr_time := 0; sr_url := []; sr_destinations := []; sr_changes := [];
              sr_totalDestinations := 0; sr_totalChanges := 0; sr_error := None |} in
  let e := {| sms_time := 0; sms_changes := []; sms_sid := []; sms_phone := None |} in
  length (repeat r 200) <= scan_cap /\ length (repeat e 50) <= sms_cap /\
  record_sms e (repeat e 50) = e :: repeat e 49.
Proof.
  intros r e.
  assert (H1 : length (repeat r 200) <= scan_cap) by (rewrite repeat_length; unfold scan_cap, sms_cap; lia).
  assert (H2 : length (repeat e 50) <= sms_cap) by (rewrite repeat_length; unfold scan_cap, sms_cap; lia).
  split_and!; [exact H1|exact H2|].
  rewrite (proj1 (proj2 (proj2 (record_scan_sms_fifo r _ e _ H1 H2)))).
  reflexivity.
Defined.

Lemma scan_history_overflow_persists_witness :
  let r := {| sr_id := 0; sr_time := 0; sr_url := []; sr_destinations := []; sr_changes := [];
              sr_totalDestinations := 0; sr_totalChanges := 0; sr_error := Some [] |} in
  scan_cap < length (repeat r 201) /\ length (record_scan r (repeat r 201)) = 201.
Proof.
  intros r. assert (H : scan_cap < length (repeat r 201)) by (rewrite repeat_length; unfold scan_cap, sms_cap; lia).
  split; [exact H|]. rewrite (proj2 (scan_history_overflow_persists r _) H).
  apply repeat_length.
Defined.

Lemma changes_endpoint_spec_witness :
  let r0 := {| sr_id := 0; sr_time := 0; sr_url := []; sr_destinations := []; sr_changes := [];
               sr_totalDestinations := 0; sr_totalChanges := 0; sr_error := None |} in
  let r1 := {| sr_id := 1; sr_time := 1; sr_url := []; sr_destinations := [];
               sr_changes := [[43%Z]]; sr_totalDestinations := 0; sr_totalChanges := 1;
               sr_error := None |} in
  parseInt_query (Some (js "1")) = Some 1%Z /\ (0 < 1)%Z /\
  fst (changes_endpoint (Some (js "1")) [r0; r1; r1]) = [r1].
Proof.
  intros r0 r1. assert (E : parseInt_query (Some (js "1")) = Some 1%Z) by reflexivity.
  split_and!; [exact E|lia|].
  exact (proj1 (proj2 (changes_endpoint_spec (Some (js "1")) [r0; r1; r1])) 1%Z E ltac:(lia)).
Defined.

Lemma history_endpoint_limits_witness :
  let r := {| sr_id := 0; sr_time := 0; sr_url := []; sr_destinations := []; sr_changes := [];
              sr_totalDestinations := 0; sr_totalChanges := 0; sr_error := None |} in
  0 < 1 /\ fst (history_endpoint (Some (js "-" ++ show_nat 1)) [r; r; r]) = [r; r].
Proof.
  intros r. split; [lia|].
  exact (proj2 (proj2 (proj2 (proj2 (history_endpoint_limits [r; r; r] 1)))) ltac:(lia)).
Defined.

End HistoryStore.
