(* ===== verification/Notifier.v ===== *)
(** * Notifier: [formatSMSMessage] and [sendSMSAlert]

    Models the Twilio configuration (src/flight-monitor-server.js,
    lines 14-31), [sendSMSAlert] (lines 39-67) and [formatSMSMessage]
    (lines 70-92).  The transport ([twilioClient.messages.create]) is the
    environment: [sendSMSAlert] is split at its [await] into the
    synchronous part, which decides whether a message goes out and builds
    it, and the completion, which turns the transport's answer into the
    function's result.  [new Date().toLocaleString()] is a parameter. *)

From S2P Require Import Prelude JsRegex JsNumber Extractor.
Import Extractor.

Module Notifier.

(** ** Configuration *)

(** The four environment variables ([None] when unset) and whether the
    call [twilio(sid, token)] returns without throwing. *)
Record sms_config := {
  TWILIO_ACCOUNT_SID : option jstring;
  TWILIO_AUTH_TOKEN : option jstring;
  TWILIO_PHONE_NUMBER : option jstring;
  ALERT_PHONE_NUMBER : option jstring;
  twilio_constructs : bool
}.

(** JavaScript truthiness of an optional string: set and non-empty. *)
Definition truthy (o : option jstring) : bool :=
  match o with Some (_ :: _) => true | _ => false end.

(** [twilioClient] is non-null (lines 19-31). *)
Definition twilioClient_present (c : sms_config) : bool :=
  truthy (TWILIO_ACCOUNT_SID c) && truthy (TWILIO_AUTH_TOKEN c) && twilio_constructs c.

(** ** The message *)

Definition nl : jstring := [10%Z].

Definition change_line (change : jstring) : jstring := js "• " ++ change.

Definition dest_line (d : destination) : jstring :=
  js "✈️ " ++ englishName d ++ js " - " ++ price d.

Definition more_line (n : nat) : jstring := js "... and " ++ show_nat n ++ js " more".

Definition lines_text (ls : list jstring) : jstring := concat (map (fun l => l ++ nl) ls).

Definition formatSMSMessage (changes : list jstring) (destinations : list destination)
    (timestamp : jstring) : jstring :=
  js "🛫 TUSTUS FLIGHT ALERT" ++ nl ++ timestamp ++ nl ++ nl ++
  js "CHANGES DETECTED:" ++ nl ++
  lines_text (map change_line changes) ++
  nl ++ js "CURRENT DESTINATIONS (" ++ show_nat (length destinations) ++ js "):" ++ nl ++
  lines_text (map dest_line (take 5 destinations)) ++
  (if 5 <? length destinations then more_line (length destinations - 5) ++ nl else []) ++
  nl ++ js "View details: https://www.tustus.co.il/Arkia/Home".

(** ** [sendSMSAlert] *)

Record outbound := { ob_body : jstring; ob_from : jstring; ob_to : jstring }.

(** What the transport does with [messages.create]. *)
Inductive transport_result :=
| TransportSid (sid : jstring)
| TransportThrows (message : jstring).

(** The three values the function returns: [false], [{success: true, sid}]
    and [{success: false, error}]. *)
Inductive sms_outcome :=
| SmsDisabled
| SmsSent (sid : jstring)
| SmsFailed (error : jstring).

(** Lines 41-53, up to the [await]: the message to send, or [None] when
    the configuration is missing. *)
Definition sendSMSAlert_start (cfg : sms_config) (changes : list jstring)
    (destinations : list destination) (timestamp : jstring) : option outbound :=
  if negb (twilioClient_present cfg) || negb (truthy (TWILIO_PHONE_NUMBER cfg))
     || negb (truthy (ALERT_PHONE_NUMBER cfg))
  then None
  else Some {| ob_body := formatSMSMessage changes destinations timestamp;
               ob_from := default [] (TWILIO_PHONE_NUMBER cfg);
               ob_to := default [] (ALERT_PHONE_NUMBER cfg) |}.

(** Lines 59-66, after the [await]. *)
Definition sendSMSAlert_finish (t : transport_result) : sms_outcome :=
  match t with
  | TransportSid sid => SmsSent sid
  | TransportThrows m => SmsFailed m
  end.

(** The whole call, given the transport's answer (unused when no message
    goes out). *)
Definition sendSMSAlert (cfg : sms_config) (changes : list jstring)
    (destinations : list destination) (timestamp : jstring) (t : transport_result)
    : sms_outcome :=
  match sendSMSAlert_start cfg changes destinations timestamp with
  | None => SmsDisabled
  | Some _ => sendSMSAlert_finish t
  end.

(** [smsResult.success] in the callback of line 178; [false.success] is
    [undefined]. *)
Definition sms_success (o : sms_outcome) : option jstring :=
  match o with SmsSent sid => Some sid | _ => None end.


(** ** Reading the message back *)

(** The configuration [sendSMSAlert] needs: a client, a sender and a
    recipient. *)
Definition sms_configured (cfg : sms_config) : bool :=
  twilioClient_present cfg && truthy (TWILIO_PHONE_NUMBER cfg) && truthy (ALERT_PHONE_NUMBER cfg).

(** [msg.split('\n')] *)
Fixpoint split_lines_acc (cur : jstring) (s : jstring) : list jstring :=
  match s with
  | [] => [rev cur]
  | c :: s' => if (c =? 10)%Z then rev cur :: split_lines_acc [] s'
               else split_lines_acc (c :: cur) s'
  end.

Definition split_lines (s : jstring) : list jstring := split_lines_acc [] s.

(** The lines of the change section, with their bullet removed, up to the
    first line without a bullet. *)
Fixpoint take_bullets (ls : list jstring) : list jstring :=
  match ls with
  | l :: ls' => if starts_with (js "• ") l then drop 2 l :: take_bullets ls' else []
  | [] => []
  end.

Definition parse_changes (msg : jstring) : list jstring := take_bullets (drop 4 (split_lines msg)).

(** ** Properties *)

Lemma split_lines_acc_app cur l rest :
  10%Z ∉ l -> split_lines_acc cur (l ++ nl ++ rest) = (rev cur ++ l) :: split_lines rest.
Proof.
  revert cur; induction l as [|c l IH]; intros cur Hl; simpl.
  - by rewrite app_nil_r.
  - rewrite not_elem_of_cons in Hl. destruct Hl as [Hc Hl].
    destruct (Z.eqb_spec c 10); [congruence|]. rewrite IH by done.
    simpl. by rewrite <- app_assoc.
Qed.

Lemma split_lines_line l rest :
  10%Z ∉ l -> split_lines (l ++ nl ++ rest) = l :: split_lines rest.
Proof. intros Hl. unfold split_lines. by rewrite split_lines_acc_app. Qed.

Lemma split_lines_last l : 10%Z ∉ l -> split_lines l = [l].
Proof.
  intros Hl. unfold split_lines. enough (forall cur, split_lines_acc cur l = [rev cur ++ l])
    by (rewrite H; done).
  induction l as [|c l IH]; intros cur; simpl; [by rewrite app_nil_r|].
  rewrite not_elem_of_cons in Hl. destruct Hl as [Hc Hl].
  destruct (Z.eqb_spec c 10); [congruence|]. rewrite IH by done.
  simpl. by rewrite <- app_assoc.
Qed.

Lemma split_lines_text ls rest :
  Forall (fun l => 10%Z ∉ l) ls -> split_lines (lines_text ls ++ rest) = ls ++ split_lines rest.
Proof.
  induction 1 as [|l ls Hl Hls IH]; [done|]. unfold lines_text in *. simpl.
  rewrite <- !app_assoc, split_lines_line by done. by rewrite IH.
Qed.

Lemma no_nl_app (a b : jstring) : 10%Z ∉ a -> 10%Z ∉ b -> 10%Z ∉ a ++ b.
Proof. rewrite elem_of_app. tauto. Qed.

Lemma uint_digits_no_nl u : 10%Z ∉ uint_digits u.
Proof.
  induction u; simpl;
    first [apply not_elem_of_nil|rewrite not_elem_of_cons; split; [lia|done]].
Qed.

Lemma split_lines_nl rest : split_lines (nl ++ rest) = [] :: split_lines rest.
Proof. apply (split_lines_line []), not_elem_of_nil. Qed.

Lemma app3_nl (a b c rest : jstring) : a ++ b ++ c ++ nl ++ rest = (a ++ b ++ c) ++ nl ++ rest.
Proof. by rewrite <- !app_assoc. Qed.

(** A line is free of line breaks: static text by computation, the rest
    from the hypotheses. *)
Ltac no_nl :=
  cbv beta in *;
  repeat match goal with
  | |- 10%Z ∉ (_ ++ _) => apply no_nl_app
  | |- 10%Z ∉ uint_digits _ => apply uint_digits_no_nl
  | |- 10%Z ∉ show_nat _ => apply uint_digits_no_nl
  | H : 10%Z ∉ ?a |- 10%Z ∉ ?a => exact H
  | |- 10%Z ∉ js _ => apply (bool_decide_unpack _); vm_compute; reflexivity
  end.

(** The SMS body has a fixed line structure: the header, the
    timestamp, the changes one per line after a bullet, the number of
    destinations, the first five destinations as [name - price], a line
    [... and k more] exactly when there are more than five, and the link
    (for a timestamp, changes, names and prices without line breaks). *)
Lemma format_lines changes ds ts :
  10%Z ∉ ts -> Forall (fun c => 10%Z ∉ c) changes ->
  Forall (fun d => (10%Z ∉ englishName d) /\ (10%Z ∉ price d)) ds ->
  split_lines (formatSMSMessage changes ds ts) =
    [js "🛫 TUSTUS FLIGHT ALERT"; ts; []; js "CHANGES DETECTED:"] ++
    map change_line changes ++
    [[]; js "CURRENT DESTINATIONS (" ++ show_nat (length ds) ++ js "):"] ++
    map dest_line (take 5 ds) ++
    (if 5 <? length ds then [more_line (length ds - 5)] else []) ++
    [[]; js "View details: https://www.tustus.co.il/Arkia/Home"].
Proof.
  intros Hts Hch Hds.
  assert (Hcl : Forall (fun l => 10%Z ∉ l) (map change_line changes)).
  { apply Forall_fmap, Forall_forall. intros c Hc. unfold compose, change_line.
    pose proof (proj1 (Forall_forall _ _) Hch c Hc). no_nl. }
  assert (Hdl : Forall (fun l => 10%Z ∉ l) (map dest_line (take 5 ds))).
  { apply Forall_fmap, Forall_forall. intros d Hd. unfold compose, dest_line.
    apply elem_of_take in Hd as (i & Hi & _). apply list_elem_of_lookup_2 in Hi.
    destruct (proj1 (Forall_forall _ _) Hds d Hi). no_nl. }
  unfold formatSMSMessage.
  rewrite split_lines_line by no_nl. rewrite split_lines_line by done.
  rewrite split_lines_nl, split_lines_line by no_nl.
  rewrite split_lines_text by done.
  rewrite split_lines_nl, app3_nl, split_lines_line by no_nl.
  rewrite split_lines_text by done.
  destruct (5 <? length ds).
  - rewrite <- app_assoc, split_lines_line by (unfold more_line; no_nl).
    rewrite split_lines_nl, split_lines_last by no_nl. simpl. by rewrite <- ?app_assoc.
  - rewrite app_nil_l, split_lines_nl, split_lines_last by no_nl.
    simpl. by rewrite <- ?app_assoc.
Qed.


Lemma take_bullets_changes cs l rest :
  starts_with (js "• ") l = false ->
  take_bullets (map change_line cs ++ l :: rest) = cs.
Proof.
  intros Hl. induction cs as [|c cs IH]; cbn [map app take_bullets].
  - by rewrite Hl.
  - unfold change_line at 1. rewrite starts_with_app, IH. f_equal.
Qed.

(** C28: Reading the change section back out of the SMS body gives the
    change list verbatim: formatting then parsing the bulleted lines is
    the identity (for inputs without line breaks). *)
Theorem parse_format_changes changes ds ts :
  10%Z ∉ ts -> Forall (fun c => 10%Z ∉ c) changes ->
  Forall (fun d => (10%Z ∉ englishName d) /\ (10%Z ∉ price d)) ds ->
  parse_changes (formatSMSMessage changes ds ts) = changes.
Proof.
  intros Hts Hch Hds. unfold parse_changes. rewrite format_lines by done.
  simpl. by apply take_bullets_changes.
Qed.

(** C27: Without a full configuration [sendSMSAlert] contacts no transport
    and returns [false] whatever the transport would do; with one, it
    sends the formatted message from the configured number to the alert
    number and returns what the transport answered. *)
Theorem sendSMSAlert_spec cfg changes ds ts t :
  (sms_configured cfg = false ->
     sendSMSAlert_start cfg changes ds ts = None /\ sendSMSAlert cfg changes ds ts t = SmsDisabled) /\
  (sms_configured cfg = true ->
     exists from to, TWILIO_PHONE_NUMBER cfg = Some from /\ ALERT_PHONE_NUMBER cfg = Some to /\
     sendSMSAlert_start cfg changes ds ts =
       Some {| ob_body := formatSMSMessage changes ds ts; ob_from := from; ob_to := to |} /\
     sendSMSAlert cfg changes ds ts t = sendSMSAlert_finish t).
Proof.
  unfold sendSMSAlert, sendSMSAlert_start, sms_configured.
  destruct (twilioClient_present cfg), (TWILIO_PHONE_NUMBER cfg) as [[|f fs]|],
    (ALERT_PHONE_NUMBER cfg) as [[|a as_]|]; simpl; split; intros H;
    try discriminate; try done; eauto 10.
Qed.

Lemma sendSMSAlert_spec_witness :
  let cfg := {| TWILIO_ACCOUNT_SID := Some (js "AC1"); TWILIO_AUTH_TOKEN := Some (js "t");
                TWILIO_PHONE_NUMBER := Some (js "+1555"); ALERT_PHONE_NUMBER := Some (js "+972");
                twilio_constructs := true |} in
  sms_configured cfg = true /\
  sendSMSAlert cfg [js "+ Added: Eilat"] [] (js "1/1/2025") (TransportSid (js "SM1"))
    = SmsSent (js "SM1").
Proof.
  intros cfg. assert (H : sms_configured cfg = true) by reflexivity. split; [exact H|].
  destruct (proj2 (sendSMSAlert_spec cfg [js "+ Added: Eilat"] [] (js "1/1/2025")
                     (TransportSid (js "SM1"))) H) as (f & t & _ & _ & _ & ->).
  reflexivity.
Defined.

Lemma parse_format_changes_witness :
  let cs := [js "+ Added: Eilat"; js "💰 Crete: ₪200 → ₪250"] in
  (10%Z ∉ js "1/1/2025") /\ Forall (fun c => 10%Z ∉ c) cs /\
  parse_changes (formatSMSMessage cs [] (js "1/1/2025")) = cs.
Proof.
  intros cs.
  assert (H1 : 10%Z ∉ js "1/1/2025") by (apply (bool_decide_unpack _); vm_compute; reflexivity).
  assert (H2 : Forall (fun c => 10%Z ∉ c) cs) by (apply (bool_decide_unpack _); vm_compute; reflexivity).
  split_and!; [exact H1|exact H2|]. exact (parse_format_changes cs [] _ H1 H2 (Forall_nil_2 _)).
Defined.

End Notifier.
