(* ===== verification/Pipeline.v ===== *)
(** * Pipeline: [scanWebsite] and [addScanResult]

    Models one scan (src/flight-monitor-server.js, [scanWebsite],
    lines 302-350) and the bookkeeping it calls ([addScanResult],
    lines 146-197): extraction, change detection against the previous
    snapshot, the scan history, the SMS alert, and the update of
    [lastDestinations].  The fetch (lines 306-322) is the environment: its
    outcome is an argument.  The two [await]s of the fetch are one step,
    since nothing of the scan's state changes between them.

    The global variables [scanHistory], [lastDestinations] and
    [smsHistory] are the fields of [pstate].  The clock readings of a
    completion are the fields of [scan_env]: [Date.now()] for the
    record's [id], [new Date()] for its [timestamp] (two readings, line
    148 and 149) and for a job's [startTime] (line 401).  The extraction is reached
    through the class [ExtractionStrategy]: the pipeline's theorems use
    only what it promises (distinct English names), and [Extractor]
    provides the instance. *)

From S2P Require Import Prelude JsRegex JsNumber Extractor DiffEngine HistoryStore Notifier.
Import Extractor DiffEngine HistoryStore Notifier.

Module Pipeline.

(** ** The interface of the extraction *)

Class ExtractionStrategy := {
  extract : jstring -> list destination;
  extract_names_distinct : forall html, NoDup (map englishName (extract html))
}.

#[export] Instance extractDestinations_strategy : ExtractionStrategy := {|
  extract := extractDestinations;
  extract_names_distinct := extractDestinations_english_nodup
|}.

(** ** State and environment *)

Record pstate := {
  scanHistory : list scan_result;
  lastDestinations : list destination;
  smsHistory : list sms_record
}.

Definition pstate_init : pstate :=
  {| scanHistory := []; lastDestinations := []; smsHistory := [] |}.

(** What [fetch] and [response.text()] produce: a response with its
    status, status text and body, or an exception (network error, the
    15 s timeout, a body that cannot be read). *)
Inductive fetch_outcome :=
| FetchResponse (status : nat) (statusText : jstring) (body : jstring)
| FetchThrows (message : jstring).

(** The clock and locale readings a completed fetch makes, in order:
    [Date.now()] for the record's [id] (lines 148, 337), [new Date()] for
    its [timestamp] (lines 149, 338), and, when the start handler
    resumes, [new Date()] for the job's [startTime] (line 401).  Each is a
    separate reading of the clock. *)
Record scan_env := {
  env_now : Z;               (* Date.now() *)
  env_date : Z;              (* new Date().toISOString() of the record *)
  env_resume : Z;            (* new Date().toISOString() of the job, line 401 *)
  env_locale_time : jstring  (* new Date().toLocaleString(), in the SMS *)
}.

(** The configuration with no Twilio credentials. *)
Definition no_sms : sms_config :=
  {| TWILIO_ACCOUNT_SID := None; TWILIO_AUTH_TOKEN := None; TWILIO_PHONE_NUMBER := None;
     ALERT_PHONE_NUMBER := None; twilio_constructs := false |}.

Section WithStrategy.

Context `{ExtractionStrategy}.
Variable cfg : sms_config.

(** ** [addScanResult] (lines 146-197) *)

(** The new state, the result, and the SMS that goes out (the
    synchronous part of [sendSMSAlert]; its completion is [sms_done]). *)
Definition addScanResult (env : scan_env) (url : jstring) (destinations : list destination)
    (changes : list jstring) (st : pstate) : pstate * scan_result * option outbound :=
  let result := {| sr_id := env_now env; sr_time := env_date env; sr_url := url;
                   sr_destinations := destinations; sr_changes := changes;
                   sr_totalDestinations := length destinations;
                   sr_totalChanges := length changes; sr_error := None |} in
  let st' := {| scanHistory := record_scan result (scanHistory st);
                lastDestinations := lastDestinations st;
                smsHistory := smsHistory st |} in
  let sms := if 0 <? length changes
             then sendSMSAlert_start cfg changes destinations (env_locale_time env)
             else None in
  (st', result, sms).

(** The [.then] callback of line 178, when the transport answers. *)
Definition sms_done (now : Z) (changes : list jstring) (t : transport_result)
    (st : pstate) : pstate :=
  match sms_success (sendSMSAlert_finish t) with
  | Some sid =>
      {| scanHistory := scanHistory st; lastDestinations := lastDestinations st;
         smsHistory := record_sms {| sms_time := now; sms_changes := changes; sms_sid := sid;
                                     sms_phone := ALERT_PHONE_NUMBER cfg |} (smsHistory st) |}
  | None => st
  end.

(** ** [scanWebsite] after the fetch (lines 318-349) *)

(** [`HTTP ${response.status}: ${response.statusText}`] *)
Definition http_error (status : nat) (statusText : jstring) : jstring :=
  js "HTTP " ++ show_nat status ++ js ": " ++ statusText.

Definition error_result (env : scan_env) (url msg : jstring) : scan_result :=
  {| sr_id := env_now env; sr_time := env_date env; sr_url := url; sr_destinations := [];
     sr_changes := []; sr_totalDestinations := 0; sr_totalChanges := 0;
     sr_error := Some msg |}.

Definition scan_failed (env : scan_env) (url msg : jstring) (st : pstate)
    : pstate * scan_result * option outbound :=
  let r := error_result env url msg in
  ({| scanHistory := record_error_scan r (scanHistory st);
      lastDestinations := lastDestinations st; smsHistory := smsHistory st |}, r, None).

Definition scan_succeeded (env : scan_env) (url html : jstring) (st : pstate)
    : pstate * scan_result * option outbound :=
  let destinations := extract html in
  let changes := detectChanges destinations (lastDestinations st) in
  let '(st', result, sms) := addScanResult env url destinations changes st in
  ({| scanHistory := scanHistory st'; lastDestinations := destinations;
      smsHistory := smsHistory st' |}, result, sms).

(** [response.ok] is a status in 200-299. *)
Definition scanWebsite (env : scan_env) (url : jstring) (o : fetch_outcome) (st : pstate)
    : pstate * scan_result * option outbound :=
  match o with
  | FetchResponse status statusText body =>
      if (200 <=? status) && (status <? 300) then scan_succeeded env url body st
      else scan_failed env url (http_error status statusText) st
  | FetchThrows message => scan_failed env url message st
  end.

(** ** The previous snapshot over a run of scans *)

(** The destinations of the most recent successful scan in a history. *)
Fixpoint latest_success (h : list scan_result) : list destination :=
  match h with
  | [] => []
  | r :: h' => match sr_error r with None => sr_destinations r | Some _ => latest_success h' end
  end.

(** The snapshot is the list of the latest successful scan of the
    history, and its English names are distinct. *)
Definition snapshot_inv (st : pstate) : Prop :=
  lastDestinations st = latest_success (scanHistory st) /\
  NoDup (map englishName (lastDestinations st)).

(** A sequence of scans of one URL, one after the other. *)
Fixpoint run_scans (env : scan_env) (url : jstring) (os : list fetch_outcome) (st : pstate)
    : pstate :=
  match os with
  | [] => st
  | o :: os' => run_scans env url os' (fst (fst (scanWebsite env url o st)))
  end.

Definition fetch_ok (o : fetch_outcome) : option jstring :=
  match o with
  | FetchResponse status _ body => if (200 <=? status) && (status <? 300) then Some body else None
  | FetchThrows _ => None
  end.

Definition fetch_error (o : fetch_outcome) : jstring :=
  match o with
  | FetchResponse status statusText _ => http_error status statusText
  | FetchThrows message => message
  end.

(** ** Properties of one scan *)

(** C6: A failed fetch (an exception or a status outside 200-299) is
    recorded as an error result at the head of the history, with no
    destinations and no changes; the previous snapshot and the SMS history
    are unchanged and no SMS goes out. *)
Theorem scanWebsite_error env url o st :
  fetch_ok o = None ->
  let '(st', r, sms) := scanWebsite env url o st in
  sr_error r = Some (fetch_error o) /\ sr_destinations r = [] /\ sr_changes r = [] /\
  scanHistory st' = r :: scanHistory st /\ lastDestinations st' = lastDestinations st /\
  smsHistory st' = smsHistory st /\ sms = None.
Proof.
  intros Hok. destruct o as [status text body|msg]; unfold fetch_ok in Hok; [|done].
  unfold scanWebsite. destruct ((200 <=? status) && (status <? 300)); [discriminate|done].
Qed.

(** C5: A successful fetch compares the page's destinations with the
    previous snapshot as it was before the scan, records the result at
    the head of the history (evicting the oldest entry when full),
    replaces the snapshot by the new destinations, and starts an SMS
    exactly when there are changes and the transport is configured. *)
Theorem scanWebsite_success env url o st html :
  fetch_ok o = Some html ->
  let '(st', r, sms) := scanWebsite env url o st in
  sr_destinations r = extract html /\
  sr_changes r = detectChanges (extract html) (lastDestinations st) /\ sr_error r = None /\
  scanHistory st' = record_scan r (scanHistory st) /\
  lastDestinations st' = extract html /\ smsHistory st' = smsHistory st /\
  (is_Some sms <-> sr_changes r <> [] /\ sms_configured cfg = true).
Proof.
  intros Hok. destruct o as [status text body|msg]; unfold fetch_ok in Hok; [|discriminate].
  unfold scanWebsite. destruct ((200 <=? status) && (status <? 300)); [|discriminate].
  injection Hok as ->. cbn. split_and!; try done.
  destruct (detectChanges (extract html) (lastDestinations st)) as [|c cs]; simpl.
  - split; [by intros []|]. by intros [? _].
  - unfold sendSMSAlert_start, sms_configured.
    destruct (twilioClient_present cfg), (truthy (TWILIO_PHONE_NUMBER cfg)),
      (truthy (ALERT_PHONE_NUMBER cfg)); simpl; split; intros Hs;
      try (by destruct Hs); try (by destruct Hs as [_ Hs]); eauto.
Qed.

(** C7: Scanning the same page twice in a row reports no change the
    second time and sends no SMS, for any extraction strategy that keeps
    English names distinct. *)
Theorem rescan_same_page env1 env2 url o1 o2 st html :
  fetch_ok o1 = Some html -> fetch_ok o2 = Some html ->
  let '(st1, _, _) := scanWebsite env1 url o1 st in
  let '(_, r2, sms2) := scanWebsite env2 url o2 st1 in
  sr_changes r2 = [] /\ sms2 = None.
Proof.
  intros H1 H2.
  destruct o1 as [s1 t1 b1|m1]; unfold fetch_ok in H1; [|discriminate].
  destruct o2 as [s2 t2 b2|m2]; unfold fetch_ok in H2; [|discriminate].
  unfold scanWebsite. destruct ((200 <=? s1) && (s1 <? 300)); [|discriminate].
  destruct ((200 <=? s2) && (s2 <? 300)); [|discriminate].
  injection H1 as <-. injection H2 as <-. cbn.
  rewrite detectChanges_self by apply extract_names_distinct. done.
Qed.

Lemma latest_success_record_scan r h :
  sr_error r = None -> latest_success (record_scan r h) = sr_destinations r.
Proof.
  intros He. unfold record_scan. destruct (decide (length h < scan_cap)).
  - rewrite push_capped_under by done. simpl. by rewrite He.
  - rewrite push_capped_full by (unfold scan_cap in *; lia). simpl. by rewrite He.
Qed.

Lemma snapshot_inv_init : snapshot_inv pstate_init.
Proof. split; [done|constructor]. Qed.

Lemma snapshot_inv_sms now changes t st : snapshot_inv st -> snapshot_inv (sms_done now changes t st).
Proof. unfold sms_done. by destruct (sms_success _). Qed.

(** Whatever the fetches return, after every scan the previous
    snapshot is the destination list of the most recent successful scan
    recorded in the history (a failed scan leaves it alone), and its
    English names are distinct; SMS completions do not touch it. *)
Lemma scanWebsite_snapshot_inv env url o st :
  snapshot_inv st -> snapshot_inv (fst (fst (scanWebsite env url o st))).
Proof.
  intros [Hl Hnd]. unfold scanWebsite.
  destruct o as [status text body|msg]; [destruct ((200 <=? status) && (status <? 300))|].
  - cbn. split; [|apply extract_names_distinct]. symmetry. by apply latest_success_record_scan.
  - by split.
  - by split.
Qed.

Lemma scanWebsite_smsHistory env url o st :
  smsHistory (fst (fst (scanWebsite env url o st))) = smsHistory st.
Proof.
  unfold scanWebsite.
  destruct o as [status text body|msg]; [destruct ((200 <=? status) && (status <? 300))|]; done.
Qed.

(** C8: Each failed scan adds one entry to the history with no capacity
    check, so from the initial state [n] failed scans leave [n] entries:
    201 consecutive failures exceed the cap of 200 entries. *)
Theorem failed_scans_exceed_cap env url msg n :
  length (scanHistory (run_scans env url (repeat (FetchThrows msg) n) pstate_init)) = n.
Proof.
  enough (Hgen : forall st, length (scanHistory (run_scans env url (repeat (FetchThrows msg) n) st))
                           = n + length (scanHistory st)) by (rewrite Hgen; simpl; lia).
  induction n as [|n IH]; intros st; [done|]. simpl. rewrite IH. simpl. lia.
Qed.

End WithStrategy.

(** ** The end-to-end example of the specification *)

(** On the page of the specification (the trigger phrase twice for
    Eilat with [₪300] in the window, once for Crete without a price),
    a first scan from the initial state finds Eilat at [₪300] seen twice
    and Crete at [N/A] seen once, and reports both as added. *)
Theorem spec_end_to_end env url :
  let '(st', r, _) := scanWebsite no_sms env url (FetchResponse 200 (js "OK") spec_page)
                        pstate_init in
  map (fun d => (englishName d, price d, occurrences d)) (sr_destinations r) =
    [(js "Eilat", js "₪300", 2); (js "Crete", NA, 1)] /\
  sr_changes r = [added_msg (js "Eilat"); added_msg (js "Crete")] /\
  lastDestinations st' = sr_destinations r.
Proof. vm_compute. split_and!; reflexivity. Qed.

(** ** Witnesses *)

Lemma scanWebsite_success_witness :
  let env := {| env_now := 1; env_date := 1; env_resume := 1; env_locale_time := [] |} in
  let o := FetchResponse 200 (js "OK") spec_page in
  fetch_ok o = Some spec_page /\
  lastDestinations (fst (fst (scanWebsite no_sms env [] o pstate_init))) = extract spec_page.
Proof.
  intros env o. assert (H : fetch_ok o = Some spec_page) by reflexivity. split; [exact H|].
  pose proof (scanWebsite_success no_sms env [] o pstate_init spec_page H) as Hs.
  destruct (scanWebsite no_sms env [] o pstate_init) as [[st' r] sms].
  exact (proj1 (proj2 (proj2 (proj2 (proj2 Hs))))).
Defined.

Lemma scanWebsite_error_witness :
  let env := {| env_now := 1; env_date := 1; env_resume := 1; env_locale_time := [] |} in
  let o := FetchResponse 404 (js "Not Found") [] in
  fetch_ok o = None /\
  sr_error (snd (fst (scanWebsite no_sms env [] o pstate_init))) = Some (js "HTTP 404: Not Found").
Proof.
  intros env o. assert (H : fetch_ok o = None) by reflexivity. split; [exact H|].
  pose proof (scanWebsite_error no_sms env [] o pstate_init H) as He.
  destruct (scanWebsite no_sms env [] o pstate_init) as [[st' r] sms].
  simpl. rewrite (proj1 He). vm_compute. reflexivity.
Defined.

Lemma rescan_same_page_witness :
  let env := {| env_now := 1; env_date := 1; env_resume := 1; env_locale_time := [] |} in
  let o := FetchResponse 200 (js "OK") spec_page in
  fetch_ok o = Some spec_page /\
  sr_changes (snd (fst (scanWebsite no_sms env [] o
                          (fst (fst (scanWebsite no_sms env [] o pstate_init)))))) = [].
Proof.
  intros env o. assert (H : fetch_ok o = Some spec_page) by reflexivity. split; [exact H|].
  pose proof (rescan_same_page no_sms env env [] o o pstate_init spec_page H H) as Hr.
  destruct (scanWebsite no_sms env [] o pstate_init) as [[st1 r1] sms1].
  change (fst (fst (st1, r1, sms1))) with st1.
  destruct (scanWebsite no_sms env [] o st1) as [[st2 r2] sms2].
  exact (proj1 Hr).
Defined.

End Pipeline.
