(* ===== verification/PriceScan.v ===== *)
(** * PriceScan: the price search of [extractDestinations], as a direct scan

    [extractDestinations] (src/flight-monitor-server.js, lines 213-214)
    finds a destination's price with
    [new RegExp(`טיסה ל${hebrew}[\\s\\S]{0,200}?([₪$€]\\d+)`, 'g').exec(html)].
    This file gives the search it performs as a plain scan, [first_priced]:
    the leftmost occurrence of the trigger phrase whose window of at most
    200 code units contains, at its earliest position, a currency sign
    followed by digits, the price being the sign and the longest run of
    digits.  The equivalence theorem shows that the regular-expression
    engine of [JsRegex.v] computes exactly this scan; the example after it
    shows that this is not the window of the first occurrence, as the
    specification says. *)

From S2P Require Import Prelude JsRegex Extractor.
Import Extractor.

Module PriceScan.

(** ** The reference scan *)

(** [[₪$€]] *)
Definition is_currency (x : Z) : bool := (x =? 8362)%Z || (x =? 36)%Z || (x =? 8364)%Z.

(** The longest prefix of digits. *)
Fixpoint digit_run (s : jstring) : jstring :=
  match s with
  | x :: s' => if is_digit x then x :: digit_run s' else []
  | [] => []
  end.

(** A price token at the start of [s]: a sign, then one or more digits. *)
Definition price_token (s : jstring) : option jstring :=
  match s with
  | c :: x :: s' => if is_currency c && is_digit x then Some (c :: x :: digit_run s') else None
  | _ => None
  end.

(** The first price token at one of the offsets [0 .. n] of [s]. *)
Fixpoint window_scan (n : nat) (s : jstring) : option jstring :=
  match price_token s with
  | Some t => Some t
  | None => match n, s with S n', _ :: s' => window_scan n' s' | _, _ => None end
  end.

(** The leftmost occurrence of [p] whose window has a price token. *)
Fixpoint first_priced (p s : jstring) : option jstring :=
  match (if starts_with p s then window_scan 200 (drop (length p) s) else None) with
  | Some t => Some t
  | None => match s with [] => None | _ :: s' => first_priced p s' end
  end.

Definition price_ref (hebrew html : jstring) : jstring :=
  default NA (first_priced (flight_prefix ++ hebrew) html).

(** What the specification describes: the window after the first
    occurrence only. *)
Fixpoint first_occurrence (p s : jstring) : option jstring :=
  if starts_with p s then Some (drop (length p) s)
  else match s with [] => None | _ :: s' => first_occurrence p s' end.

Definition price_spec (hebrew html : jstring) : jstring :=
  match first_occurrence (flight_prefix ++ hebrew) html with
  | Some w => default NA (window_scan 200 w)
  | None => NA
  end.

(** ** The matcher's pieces *)

(** A continuation that never fails (the end of the pattern). *)
Definition total (k : cont) : Prop := forall s caps, is_Some (k s caps).

(** The lazy window [[\s\S]{0,n}?] tries the continuation at the offsets
    [0 .. n] in turn. *)
Fixpoint first_offset (n : nat) (k : cont) (s : jstring) (caps : captures) : option mstate :=
  match k s caps with
  | Some r => Some r
  | None => match n, s with S n', _ :: s' => first_offset n' k s' caps | _, _ => None end
  end.

(** The group [([₪$€]\d+)] of [contextPattern]. *)
Definition price_group : regex := RGroup 1 (seqs [RAtom currency; RRep true 1 None digit]).

(** A page where the first trigger phrase for Eilat has no price in its
    window and a later one has [₪300]. *)
Definition later_price_page : jstring :=
  js "טיסה לאילת" ++ repeat 32%Z 210 ++ js "טיסה לאילת ₪300".

(** ** The atoms of the pattern *)

Lemma any_unit_matches x : atom_matches false any_unit x = true.
Proof. unfold atom_matches, any_unit, class_has. simpl. by destruct (is_space x). Qed.

Lemma digit_matches x : atom_matches false digit x = is_digit x.
Proof. unfold atom_matches, digit, class_has. simpl. by destruct (is_digit x). Qed.

Lemma currency_matches x : atom_matches false currency x = is_currency x.
Proof.
  unfold atom_matches, currency, class_has, is_currency. simpl.
  destruct (Z.eqb_spec x 8362), (Z.eqb_spec x 36), (Z.eqb_spec x 8364); subst; simpl;
    repeat (rewrite ?Z.leb_refl; simpl); try reflexivity;
    repeat match goal with |- context [(?a <=? ?b)%Z] =>
      destruct (Z.leb_spec a b) end; simpl; try reflexivity; lia.
Qed.

(** ** The two repetitions *)

(** [\d+] before a continuation that always succeeds takes the longest
    run of digits. *)
Lemma rep_digits_total k s caps :
  total k ->
  rep_m (atom_matches false digit) true 0 None k s caps = k (drop (length (digit_run s)) s) caps.
Proof.
  intros Hk. induction s as [|x s IH]; cbn [rep_m option_map digit_run]; [done|].
  rewrite digit_matches. destruct (is_digit x); cbn [length drop]; [|done].
  rewrite IH. destruct (Hk (drop (length (digit_run s)) s) caps) as [r ->]. done.
Qed.

Lemma rep_window k n s caps :
  rep_m (atom_matches false any_unit) false 0 (Some n) k s caps = first_offset n k s caps.
Proof.
  revert n; induction s as [|x s IH]; intros n; cbn [rep_m first_offset option_map].
  - destruct n; cbn [first_offset]; by destruct (k [] caps).
  - destruct n as [|n]; cbn [first_offset]; destruct (k (x :: s) caps); try done.
    rewrite any_unit_matches. apply IH.
Qed.

(** ** The capture group [([₪$€]\d+)] *)

Lemma digit_run_prefix s : take (length (digit_run s)) s = digit_run s.
Proof. induction s as [|x s IH]; simpl; [done|]. destruct (is_digit x); simpl; [by rewrite IH|done]. Qed.

Lemma digit_run_length s : length (digit_run s) <= length s.
Proof. induction s as [|x s IH]; simpl; [lia|]. destruct (is_digit x); simpl; lia. Qed.

(** The group matches exactly a price token and captures it. *)
Lemma group_price s caps k :
  total k ->
  m false (RSeq price_group REmpty) s caps k =
  match price_token s with Some t => k (drop (length t) s) ((1, t) :: caps) | None => None end.
Proof.
  intros Hk. destruct s as [|c [|x s]]; cbn [m rep_m option_map seqs fold_right price_group price_token]; [done| |].
  - rewrite currency_matches. by destruct (is_currency c).
  - rewrite currency_matches, digit_matches.
    destruct (is_currency c), (is_digit x); cbn [andb]; try done.
    rewrite rep_digits_total by (intros s' c'; cbn [m]; apply Hk).
    cbn [m]. f_equal. f_equal. f_equal.
    cbn [length drop take]. rewrite length_drop.
    pose proof (digit_run_length s).
    replace (S (S (length s)) - (length s - length (digit_run s)))
      with (S (S (length (digit_run s)))) by lia.
    cbn [take]. by rewrite digit_run_prefix.
Qed.

(** ** The whole pattern *)

Lemma window_first n s caps :
  option_map (fun st => cap_lookup 1 st.2)
    (first_offset n (fun s' caps' => m false (RSeq price_group REmpty) s' caps'
                                      (fun s'' caps'' => Some (s'', caps''))) s caps) =
  option_map Some (window_scan n s).
Proof.
  revert s; induction n as [|n IH]; intros s; cbn [first_offset window_scan];
    rewrite group_price by (intros ??; eauto);
    destruct (price_token s); cbn [option_map cap_lookup snd Nat.eqb]; try done.
  destruct s; [done|]. apply IH.
Qed.

(** One match attempt of [contextPattern] captures the price token of
    the window when the trigger phrase starts here. *)
Lemma match_here_context h s :
  option_map (fun st => cap_lookup 1 st.2) (match_here (contextPattern h) s) =
  option_map Some (if starts_with (flight_prefix ++ h) s
                   then window_scan 200 (drop (length (flight_prefix ++ h)) s) else None).
Proof.
  unfold match_here, contextPattern. cbn [re_ignore_case re_source seqs fold_right].
  rewrite m_seq_lit. destruct (starts_with _ _); [|done].
  cbn [m window]. rewrite rep_window. apply window_first.
Qed.

Lemma search_context h s i :
  option_map (fun r => cap_lookup 1 (mr_caps r)) (search_from (contextPattern h) s i) =
  option_map Some (first_priced (flight_prefix ++ h) s).
Proof.
  revert i; induction s as [|x s IH]; intros i;
    [pose proof (match_here_context h []) as E|pose proof (match_here_context h (x :: s)) as E];
    cbn [search_from first_priced];
    destruct (match_here (contextPattern h) _) as [[rest caps]|];
    destruct (if starts_with _ _ then _ else None); simpl in E |- *; try congruence.
  apply IH.
Qed.

(** C35: The price [extractDestinations] records for a destination,
    [contextPattern.exec(html)] followed by [priceMatch ? priceMatch[1] :
    'N/A'], is the direct scan [price_ref]: the price token at the
    earliest offset of the window (at most 200 code units) of the
    leftmost occurrence of the trigger phrase whose window has one. *)
Theorem price_equivalence h html :
  capture_or_na (contextPattern h) html = price_ref h html.
Proof.
  unfold capture_or_na, exec, price_ref. pose proof (search_context h html 0) as E.
  destruct (search_from _ _ _) as [r|], (first_priced _ _); simpl in E; try discriminate; [|done].
  injection E as ->. done.
Qed.

(** The price comes from the leftmost occurrence whose window has a
    price, not from the window of the first occurrence as the
    specification says: on a page where the first trigger phrase for
    Eilat is followed by 210 spaces and then a second one with [₪300],
    [extractDestinations] reports [₪300], where the specification's
    search gives [N/A]. *)
Theorem price_not_from_first_window :
  map price (extractDestinations later_price_page) = [js "₪300"] /\
  price_spec (js "אילת") later_price_page = NA.
Proof. split; vm_compute; reflexivity. Qed.

End PriceScan.
