(* ===== verification/JsMap.v ===== *)
(** * JsMap: the JavaScript [Map] of [monitoringJobs]

    [monitoringJobs] (src/flight-monitor-server.js, line 140) is a [Map]
    keyed by strings.  It is modelled as an association list in insertion
    order: [get]/[has] return the first entry with the key, [set] on a
    present key replaces the value in place and on a new key appends the
    entry, [delete] removes it, [size] counts the entries and iteration
    ([entries()], lines 430 and 565) follows the list.

    The abstract specification is stdpp's finite map [gmap]: [abs] reads
    the list as a map, and the refinement theorem shows that [get], [set]
    and [delete] are [lookup], [insert] and [delete] of [gmap], that keys
    stay distinct, that [size] is the size of the map, and how iteration
    order changes. *)

From S2P Require Import Prelude.
From stdpp Require Import gmap.

Module JsMap.

Section Map.

Context {V : Type}.

Implicit Types (m : list (jstring * V)) (k : jstring) (v : V).

Fixpoint map_get (m : list (jstring * V)) (k : jstring) : option V :=
  match m with
  | [] => None
  | (k', v) :: m' => if bool_decide (k' = k) then Some v else map_get m' k
  end.

Definition map_set (m : list (jstring * V)) (k : jstring) (v : V) : list (jstring * V) :=
  match map_get m k with
  | Some _ => map (fun kv => if bool_decide (kv.1 = k) then (k, v) else kv) m
  | None => m ++ [(k, v)]
  end.

Definition map_delete (m : list (jstring * V)) (k : jstring) : list (jstring * V) :=
  filter (fun kv => kv.1 <> k) m.

(** [map.size] *)
Definition map_size m : nat := length m.

(** The keys in iteration order. *)
Definition map_keys m : list jstring := map fst m.

(** The abstraction: the map the list denotes (its first entry for a key
    wins, as with [get]). *)
Definition abs m : gmap jstring V := list_to_map m.

Lemma map_get_some (m : list (jstring * V)) k v : map_get m k = Some v -> (k, v) ∈ m.
Proof.
  induction m as [|[k' v'] m IH]; simpl; [discriminate|].
  case_bool_decide; [intros [= <-]; subst; left|intros Hm; right; auto].
Qed.

Lemma map_get_replace (m : list (jstring * V)) k v k' :
  map_get (map (fun kv => if bool_decide (kv.1 = k) then (k, v) else kv) m) k' =
  if bool_decide (k = k') then (fun _ => v) <$> map_get m k else map_get m k'.
Proof.
  induction m as [|[k0 v0] m IH]; simpl; [by case_bool_decide|].
  rewrite IH. destruct (decide (k0 = k)) as [->|Hne].
  - rewrite (bool_decide_true (k = k)) by done. simpl. by case_bool_decide.
  - rewrite (bool_decide_false (k0 = k)) by done. simpl.
    by repeat (case_bool_decide; subst; simpl; try done).
Qed.

Lemma map_get_set (m : list (jstring * V)) k v k' :
  map_get (map_set m k v) k' = if bool_decide (k = k') then Some v else map_get m k'.
Proof.
  unfold map_set. destruct (map_get m k) as [v0|] eqn:Hk.
  - rewrite map_get_replace, Hk. done.
  - induction m as [|[k0 v0] m IH]; simpl in *; [by repeat case_bool_decide|].
    destruct (decide (k0 = k)) as [->|Hne].
    + by rewrite bool_decide_true in Hk.
    + rewrite bool_decide_false in Hk by done. rewrite IH by done.
      destruct (decide (k0 = k')) as [<-|?].
      * rewrite (bool_decide_false (k = k0)) by congruence. by rewrite bool_decide_true.
      * by rewrite (bool_decide_false (k0 = k')).
Qed.

Lemma map_get_delete (m : list (jstring * V)) k k' :
  map_get (map_delete m k) k' = if bool_decide (k = k') then None else map_get m k'.
Proof.
  unfold map_delete. induction m as [|[k0 v0] m IH]; simpl; [by case_bool_decide|].
  rewrite filter_cons. destruct (decide (k0 = k)) as [->|Hne].
  - rewrite decide_False by tauto. rewrite IH. by case_bool_decide.
  - rewrite decide_True by done. simpl. rewrite IH.
    destruct (decide (k0 = k')) as [<-|Hne'].
    + by rewrite (bool_decide_false (k = k0)), (bool_decide_true (k0 = k0)).
    + by rewrite (bool_decide_false (k0 = k')).
Qed.

Lemma lookup_abs m k : abs m !! k = map_get m k.
Proof.
  unfold abs. induction m as [|[k' v'] m IH]; [done|]. cbn [list_to_map foldr map_get fst snd].
  rewrite lookup_insert. case_bool_decide; [by rewrite decide_True|by rewrite decide_False].
Qed.

Lemma abs_eq m1 m2 : (forall k, map_get m1 k = map_get m2 k) -> abs m1 = abs m2.
Proof. intros H. apply map_eq. intros k. by rewrite !lookup_abs. Qed.

Lemma map_get_none m k : map_get m k = None <-> k ∉ map_keys m.
Proof.
  unfold map_keys. induction m as [|[k' v'] m IH]; simpl.
  - split; [intros _; apply not_elem_of_nil|done].
  - rewrite not_elem_of_cons, <- IH. case_bool_decide; naive_solver.
Qed.

Lemma map_keys_set m k v :
  map_keys (map_set m k v) = if bool_decide (k ∈ map_keys m) then map_keys m else map_keys m ++ [k].
Proof.
  unfold map_set. destruct (map_get m k) as [v0|] eqn:Hk.
  - rewrite bool_decide_true.
    + unfold map_keys. rewrite map_map. apply map_ext. intros [k' v']. simpl. by case_bool_decide.
    + destruct (decide (k ∈ map_keys m)) as [|Hn]; [done|].
      apply map_get_none in Hn. congruence.
  - apply map_get_none in Hk. rewrite bool_decide_false by done. unfold map_keys. by rewrite map_app.
Qed.

(** A property of every entry survives [set] of an entry that has it,
    and [delete]. *)
Lemma Forall_map_set (P : jstring * V -> Prop) m k v :
  P (k, v) -> Forall P m -> Forall P (map_set m k v).
Proof.
  intros Hkv Hm. unfold map_set. destruct (map_get m k).
  - apply Forall_fmap, (Forall_impl _ _ _ Hm). intros [k' v'] ?. simpl. by case_bool_decide; subst.
  - apply Forall_app. split; [done|by constructor].
Qed.

Lemma Forall_map_delete (P : jstring * V -> Prop) m k : Forall P m -> Forall P (map_delete m k).
Proof.
  intros Hm. apply Forall_forall. intros x Hx. apply list_elem_of_filter in Hx as [_ Hx].
  by apply (proj1 (Forall_forall _ _) Hm).
Qed.

(** The JavaScript [Map] refines a finite map: on a [Map] whose keys
    are distinct (every [Map] is), [get] is the lookup of the map it
    denotes, [set] is insertion and [delete] is deletion, both keep the
    keys distinct, and [size] is the number of keys; [set] on a present
    key keeps the iteration order and on a new key appends the key. *)
Theorem map_refines_gmap m k v :
  NoDup (map_keys m) ->
  map_get m k = abs m !! k /\
  abs (map_set m k v) = <[k:=v]> (abs m) /\ NoDup (map_keys (map_set m k v)) /\
  abs (map_delete m k) = delete k (abs m) /\ NoDup (map_keys (map_delete m k)) /\
  map_size m = size (abs m) /\
  map_keys (map_set m k v) = if bool_decide (k ∈ map_keys m) then map_keys m else map_keys m ++ [k].
Proof.
  intros Hnd. split_and!.
  - by rewrite lookup_abs.
  - apply map_eq. intros k'. rewrite lookup_abs, map_get_set, lookup_insert, lookup_abs.
    case_bool_decide; [by rewrite decide_True|by rewrite decide_False].
  - rewrite map_keys_set. case_bool_decide as Hin; [done|].
    apply NoDup_app. split_and!; [done| |apply NoDup_singleton].
    intros x Hx ->%list_elem_of_singleton. done.
  - apply map_eq. intros k'. rewrite lookup_abs, map_get_delete, lookup_delete, lookup_abs.
    case_bool_decide; [by rewrite decide_True|by rewrite decide_False].
  - apply NoDup_map_filter, Hnd.
  - unfold abs, map_size. symmetry. by apply map_size_list_to_map.
  - apply map_keys_set.
Qed.

End Map.

Lemma map_refines_gmap_witness :
  let m := [(js "a", 1); (js "b", 2)] in
  NoDup (map_keys m) /\ abs (map_set m (js "c") 3) = <[js "c" := 3]> (abs m).
Proof.
  intros m. assert (H : NoDup (map_keys m)) by (apply (bool_decide_unpack _); vm_compute; reflexivity).
  split; [exact H|]. exact (proj1 (proj2 (map_refines_gmap m (js "c") 3 H))).
Defined.

End JsMap.
