(* ===== verification/Scheduler.v ===== *)
(** * Scheduler: the monitoring jobs and their cron tasks

    Models [monitoringJobs] (src/flight-monitor-server.js, line 140), the
    handlers [POST /api/monitor/start] (lines 374-411),
    [POST /api/monitor/stop] (lines 414-426), [GET /api/monitor/status]
    (lines 429-442) and the [SIGINT] handler (lines 562-570).

    [monitoringJobs] is a JavaScript [Map] ([JsMap.v]).  The tasks that
    [cron.schedule] creates are kept in a registry
    with their URL and whether they are still scheduled; [task.destroy()]
    unschedules one.  The start handler is split at its [await]:
    [start_begin] is the part before the initial scan, [start_finish] the
    part after it, because other requests can run in between (see
    [Server.v]).  [cron.schedule] validates its expression and throws on
    an invalid one; [start_finish] is then [None], the handler's promise
    rejects before [monitoringJobs.set], and [start_resume] is the state
    either way.  node-cron reads the minute field [*/N] as the step
    values [0, N, 2N, ...] below 60 ([step_minutes]), which for [*/0] is
    empty and fails validation; a task runs at those minutes of every
    hour ([fires]), and [gap] is the time to its next run. *)

From S2P Require Import Prelude JsRegex JsNumber Extractor Notifier JsMap.
Import Notifier JsMap.

Module Scheduler.

(** ** State *)

Record job := {
  job_task : nat;
  job_url : jstring;
  job_intervalMinutes : nat;
  job_startTime : Z
}.

Record cron_task := {
  task_id : nat;
  task_url : jstring;
  task_expr : jstring;
  task_scheduled : bool
}.

Record sched := {
  monitoringJobs : list (jstring * job);
  tasks : list cron_task
}.

Definition sched_init : sched := {| monitoringJobs := []; tasks := [] |}.

(** ** Jobs and tasks *)

(** [`monitor-${url}`] *)
Definition jobId (url : jstring) : jstring := js "monitor-" ++ url.

(** [`*/${intervalMinutes} * * * *`] *)
Definition cronExpression (intervalMinutes : nat) : jstring :=
  js "*/" ++ show_nat intervalMinutes ++ js " * * * *".

(** ** [cron.schedule] (node-cron)

    node-cron reads the minute field [*/D] with its step-values
    conversion: [*] becomes the minutes [0..59], [D] is read with
    [parseInt], and the step keeps the minutes [v] with [v % D === 0].
    JavaScript's [v % 0] is [NaN], so [*/0] keeps no minute; node-cron's
    validation then rejects the field and [cron.schedule] throws.
    [cron_step] reads [D] from an expression of the shape the code builds,
    [*/D * * * *]. *)
Definition cron_step (e : jstring) : option jstring :=
  let d := take (length e - 10) (drop 2 e) in
  if bool_decide (e = js "*/" ++ d ++ js " * * * *") then Some d else None.

(** The minutes of the hour the step [D] keeps ([%] is [Z.rem]). *)
Definition step_minutes (d : Z) : list nat :=
  filter (fun v => d <> 0%Z /\ Z.rem (Z.of_nat v) d = 0%Z) (seq 0 60).

(** The minutes at which the task of [e] runs, or [None] when
    [cron.schedule(e, ...)] throws. *)
Definition cron_schedule (e : jstring) : option (list nat) :=
  match cron_step e ≫= parseInt with
  | Some d => match step_minutes d with [] => None | ms => Some ms end
  | None => None
  end.

(** [task.destroy()] *)
Definition destroy (id : nat) (ts : list cron_task) : list cron_task :=
  map (fun t => if Nat.eqb (task_id t) id
                then {| task_id := task_id t; task_url := task_url t; task_expr := task_expr t;
                        task_scheduled := false |}
                else t) ts.

(** ** Handlers *)

(** Lines 377-382: destroy the task of an existing job for the URL. *)
Definition start_begin (url : jstring) (s : sched) : sched :=
  match map_get (monitoringJobs s) (jobId url) with
  | Some j => {| monitoringJobs := monitoringJobs s; tasks := destroy (job_task j) (tasks s) |}
  | None => s
  end.

(** Lines 390-402, after the initial scan: [cron.schedule] the task, then
    set the job.  When [cron.schedule] throws, the handler's promise
    rejects at line 391: no task is scheduled, no job is set, and the
    task of the URL's previous job, which [start_begin] destroyed, stays
    destroyed. *)
Definition start_finish (url : jstring) (intervalMinutes : nat) (now : Z) (s : sched)
    : option sched :=
  match cron_schedule (cronExpression intervalMinutes) with
  | None => None
  | Some _ =>
      let id := length (tasks s) in
      let t := {| task_id := id; task_url := url; task_expr := cronExpression intervalMinutes;
                  task_scheduled := true |} in
      Some {| monitoringJobs := map_set (monitoringJobs s) (jobId url)
                                  {| job_task := id; job_url := url;
                                     job_intervalMinutes := intervalMinutes; job_startTime := now |};
              tasks := tasks s ++ [t] |}
  end.

(** The registry once the handler has resumed, whether [cron.schedule]
    returned or threw. *)
Definition start_resume (url : jstring) (intervalMinutes : nat) (now : Z) (s : sched) : sched :=
  default s (start_finish url intervalMinutes now s).

Inductive stop_response := StopOk | StopNotFound.

(** Lines 418-425. *)
Definition stop (url : jstring) (s : sched) : sched * stop_response :=
  match map_get (monitoringJobs s) (jobId url) with
  | Some j => ({| monitoringJobs := map_delete (monitoringJobs s) (jobId url);
                  tasks := destroy (job_task j) (tasks s) |}, StopOk)
  | None => (s, StopNotFound)
  end.

(** Lines 430-435: [activeJobs], in the order of the map. *)
Definition status (s : sched) : list (jstring * jstring * nat * Z) :=
  map (fun kv => (kv.1, job_url kv.2, job_intervalMinutes kv.2, job_startTime kv.2))
      (monitoringJobs s).

(** Lines 565-567: destroy the task of every job. *)
Definition sigint (s : sched) : sched :=
  {| monitoringJobs := monitoringJobs s;
     tasks := fold_left (fun ts kv => destroy (job_task kv.2) ts) (monitoringJobs s) (tasks s) |}.

(** ** When a task fires *)

(** A task with the minutes [ms] runs at [t] (minutes from the top of an
    hour) when [t]'s minute of the hour is one of them. *)
Definition fires (ms : list nat) (t : nat) : bool := bool_decide (t mod 60 ∈ ms).

(** Minutes from a run at [t] to the next one: the first [d] in
    [1 .. 60] at which the task runs. *)
Fixpoint first_fire (ms : list nat) (t fuel d : nat) : nat :=
  match fuel with
  | O => d
  | S fuel' => if fires ms (t + d) then d else first_fire ms t fuel' (S d)
  end.

Definition gap (ms : list nat) (t : nat) : nat := first_fire ms t 59 1.

(** The minutes of the hour divisible by [n]. *)
Definition minutes_every (n : nat) : list nat := filter (fun m => m mod n = 0) (seq 0 60).

(** A start request that no other request interleaves with: the
    handler's two halves run back to back. *)
Definition start (url : jstring) (intervalMinutes : nat) (now : Z) (s : sched) : sched :=
  start_resume url intervalMinutes now (start_begin url s).

(** The indices of the tasks still scheduled for [url]. *)
Definition scheduled_ids (url : jstring) (s : sched) : list nat :=
  map task_id (filter (fun t => task_scheduled t = true /\ task_url t = url) (tasks s)).

(** The task of a job is still scheduled. *)
Definition job_live (s : sched) (j : job) : bool :=
  match tasks s !! job_task j with Some t => task_scheduled t | None => false end.

(** The invariant of the registry while the start requests for the URLs
    [U] are between their two halves: a task's id is its index; a job is
    stored under the id of its URL and its task has that URL; a scheduled
    task has a URL outside [U] and is the task of that URL's job.  So a
    URL has at most one scheduled task, its job's. *)
Record ok_upto (U : list jstring) (s : sched) : Prop := {
  up_ids : forall (i : nat) (t : cron_task), tasks s !! i = Some t -> task_id t = i;
  up_jobs : forall (k : jstring) (j : job), map_get (monitoringJobs s) k = Some j ->
    k = jobId (job_url j) /\ exists t, tasks s !! job_task j = Some t /\ task_url t = job_url j;
  up_sched : forall (i : nat) (t : cron_task), tasks s !! i = Some t -> task_scheduled t = true ->
    (task_url t ∉ U) /\
    exists j, map_get (monitoringJobs s) (jobId (task_url t)) = Some j /\ job_task j = i
}.

(** The task of a job whose URL is outside [U] is scheduled: it fails
    once a restart's [cron.schedule] throws. *)
Definition live_upto (U : list jstring) (s : sched) : Prop :=
  forall k j, map_get (monitoringJobs s) k = Some j -> job_url j ∉ U ->
    exists t, tasks s !! job_task j = Some t /\ task_scheduled t = true.

Definition sched_ok (s : sched) : Prop := ok_upto [] s.

(** Every task's id is its index in the registry. *)
Definition ids_ok (s : sched) : Prop :=
  forall i t, tasks s !! i = Some t -> task_id t = i.

(** Task [i] is scheduled and no job refers to it: nothing can destroy it
    any more. *)
Definition orphan (i : nat) (s : sched) : Prop :=
  (exists t, tasks s !! i = Some t /\ task_scheduled t = true) /\
  forall k j, map_get (monitoringJobs s) k = Some j -> job_task j <> i.

(** The states reached by requests that run one at a time; with [pos]
    set, every start request asks for a positive interval. *)
Inductive seq_reach (pos : bool) : sched -> Prop :=
| seq_init : seq_reach pos sched_init
| seq_start url n now s : (pos = true -> 0 < n) -> seq_reach pos s -> seq_reach pos (start url n now s)
| seq_stop url s : seq_reach pos s -> seq_reach pos (fst (stop url s)).

(** ** What node-cron makes of the code's expression *)

Lemma cron_step_cronExpression n : cron_step (cronExpression n) = Some (show_nat n).
Proof.
  unfold cron_step, cronExpression.
  replace (length (js "*/" ++ show_nat n ++ js " * * * *") - 10) with (length (show_nat n))
    by (rewrite !length_app; change (length (js "*/")) with 2;
        change (length (js " * * * *")) with 8; lia).
  change (js "*/" ++ show_nat n ++ js " * * * *") with ([42; 47]%Z ++ show_nat n ++ js " * * * *").
  cbn [drop app]. rewrite drop_0, take_app_length. by rewrite bool_decide_true.
Qed.

Lemma step_minutes_of_nat n :
  step_minutes (Z.of_nat n) = if bool_decide (n = 0) then [] else minutes_every n.
Proof.
  unfold step_minutes, minutes_every. case_bool_decide as Hn.
  - apply filter_all_false. intros v _ [Hd _]. by subst.
  - apply list_filter_iff. intros v. rewrite Z.rem_mod_nonneg, <- Nat2Z.inj_mod by lia. lia.
Qed.

Lemma minutes_every_head n : n <> 0 -> exists ms, minutes_every n = 0 :: ms.
Proof.
  intros Hn. unfold minutes_every. cbn [seq]. rewrite filter_cons_True by apply Nat.Div0.mod_0_l.
  eauto.
Qed.

(** node-cron reads back the interval the code prints into the
    expression: [cron.schedule] throws for 0 and otherwise runs the task
    at the minutes divisible by the interval. *)
Lemma cron_schedule_cronExpression n :
  cron_schedule (cronExpression n) = if bool_decide (n = 0) then None else Some (minutes_every n).
Proof.
  unfold cron_schedule. rewrite cron_step_cronExpression. cbn [mbind option_bind].
  pose proof (proj1 (parseInt_show_nat n [] [] (Forall_nil_2 _) I)) as Hp.
  rewrite app_nil_l, app_nil_r in Hp. rewrite Hp.
  rewrite step_minutes_of_nat. case_bool_decide as Hn; [done|].
  by destruct (minutes_every_head n Hn) as [ms ->].
Qed.

Lemma start_finish_eq url n now s :
  start_finish url n now s =
    if bool_decide (n = 0) then None else
    Some {| monitoringJobs := map_set (monitoringJobs s) (jobId url)
                                {| job_task := length (tasks s); job_url := url;
                                   job_intervalMinutes := n; job_startTime := now |};
            tasks := tasks s ++ [{| task_id := length (tasks s); task_url := url;
                                    task_expr := cronExpression n; task_scheduled := true |}] |}.
Proof. unfold start_finish. rewrite cron_schedule_cronExpression. by case_bool_decide. Qed.

(** ** The cadence of a cron task *)

Lemma fires_mod ms t : fires ms t = fires ms (t mod 60).
Proof. unfold fires. by rewrite Nat.Div0.mod_mod. Qed.

Lemma first_fire_mod ms t fuel d : first_fire ms t fuel d = first_fire ms (t mod 60) fuel d.
Proof.
  revert d; induction fuel as [|fuel IH]; intros d; [done|]. cbn [first_fire].
  rewrite IH. unfold fires. by rewrite (Nat.Div0.add_mod_idemp_l t d 60).
Qed.

Lemma first_fire_le ms t fuel d : first_fire ms t fuel d <= d + fuel.
Proof.
  revert d; induction fuel as [|fuel IH]; intros d; simpl; [lia|].
  destruct (fires ms (t + d)); [lia|]. specialize (IH (S d)). lia.
Qed.

(** The cadence within one hour, decided for every step from 1 to 60. *)
Lemma cadence_table :
  forallb (fun n => Bool.eqb (forallb (fun t => negb (fires (minutes_every n) t) ||
                                                Nat.eqb (gap (minutes_every n) t) n) (seq 0 60))
                             (Nat.eqb (60 mod n) 0)) (seq 1 60) = true.
Proof. vm_compute. reflexivity. Qed.

Lemma cadence_hour n :
  1 <= n <= 60 ->
  (forall t, t < 60 -> fires (minutes_every n) t = true -> gap (minutes_every n) t = n) <->
  60 mod n = 0.
Proof.
  intros Hn. pose proof cadence_table as Htab. rewrite forallb_forall in Htab.
  specialize (Htab n (proj2 (in_seq 60 1 n) ltac:(lia))).
  apply Bool.eqb_prop in Htab. rewrite <- Nat.eqb_eq, <- Htab, forallb_forall.
  split.
  - intros U t Ht. apply in_seq in Ht. destruct (fires _ t) eqn:F; simpl; [|done].
    apply Nat.eqb_eq, U; [lia|done].
  - intros U t Ht F. specialize (U t (proj2 (in_seq 60 0 t) ltac:(lia))).
    rewrite F in U. simpl in U. by apply Nat.eqb_eq.
Qed.

Lemma cadence_every n :
  1 <= n -> (forall t, fires (minutes_every n) t = true -> gap (minutes_every n) t = n) <->
            60 mod n = 0.
Proof.
  intros Hn. destruct (Nat.le_gt_cases n 60) as [Hle|Hgt].
  - rewrite <- cadence_hour by lia. split; [auto|].
    intros U t F. unfold gap. rewrite first_fire_mod. apply U.
    + by apply Nat.mod_upper_bound.
    + by rewrite <- fires_mod.
  - split.
    + intros U. assert (F0 : fires (minutes_every n) 0 = true).
      { destruct (minutes_every_head n ltac:(lia)) as [ms ->]. unfold fires.
        apply bool_decide_eq_true. left. }
      specialize (U 0 F0). pose proof (first_fire_le (minutes_every n) 0 59 1). unfold gap in U. lia.
    + intros Hm. rewrite Nat.mod_small in Hm by lia. discriminate.
Qed.

(** C4: The start handler's [cron.schedule] throws exactly when the
    interval is 0.  Otherwise the task it schedules for the URL carries
    the expression [*/N * * * *], node-cron runs it at the minutes
    divisible by [N], and it runs every [N] minutes at a fixed cadence
    exactly when [N] divides 60: for other values the last gap of each
    hour is shorter ([*/7] runs at minute 56 and again 4 minutes later)
    and a value above 60 runs once an hour. *)
Theorem cron_cadence_uniform_iff url n now s :
  (start_finish url n now s = None <-> n = 0) /\
  (forall s', start_finish url n now s = Some s' ->
   exists t ms, last (tasks s') = Some t /\ task_url t = url /\ task_scheduled t = true /\
     task_expr t = cronExpression n /\ cron_schedule (task_expr t) = Some ms /\
     ((forall m, fires ms m = true -> gap ms m = n) <-> 60 mod n = 0)).
Proof.
  rewrite start_finish_eq. case_bool_decide as Hn; [split; [done|discriminate]|].
  split; [split; [discriminate|done]|]. intros s' [= <-].
  exists {| task_id := length (tasks s); task_url := url; task_expr := cronExpression n;
            task_scheduled := true |}, (minutes_every n).
  split_and!; [apply last_snoc|done|done|done| |].
  - cbn [task_expr]. rewrite cron_schedule_cronExpression. by rewrite bool_decide_false.
  - apply cadence_every. lia.
Qed.

Lemma jobId_inj u1 u2 : jobId u1 = jobId u2 -> u1 = u2.
Proof. apply app_inv_head. Qed.

(** ** The task registry *)

Lemma destroy_lookup id ts i :
  destroy id ts !! i = (fun t => if Nat.eqb (task_id t) id
    then {| task_id := task_id t; task_url := task_url t; task_expr := task_expr t;
            task_scheduled := false |} else t) <$> ts !! i.
Proof. apply list_lookup_fmap. Qed.

Lemma length_destroy id ts : length (destroy id ts) = length ts.
Proof. apply length_map. Qed.

(** A task of [destroy id ts] is the task of [ts] with the same id and
    URL, and it is scheduled only when its id is not [id]. *)
Lemma destroy_lookup_some id ts i t :
  destroy id ts !! i = Some t ->
  exists t0, ts !! i = Some t0 /\ task_id t = task_id t0 /\ task_url t = task_url t0 /\
    (task_scheduled t = true <-> task_scheduled t0 = true /\ task_id t0 <> id).
Proof.
  rewrite destroy_lookup. destruct (ts !! i) as [t0|]; simpl; [|discriminate].
  intros [= <-]. exists t0. destruct (Nat.eqb_spec (task_id t0) id); simpl;
    split_and!; try done; naive_solver.
Qed.

Lemma destroy_lookup_other id ts i t :
  ts !! i = Some t -> task_id t <> id -> destroy id ts !! i = Some t.
Proof.
  intros Ht Hne. rewrite destroy_lookup, Ht. simpl. by destruct (Nat.eqb_spec (task_id t) id).
Qed.

(** ** The invariant of the registry *)

Section Invariant.

Context (U : list jstring) (s : sched) (Hok : ok_upto U s).

(** Two jobs never share a task. *)
Lemma jobs_task_inj k k' j j' :
  map_get (monitoringJobs s) k = Some j -> map_get (monitoringJobs s) k' = Some j' ->
  job_task j = job_task j' -> k = k'.
Proof.
  intros Hk Hk' Heq.
  destruct (up_jobs _ _ Hok _ _ Hk) as [-> (t & Ht & Hu)].
  destruct (up_jobs _ _ Hok _ _ Hk') as [-> (t' & Ht' & Hu')].
  rewrite Heq, Ht' in Ht. injection Ht as ->. congruence.
Qed.

(** Destroying the task of the job at [jobId url] unschedules no task
    of another job and no task scheduled for another URL. *)
Lemma destroy_job_sched url j0 i t :
  map_get (monitoringJobs s) (jobId url) = Some j0 ->
  destroy (job_task j0) (tasks s) !! i = Some t -> task_scheduled t = true ->
  (task_url t ∉ U) /\ task_url t <> url /\
  exists j, map_get (monitoringJobs s) (jobId (task_url t)) = Some j /\ job_task j = i.
Proof.
  intros Hj0 (t0 & Ht0 & Hid & -> & Hsch)%destroy_lookup_some Hs.
  apply Hsch in Hs as [Hs Hne].
  destruct (up_sched _ _ Hok _ _ Ht0 Hs) as (Hu & j & Hj & Hji). split_and!; [done| |eauto].
  intros <-. rewrite Hj0 in Hj. injection Hj as <-.
  apply Hne. rewrite (up_ids _ _ Hok _ _ Ht0). done.
Qed.

Lemma destroy_job_live url j0 k j :
  live_upto U s ->
  map_get (monitoringJobs s) (jobId url) = Some j0 -> map_get (monitoringJobs s) k = Some j ->
  k <> jobId url -> job_url j ∉ U ->
  exists t, destroy (job_task j0) (tasks s) !! job_task j = Some t /\ task_scheduled t = true.
Proof.
  intros Hl Hj0 Hk Hne Hu. destruct (Hl _ _ Hk Hu) as (t & Ht & Hs).
  exists t. split; [|done]. apply destroy_lookup_other; [done|].
  rewrite (up_ids _ _ Hok _ _ Ht). intros Hid. exact (Hne (jobs_task_inj _ _ _ _ Hk Hj0 Hid)).
Qed.

Lemma destroy_job_jobs j0 k j :
  map_get (monitoringJobs s) k = Some j ->
  k = jobId (job_url j) /\
  exists t, destroy (job_task j0) (tasks s) !! job_task j = Some t /\ task_url t = job_url j.
Proof.
  intros Hk. destruct (up_jobs _ _ Hok _ _ Hk) as [Hkj (t & Ht & Hu)]. split; [done|].
  rewrite destroy_lookup, Ht. simpl. eexists. split; [done|].
  by destruct (Nat.eqb (task_id t) (job_task j0)).
Qed.

Lemma destroy_ids id i t : destroy id (tasks s) !! i = Some t -> task_id t = i.
Proof. intros (t0 & Ht0 & -> & _)%destroy_lookup_some. exact (up_ids _ _ Hok _ _ Ht0). Qed.

End Invariant.

Lemma start_begin_upto U url s : ok_upto U s -> ok_upto (url :: U) (start_begin url s).
Proof.
  intros Hok. unfold start_begin.
  destruct (map_get (monitoringJobs s) (jobId url)) as [j0|] eqn:Hj0; split; cbn.
  - exact (destroy_ids _ _ Hok _).
  - intros k j Hk. exact (destroy_job_jobs _ _ Hok _ _ _ Hk).
  - intros i t Ht Hs. destruct (destroy_job_sched _ _ Hok _ _ _ _ Hj0 Ht Hs) as (Hu & Hne & ?).
    split; [|done]. rewrite not_elem_of_cons. done.
  - exact (up_ids _ _ Hok).
  - exact (up_jobs _ _ Hok).
  - intros i t Ht Hs. destruct (up_sched _ _ Hok _ _ Ht Hs) as (Hu & j & Hj & Hji).
    split; [|eauto]. rewrite not_elem_of_cons. split; [|done]. intros <-. congruence.
Qed.

Lemma start_finish_upto U url n now s s' :
  start_finish url n now s = Some s' -> ok_upto (url :: U) s -> url ∉ U -> ok_upto U s'.
Proof.
  rewrite start_finish_eq. case_bool_decide; [discriminate|]. intros [= <-] Hok HU. split; cbn.
  - intros i t [[_ Ht]|[-> <-]]%lookup_snoc_Some; [exact (up_ids _ _ Hok _ _ Ht)|done].
  - intros k j. rewrite map_get_set. case_bool_decide as Hk.
    + intros [= <-]. subst k. split; [done|]. eexists.
      split; [apply lookup_snoc_Some; by right|done].
    + intros Hj. destruct (up_jobs _ _ Hok _ _ Hj) as [Hkj (t & Ht & Hu)].
      split; [done|]. exists t. split; [|done]. apply lookup_app_l_Some, Ht.
  - intros i t [[_ Ht]|[-> <-]]%lookup_snoc_Some Hs.
    + destruct (up_sched _ _ Hok _ _ Ht Hs) as (Hu & j & Hj & Hji).
      apply not_elem_of_cons in Hu as [Hne Hu]. split; [done|].
      exists j. rewrite map_get_set, bool_decide_false; [done|].
      intros Heq%jobId_inj. by apply Hne.
    + split; [done|]. eexists. by rewrite map_get_set, bool_decide_true.
Qed.

(** Once a start's URL leaves [U], the invariant holds for the smaller set. *)
Lemma ok_upto_cons U url s : ok_upto (url :: U) s -> ok_upto U s.
Proof.
  intros Hok. split; [exact (up_ids _ _ Hok)|exact (up_jobs _ _ Hok)|].
  intros i t Ht Hs. destruct (up_sched _ _ Hok _ _ Ht Hs) as [Hu ?].
  split; [|done]. by apply not_elem_of_cons in Hu as [_ ?].
Qed.

Lemma start_resume_upto U url n now s :
  ok_upto (url :: U) s -> url ∉ U -> ok_upto U (start_resume url n now s).
Proof.
  intros Hok HU. unfold start_resume. destruct (start_finish url n now s) eqn:E; cbn.
  - exact (start_finish_upto _ _ _ _ _ _ E Hok HU).
  - exact (ok_upto_cons _ _ _ Hok).
Qed.

Lemma stop_upto U url s : ok_upto U s -> ok_upto U (fst (stop url s)).
Proof.
  intros Hok. unfold stop.
  destruct (map_get (monitoringJobs s) (jobId url)) as [j0|] eqn:Hj0; [|done]. split; cbn.
  - exact (destroy_ids _ _ Hok _).
  - intros k j. rewrite map_get_delete. case_bool_decide; [discriminate|].
    intros Hk. exact (destroy_job_jobs _ _ Hok _ _ _ Hk).
  - intros i t Ht Hs. destruct (destroy_job_sched _ _ Hok _ _ _ _ Hj0 Ht Hs) as (Hu & Hne & j & Hj & Hji).
    split; [done|]. exists j. rewrite map_get_delete, bool_decide_false; [done|].
    intros Heq%jobId_inj. by apply Hne.
Qed.

(** ** Live jobs *)

Lemma job_live_spec s j :
  job_live s j = true <-> exists t, tasks s !! job_task j = Some t /\ task_scheduled t = true.
Proof. unfold job_live. destruct (tasks s !! job_task j); naive_solver. Qed.

Lemma live_init : live_upto [] sched_init.
Proof. intros k j Hk. discriminate. Qed.

Lemma live_start_begin U url s : ok_upto U s -> live_upto U s -> live_upto (url :: U) (start_begin url s).
Proof.
  intros Hok Hl. unfold start_begin.
  destruct (map_get (monitoringJobs s) (jobId url)) as [j0|] eqn:Hj0; intros k j Hk Hu;
    apply not_elem_of_cons in Hu as [Hne Hu]; [|exact (Hl _ _ Hk Hu)].
  apply (destroy_job_live _ _ Hok url _ k j Hl); [done|done| |done].
  destruct (up_jobs _ _ Hok _ _ Hk) as [-> _]. intros ?%jobId_inj. done.
Qed.

Lemma live_start_finish U url n now s s' :
  start_finish url n now s = Some s' -> ok_upto (url :: U) s -> live_upto (url :: U) s ->
  live_upto U s'.
Proof.
  rewrite start_finish_eq. case_bool_decide; [discriminate|]. intros [= <-] Hok Hl k j. cbn.
  rewrite map_get_set. case_bool_decide as Hk.
  - intros [= <-] _. eexists. split; [apply lookup_snoc_Some; by right|done].
  - intros Hj Hu. destruct (up_jobs _ _ Hok _ _ Hj) as [-> _].
    destruct (Hl _ _ Hj) as (t & Ht & Hs).
    { apply not_elem_of_cons. split; [|done]. intros Heq. apply Hk. by rewrite Heq. }
    exists t. split; [|done]. apply lookup_app_l_Some, Ht.
Qed.

Lemma live_stop U url s : ok_upto U s -> live_upto U s -> live_upto U (fst (stop url s)).
Proof.
  intros Hok Hl. unfold stop.
  destruct (map_get (monitoringJobs s) (jobId url)) as [j0|] eqn:Hj0; [|done].
  intros k j. cbn. rewrite map_get_delete. case_bool_decide; [discriminate|].
  intros Hk Hu. apply (destroy_job_live _ _ Hok url _ k j Hl); auto.
Qed.

(** ** Requests one at a time *)

Lemma sched_ok_init : sched_ok sched_init.
Proof. split; cbn; [intros i t Ht|intros k j Hk|intros i t Ht]; by rewrite ?lookup_nil in *. Qed.

Lemma start_begin_jobs url s : monitoringJobs (start_begin url s) = monitoringJobs s.
Proof. unfold start_begin. by destruct (map_get _ _). Qed.

Lemma stop_jobs url s : monitoringJobs (fst (stop url s)) = map_delete (monitoringJobs s) (jobId url).
Proof.
  unfold stop. destruct (map_get (monitoringJobs s) (jobId url)) eqn:E; [done|].
  symmetry. apply filter_all_true. intros [k v] Hkv Heq. cbn in Heq. subst k.
  apply map_get_none in E. apply E.
  apply list_elem_of_fmap. by exists (jobId url, v).
Qed.

Lemma start_ok url n now s : sched_ok s -> sched_ok (start url n now s).
Proof. intros Hok. apply start_resume_upto, not_elem_of_nil. by apply start_begin_upto. Qed.

Lemma stop_ok url s : sched_ok s -> sched_ok (fst (stop url s)).
Proof. apply stop_upto. Qed.

Lemma seq_reach_ok pos s : seq_reach pos s -> sched_ok s.
Proof.
  induction 1; [apply sched_ok_init|by apply start_ok|by apply stop_ok].
Qed.

Lemma start_live url n now s :
  0 < n -> sched_ok s -> live_upto [] s -> live_upto [] (start url n now s).
Proof.
  intros Hn Hok Hl. unfold start, start_resume.
  destruct (start_finish url n now (start_begin url s)) as [s'|] eqn:E; cbn [default id].
  - apply (live_start_finish [] url n now _ _ E); [by apply start_begin_upto|by apply live_start_begin].
  - rewrite start_finish_eq, bool_decide_false in E by lia. discriminate.
Qed.

Lemma seq_reach_live s : seq_reach true s -> live_upto [] s.
Proof.
  induction 1 as [|url n now s Hn Hr IH|url s Hr IH].
  - apply live_init.
  - apply start_live; [by apply Hn|exact (seq_reach_ok _ _ Hr)|done].
  - apply live_stop; [exact (seq_reach_ok _ _ Hr)|done].
Qed.

Lemma elem_of_scheduled_ids url s y :
  y ∈ scheduled_ids url s <->
  exists i t, tasks s !! i = Some t /\ task_scheduled t = true /\ task_url t = url /\ y = task_id t.
Proof.
  unfold scheduled_ids. rewrite list_elem_of_fmap. setoid_rewrite list_elem_of_filter.
  setoid_rewrite list_elem_of_lookup. naive_solver.
Qed.

(** The tasks scheduled for a URL: none while its start request waits
    for the initial scan, otherwise the task of its job if that task is
    still scheduled, and none when it has no job. *)
Lemma ok_upto_scheduled_ids U url s :
  ok_upto U s ->
  scheduled_ids url s = if bool_decide (url ∈ U) then [] else
                        match map_get (monitoringJobs s) (jobId url) with
                        | Some j => if job_live s j then [job_task j] else [] | None => [] end.
Proof.
  intros Hok. assert (Hnd : NoDup (scheduled_ids url s)).
  { apply NoDup_map_filter, NoDup_map_index, (up_ids _ _ Hok). }
  case_bool_decide as HU.
  { apply elem_of_nil_inv. intros y (i & t & Ht & Hs & <- & _)%elem_of_scheduled_ids.
    by destruct (up_sched _ _ Hok _ _ Ht Hs) as [? _]. }
  destruct (map_get (monitoringJobs s) (jobId url)) as [j|] eqn:Hj.
  - destruct (job_live s j) eqn:Hlive.
    + apply NoDup_singleton_iff; [done|]. intros y. rewrite elem_of_scheduled_ids. split.
      * intros (i & t & Ht & Hs & <- & ->).
        destruct (up_sched _ _ Hok _ _ Ht Hs) as (_ & j' & Hj' & <-).
        rewrite Hj in Hj'. injection Hj' as <-. exact (up_ids _ _ Hok _ _ Ht).
      * intros ->. destruct (up_jobs _ _ Hok _ _ Hj) as [Hu%jobId_inj (t & Ht & Htu)].
        apply job_live_spec in Hlive as (t' & Ht' & Hs).
        rewrite Ht in Ht'. injection Ht' as <-.
        exists (job_task j), t. split_and!; [done|done|congruence|].
        symmetry. exact (up_ids _ _ Hok _ _ Ht).
    + apply elem_of_nil_inv. intros y (i & t & Ht & Hs & <- & _)%elem_of_scheduled_ids.
      destruct (up_sched _ _ Hok _ _ Ht Hs) as (_ & j' & Hj' & Hi).
      rewrite Hj in Hj'. injection Hj' as <-. rewrite <- Hi in Ht.
      assert (job_live s j = true) by (apply job_live_spec; eauto). congruence.
  - apply elem_of_nil_inv. intros y (i & t & Ht & Hs & <- & _)%elem_of_scheduled_ids.
    destruct (up_sched _ _ Hok _ _ Ht Hs) as (_ & j & Hj' & _). congruence.
Qed.

(** C3: When the start, stop and status requests run one at a time, every
    URL has at most one scheduled cron task, the task of its job, and a
    URL with no job has none: restarting a URL destroys its old task and
    stopping it leaves nothing running for it.  When every start asked
    for a positive interval, every monitored URL has exactly its job's
    task scheduled. *)
Theorem seq_one_task_per_url pos s url :
  seq_reach pos s ->
  scheduled_ids url s = match map_get (monitoringJobs s) (jobId url) with
                        | Some j => if job_live s j then [job_task j] else [] | None => [] end /\
  (pos = true ->
   scheduled_ids url s = match map_get (monitoringJobs s) (jobId url) with
                         | Some j => [job_task j] | None => [] end).
Proof.
  intros Hr. pose proof (ok_upto_scheduled_ids [] url s (seq_reach_ok pos s Hr)) as E.
  rewrite bool_decide_false in E by apply not_elem_of_nil. split; [done|].
  intros ->. rewrite E. destruct (map_get (monitoringJobs s) (jobId url)) as [j|] eqn:Hj; [|done].
  destruct (seq_reach_live s Hr _ _ Hj (not_elem_of_nil _)) as (t & Ht & Hs).
  unfold job_live. by rewrite Ht, Hs.
Qed.

(** C25: A restart with interval 0 of a monitored URL stops its monitoring
    but keeps reporting it.  The start handler destroys the running task
    before its initial scan (line 381), then [cron.schedule] throws on
    [*/0] (line 391): the job stays in [monitoringJobs] with its old
    interval and start time, [GET /api/monitor/status] lists it
    unchanged, and no task runs for the URL any more. *)
Theorem restart_zero_stops_monitoring s url now j :
  seq_reach true s -> map_get (monitoringJobs s) (jobId url) = Some j ->
  scheduled_ids url s = [job_task j] /\
  start_finish url 0 now (start_begin url s) = None /\
  monitoringJobs (start url 0 now s) = monitoringJobs s /\
  status (start url 0 now s) = status s /\
  scheduled_ids url (start url 0 now s) = [].
Proof.
  intros Hr Hj. pose proof (seq_reach_ok true s Hr) as Hok.
  assert (E : start url 0 now s = start_begin url s).
  { unfold start, start_resume. by rewrite start_finish_eq. }
  split_and!.
  - rewrite (proj2 (seq_one_task_per_url true s url Hr) eq_refl), Hj. done.
  - by rewrite start_finish_eq.
  - by rewrite E, start_begin_jobs.
  - unfold status. by rewrite E, start_begin_jobs.
  - rewrite E, (ok_upto_scheduled_ids [url] url _ (start_begin_upto [] url s Hok)).
    by rewrite bool_decide_true by left.
Qed.

(** C34: [GET /api/monitor/status] lists the jobs in the order of the
    [Map]: a start with a positive interval for a monitored URL replaces
    its entry in place, a start for a new URL appends it, and a stop
    removes the URL's entry and leaves the others in order. *)
Theorem status_order s url n now :
  0 < n ->
  status (start url n now s) =
    match map_get (monitoringJobs s) (jobId url) with
    | Some _ => map (fun e => if bool_decide (e.1.1.1 = jobId url) then (jobId url, url, n, now) else e)
                    (status s)
    | None => status s ++ [(jobId url, url, n, now)]
    end /\
  status (fst (stop url s)) = filter (fun e => e.1.1.1 <> jobId url) (status s).
Proof.
  intros Hn. split.
  - unfold start, start_resume. rewrite start_finish_eq, bool_decide_false by lia. cbn [default id].
    unfold status. cbn [monitoringJobs]. rewrite start_begin_jobs. unfold map_set.
    destruct (map_get (monitoringJobs s) (jobId url)).
    + rewrite !map_map. apply map_ext. intros [k v]. cbn. by case_bool_decide.
    + by rewrite map_app.
  - unfold status. rewrite stop_jobs. unfold map_delete. by apply map_filter_commute.
Qed.

(** The invariant depends on [U] only through its elements. *)
Lemma ok_upto_equiv U U' s : (forall x, x ∈ U <-> x ∈ U') -> ok_upto U s -> ok_upto U' s.
Proof.
  intros HU Hok. split.
  - exact (up_ids _ _ Hok).
  - exact (up_jobs _ _ Hok).
  - intros i t Ht Hs. destruct (up_sched _ _ Hok _ _ Ht Hs) as [Hu ?]. by rewrite <- HU.
Qed.

Lemma ok_upto_ids U s : ok_upto U s -> ids_ok s.
Proof. intros Hok. exact (up_ids _ _ Hok). Qed.

(** ** [SIGINT] *)

Lemma fold_destroy_sched (jobs : list (jstring * job)) ts i t :
  fold_left (fun ts kv => destroy (job_task kv.2) ts) jobs ts !! i = Some t ->
  task_scheduled t = true ->
  exists t0, ts !! i = Some t0 /\ task_scheduled t0 = true /\
    Forall (fun kv => job_task kv.2 <> task_id t0) jobs.
Proof.
  revert ts t. induction jobs as [|kv jobs IH]; intros ts t Ht Hs; simpl in Ht.
  - exists t. split_and!; [done|done|constructor].
  - destruct (IH _ _ Ht Hs) as (t1 & Ht1 & Hs1 & Hall).
    apply destroy_lookup_some in Ht1 as (t0 & Ht0 & Hid & _ & Hsch).
    apply Hsch in Hs1 as [Hs0 Hne]. exists t0. split_and!; [done|done|].
    constructor; [congruence|]. by rewrite <- Hid.
Qed.

(** In a valid registry, the [SIGINT] handler unschedules every task. *)
Lemma sigint_upto U s :
  ok_upto U s -> forall i t, tasks (sigint s) !! i = Some t -> task_scheduled t = false.
Proof.
  intros Hok i t Ht. destruct (task_scheduled t) eqn:Hs; [|done]. exfalso.
  destruct (fold_destroy_sched _ _ _ _ Ht Hs) as (t0 & Ht0 & Hs0 & Hall).
  destruct (up_sched _ _ Hok _ _ Ht0 Hs0) as (_ & j & Hj & Hji).
  apply map_get_some in Hj. rewrite Forall_forall in Hall.
  apply (Hall _ Hj). cbn. rewrite Hji. symmetry. exact (up_ids _ _ Hok _ _ Ht0).
Qed.

(** ** Orphaned tasks *)

Lemma ids_ok_destroy id ts :
  (forall i t, ts !! i = Some t -> task_id t = i) ->
  forall i t, destroy id ts !! i = Some t -> task_id t = i.
Proof. intros Hids i t (t0 & Ht0 & -> & _)%destroy_lookup_some. exact (Hids _ _ Ht0). Qed.

Lemma ids_ok_start_begin url s : ids_ok s -> ids_ok (start_begin url s).
Proof. intros Hids. unfold start_begin. destruct (map_get _ _); [exact (ids_ok_destroy _ _ Hids)|done]. Qed.

Lemma ids_ok_start_resume url n now s : ids_ok s -> ids_ok (start_resume url n now s).
Proof.
  intros Hids. unfold start_resume. rewrite start_finish_eq. case_bool_decide; [done|].
  intros i t [[_ Ht]|[-> <-]]%lookup_snoc_Some; [exact (Hids _ _ Ht)|done].
Qed.

Lemma ids_ok_stop url s : ids_ok s -> ids_ok (fst (stop url s)).
Proof. intros Hids. unfold stop. destruct (map_get _ _); [exact (ids_ok_destroy _ _ Hids)|done]. Qed.

(** Destroying the task of a job leaves an orphan alone. *)
Lemma orphan_destroy i s j0 :
  ids_ok s -> orphan i s -> job_task j0 <> i ->
  exists t, destroy (job_task j0) (tasks s) !! i = Some t /\ task_scheduled t = true.
Proof.
  intros Hids [(t & Ht & Hs) _] Hne. exists t. split; [|done].
  apply destroy_lookup_other; [done|]. rewrite (Hids _ _ Ht). congruence.
Qed.

Lemma orphan_start_begin i url s : ids_ok s -> orphan i s -> orphan i (start_begin url s).
Proof.
  intros Hids Ho. unfold start_begin.
  destruct (map_get (monitoringJobs s) (jobId url)) as [j0|] eqn:Hj0; [|done].
  split; [|exact (proj2 Ho)]. apply (orphan_destroy _ _ _ Hids Ho). exact (proj2 Ho _ _ Hj0).
Qed.

Lemma orphan_start_resume i url n now s : orphan i s -> orphan i (start_resume url n now s).
Proof.
  intros [(t & Ht & Hs) Hno]. unfold start_resume. rewrite start_finish_eq.
  case_bool_decide; [split; eauto|]. split; cbn.
  - exists t. split; [by apply lookup_app_l_Some|done].
  - intros k j. rewrite map_get_set. case_bool_decide.
    + intros [= <-]. cbn. apply lookup_lt_Some in Ht. lia.
    + apply Hno.
Qed.

Lemma orphan_stop i url s : ids_ok s -> orphan i s -> orphan i (fst (stop url s)).
Proof.
  intros Hids Ho. unfold stop.
  destruct (map_get (monitoringJobs s) (jobId url)) as [j0|] eqn:Hj0; [|done].
  split; cbn.
  - apply (orphan_destroy _ _ _ Hids Ho). exact (proj2 Ho _ _ Hj0).
  - intros k j. rewrite map_get_delete. case_bool_decide; [discriminate|]. apply (proj2 Ho).
Qed.

(** ** Witnesses *)

Lemma cron_cadence_uniform_iff_witness :
  let u := js "https://www.tustus.co.il/Arkia/Home" in
  start_finish u 0 0 sched_init = None /\
  exists s', start_finish u 5 0 sched_init = Some s' /\
    exists t ms, last (tasks s') = Some t /\ cron_schedule (task_expr t) = Some ms /\
      (forall m, fires ms m = true -> gap ms m = 5).
Proof.
  intros u. split; [exact (proj2 (proj1 (cron_cadence_uniform_iff u 0 0 sched_init)) eq_refl)|].
  eexists. split; [reflexivity|].
  destruct (proj2 (cron_cadence_uniform_iff u 5 0 sched_init) _ eq_refl)
    as (t & ms & Hl & _ & _ & _ & Hc & Hiff).
  exists t, ms. split_and!; [exact Hl|exact Hc|apply Hiff; reflexivity].
Defined.

Lemma seq_one_task_per_url_witness :
  let u := js "https://www.tustus.co.il/Arkia/Home" in
  let s := start u 5 0 (start u 1 0 sched_init) in
  seq_reach true s /\ scheduled_ids u s = [1].
Proof.
  intros u s. assert (H : seq_reach true s).
  { apply seq_start; [intros _; lia|]. apply seq_start; [intros _; lia|]. apply seq_init. }
  split; [exact H|]. rewrite (proj2 (seq_one_task_per_url true s u H) eq_refl). vm_compute. reflexivity.
Defined.

Lemma restart_zero_stops_monitoring_witness :
  let u := js "https://www.tustus.co.il/Arkia/Home" in
  let s := start u 5 0 sched_init in
  seq_reach true s /\
  map_get (monitoringJobs s) (jobId u) =
    Some {| job_task := 0; job_url := u; job_intervalMinutes := 5; job_startTime := 0 |} /\
  scheduled_ids u (start u 0 1 s) = [].
Proof.
  intros u s. assert (H : seq_reach true s) by (apply seq_start; [intros _; lia|apply seq_init]).
  assert (Hj : map_get (monitoringJobs s) (jobId u) =
    Some {| job_task := 0; job_url := u; job_intervalMinutes := 5; job_startTime := 0 |})
    by (vm_compute; reflexivity).
  split_and!; [exact H|exact Hj|].
  exact (proj2 (proj2 (proj2 (proj2 (restart_zero_stops_monitoring s u 1 _ H Hj))))).
Defined.

Lemma status_order_witness :
  let u := js "https://www.tustus.co.il/Arkia/Home" in
  0 < 5 /\ status (start u 5 0 sched_init) = status sched_init ++ [(jobId u, u, 5, 0%Z)].
Proof.
  intros u. split; [lia|]. exact (proj1 (status_order sched_init u 5 0 ltac:(lia))).
Defined.

End Scheduler.
