(* ===== verification/Endpoints.v ===== *)
(** * Endpoints: the responses of the remaining HTTP handlers

    Models the handlers of src/flight-monitor-server.js that shape a
    response from the state or from one call: [POST /api/scan]
    (lines 355-371), the response of [POST /api/monitor/start] once its
    initial scan is done (lines 404-410), [GET /api/monitor/status]
    (lines 429-442),
    [GET /api/health] (lines 478-489), [POST /api/sms/test]
    (lines 491-526) and [GET /api/sms/status] (lines 539-549).  A JSON
    body is a record; a field the request leaves out is [None]
    ([undefined]).  [POST /api/sms/test] awaits the transport: it is split
    like [sendSMSAlert] into the part before the [await] and the response
    built from the transport's answer. *)

From S2P Require Import Prelude JsRegex JsNumber Extractor HistoryStore Notifier Pipeline JsMap Scheduler.
Import Extractor HistoryStore Notifier Pipeline JsMap Scheduler.

Module Endpoints.

(** ** [POST /api/scan] *)

(** [const { url = 'https://www.tustus.co.il/Arkia/Home' } = req.body]:
    the default applies when the field is [undefined]. *)
Definition default_url (url : option jstring) : jstring :=
  default (js "https://www.tustus.co.il/Arkia/Home") url.

(** [!result.error]: a missing error and an empty message are falsy. *)
Definition not_error (e : option jstring) : bool :=
  match e with None => true | Some [] => true | Some (_ :: _) => false end.

Record scan_response := {
  scan_success : bool;
  scan_body : scan_result
}.

(** [res.json({ success: !result.error, ...result })]; [scanWebsite]
    catches every exception, so the [catch] of lines 364-370 never runs. *)
Definition scan_endpoint_response (r : scan_result) : scan_response :=
  {| scan_success := not_error (sr_error r); scan_body := r |}.

(** ** [POST /api/monitor/start], after the initial scan *)

(** Lines 404-410: the response once the job is set. *)
Record start_response := {
  start_success : bool;
  start_jobId : jstring;
  start_message : jstring;
  start_intervalMinutes : nat;
  start_initialResult : scan_result
}.

Definition start_endpoint_response (url : jstring) (intervalMinutes : nat) (initialResult : scan_result)
    : start_response :=
  {| start_success := true; start_jobId := jobId url;
     start_message := js "Monitoring started for " ++ url;
     start_intervalMinutes := intervalMinutes; start_initialResult := initialResult |}.

(** ** [GET /api/monitor/status] *)

Record monitor_status := {
  ms_activeJobs : list (jstring * jstring * nat * Z);
  ms_totalJobs : nat;
  ms_totalScans : nat
}.

Definition status_endpoint (st : pstate) (s : sched) : monitor_status :=
  {| ms_activeJobs := status s; ms_totalJobs := length (status s);
     ms_totalScans := length (scanHistory st) |}.

(** ** [GET /api/health] *)

Record health := {
  h_status : jstring;
  h_timestamp : Z;
  h_activeJobs : nat;
  h_totalScans : nat;
  h_currentDestinations : nat;
  h_smsConfigured : bool;
  h_totalSMSSent : nat
}.

Definition health_endpoint (cfg : sms_config) (now : Z) (st : pstate) (s : sched) : health :=
  {| h_status := js "ok"; h_timestamp := now;
     h_activeJobs := map_size (monitoringJobs s);
     h_totalScans := length (scanHistory st);
     h_currentDestinations := length (lastDestinations st);
     h_smsConfigured := twilioClient_present cfg;
     h_totalSMSSent := length (smsHistory st) |}.

(** ** [POST /api/sms/test] *)

(** The message the handler hands to [twilioClient.messages.create]; its
    [to] may be [undefined]. *)
Record test_message := {
  tm_body : jstring;
  tm_from : option jstring;
  tm_to : option jstring
}.

Inductive sms_test_response :=
| SmsTestNotConfigured                (* status 400 *)
| SmsTestSent (sid : jstring)         (* success, sid *)
| SmsTestFailed (message : jstring).  (* status 500 *)

(** [a || b] on optional strings. *)
Definition or_else (a b : option jstring) : option jstring := if truthy a then a else b.

(** The default [testMessage] of line 502, with the local time [ts]. *)
Definition default_test_message (ts : jstring) : jstring :=
  js "🧪 Test SMS from Flight Monitor" ++ nl ++ ts ++ nl ++ nl ++
  js "SMS alerts are working correctly!".

(** Lines 493-511: [None] is the early return with status 400. *)
Definition sms_test_start (cfg : sms_config) (phoneNumber message : option jstring)
    (ts : jstring) : option test_message :=
  if negb (twilioClient_present cfg) then None
  else Some {| tm_body := default (default_test_message ts) (or_else message None);
               tm_from := TWILIO_PHONE_NUMBER cfg;
               tm_to := or_else phoneNumber (ALERT_PHONE_NUMBER cfg) |}.

(** Lines 513-525, after the [await]. *)
Definition sms_test_finish (t : transport_result) : sms_test_response :=
  match t with
  | TransportSid sid => SmsTestSent sid
  | TransportThrows e => SmsTestFailed e
  end.

Definition sms_test_endpoint (cfg : sms_config) (phoneNumber message : option jstring)
    (ts : jstring) (t : transport_result) : sms_test_response :=
  match sms_test_start cfg phoneNumber message ts with
  | None => SmsTestNotConfigured
  | Some _ => sms_test_finish t
  end.

(** ** [GET /api/sms/status] *)

Record sms_status := {
  ss_configured : bool;
  ss_hasAccountSid : bool;
  ss_hasAuthToken : bool;
  ss_hasFromNumber : bool;
  ss_hasAlertNumber : bool;
  ss_totalSMSSent : nat
}.

Definition sms_status_endpoint (cfg : sms_config) (st : pstate) : sms_status :=
  {| ss_configured := twilioClient_present cfg;
     ss_hasAccountSid := truthy (TWILIO_ACCOUNT_SID cfg);
     ss_hasAuthToken := truthy (TWILIO_AUTH_TOKEN cfg);
     ss_hasFromNumber := truthy (TWILIO_PHONE_NUMBER cfg);
     ss_hasAlertNumber := truthy (ALERT_PHONE_NUMBER cfg);
     ss_totalSMSSent := length (smsHistory st) |}.

(** ** Properties *)

Lemma http_error_nonempty status text : http_error status text <> [].
Proof. unfold http_error. change (js "HTTP ") with (72%Z :: js "TTP "). discriminate. Qed.

(** The error field of the result of [scanWebsite]. *)
Lemma scanWebsite_error_field `{ExtractionStrategy} cfg env url o st :
  sr_error (snd (fst (scanWebsite cfg env url o st))) =
  match fetch_ok o with Some _ => None | None => Some (fetch_error o) end.
Proof.
  unfold scanWebsite, fetch_ok. destruct o as [status text body|msg]; [|done].
  destruct ((200 <=? status) && (status <? 300)); reflexivity.
Qed.

(** [unshift] then [pop] when over the cap keeps the new element first. *)
Lemma push_capped_head {A} cap (x : A) l : 1 <= cap -> push_capped cap x l !! 0 = Some x.
Proof.
  intros Hc. unfold push_capped, unshift, pop. destruct (_ <? _) eqn:C; [|done].
  apply Nat.ltb_lt in C. destruct l as [|y l]; cbn in *; [lia|done].
Qed.

(** Every completed fetch records its result at the head of [scanHistory]. *)
Lemma scanWebsite_recorded `{ExtractionStrategy} cfg env url o st :
  scanHistory (fst (fst (scanWebsite cfg env url o st))) !! 0 =
    Some (snd (fst (scanWebsite cfg env url o st))) /\
  sr_url (snd (fst (scanWebsite cfg env url o st))) = url.
Proof.
  unfold scanWebsite, scan_failed, scan_succeeded, addScanResult.
  destruct o as [status text body|msg]; [destruct ((200 <=? status) && (status <? 300))|];
    cbn; split; try done.
  unfold record_scan. apply push_capped_head. unfold scan_cap. lia.
Qed.

(** The [success] field of the response to a scan. *)
Lemma scan_success_iff `{ExtractionStrategy} cfg env url o st :
  not_error (sr_error (snd (fst (scanWebsite cfg env url o st)))) = true <->
  is_Some (fetch_ok o) \/ o = FetchThrows [].
Proof.
  rewrite scanWebsite_error_field. unfold fetch_ok, fetch_error.
  destruct o as [status text body|[|c msg]].
  - destruct ((200 <=? status) && (status <? 300)); cbn; [split; eauto|].
    destruct (http_error status text) eqn:E; [by destruct (http_error_nonempty status text)|].
    split; [discriminate|]. by intros [[? ?]|?].
  - split; auto.
  - split; [discriminate|]. by intros [[? ?]|?].
Qed.

(** C31: [POST /api/sms/test] answers 400 without contacting the
    transport when there is no Twilio client; otherwise it sends the
    given message, or the default test message when none (or an empty
    one) is given, from [TWILIO_PHONE_NUMBER] to the given number, or to
    [ALERT_PHONE_NUMBER] when none is given, and answers with what the
    transport reports. *)
Theorem sms_test_endpoint_spec cfg phone msg ts t :
  (twilioClient_present cfg = false ->
     sms_test_start cfg phone msg ts = None /\
     sms_test_endpoint cfg phone msg ts t = SmsTestNotConfigured) /\
  (twilioClient_present cfg = true ->
     sms_test_start cfg phone msg ts =
       Some {| tm_body := if truthy msg then default [] msg else default_test_message ts;
               tm_from := TWILIO_PHONE_NUMBER cfg;
               tm_to := if truthy phone then phone else ALERT_PHONE_NUMBER cfg |} /\
     sms_test_endpoint cfg phone msg ts t = sms_test_finish t).
Proof.
  unfold sms_test_endpoint, sms_test_start, or_else.
  split; intros Hc; rewrite Hc; cbn [negb]; [done|].
  split; [|done]. f_equal. f_equal. destruct (truthy msg) eqn:E; [|done].
  destruct msg; [done|discriminate].
Qed.

Lemma sms_test_endpoint_spec_witness :
  let cfg := {| TWILIO_ACCOUNT_SID := Some (js "AC1"); TWILIO_AUTH_TOKEN := Some (js "t");
                TWILIO_PHONE_NUMBER := Some (js "+1555"); ALERT_PHONE_NUMBER := Some (js "+972");
                twilio_constructs := true |} in
  twilioClient_present cfg = true /\
  option_map tm_to (sms_test_start cfg None (Some []) (js "1/1/2025")) = Some (Some (js "+972")).
Proof.
  intros cfg. assert (H : twilioClient_present cfg = true) by reflexivity. split; [exact H|].
  rewrite (proj1 ((proj2 (sms_test_endpoint_spec cfg None (Some []) (js "1/1/2025")
                           (TransportSid []))) H)).
  reflexivity.
Defined.

End Endpoints.
