(* ===== verification/Server.v ===== *)
(** * Server: the requests, the timers and the callbacks, interleaved

    The server (src/flight-monitor-server.js) is one JavaScript event
    loop shared by the HTTP handlers (lines 352-536), the cron callbacks
    scheduled at line 391 and the completions of [fetch] (line 306) and
    of the SMS transport (line 178).  A handler or callback runs without
    interruption up to its next [await]; what happens after the [await]
    is a separate step, and any other step can come in between.

    [world] holds the global state of [Pipeline.v] ([scanHistory],
    [lastDestinations], [smsHistory]), the registry of [Scheduler.v]
    ([monitoringJobs] and the cron tasks), and the activities in flight:
    a scan waiting for its fetch, with what started it, or an SMS waiting
    for the transport.  [step] has one rule per event.  The flag
    [serial] restricts the clients: when it is set, a client never sends
    [POST /api/monitor/start] for a URL while an earlier start for the
    same URL is still waiting for its initial scan. *)

From S2P Require Import Prelude JsRegex JsNumber Extractor DiffEngine HistoryStore Notifier Pipeline JsMap Scheduler.
Import Extractor HistoryStore Notifier Pipeline JsMap Scheduler.

Module Server.

(** What started a scan: [POST /api/scan] (line 356), the initial scan of
    [POST /api/monitor/start] (line 387, with the interval of the job it
    will create) or a cron task (line 392). *)
Inductive origin := OScanRequest | OStart (intervalMinutes : nat) | OCron.

Inductive pending :=
| PScan (o : origin) (url : jstring)
| PSms (changes : list jstring) (msg : outbound).

Record world := {
  ps : pstate;
  sc : sched;
  inflight : list pending
}.

Definition world_init : world := {| ps := pstate_init; sc := sched_init; inflight := [] |}.

(** The URLs whose start request waits for its initial scan. *)
Definition start_urls (l : list pending) : list jstring :=
  omap (fun p => match p with PScan (OStart _) url => Some url | _ => None end) l.

Section Steps.

Context `{ExtractionStrategy}.
Variable cfg : sms_config.
Variable serial : bool.

(** The fetch of a scan completes with [out] at time [env]: the rest of
    [scanWebsite] runs, an SMS goes out if [addScanResult] sends one, and
    for the initial scan of a start request the handler resumes (lines
    390-402: schedule the task, set the job). *)
Definition fetch_done (env : scan_env) (o : origin) (url : jstring) (out : fetch_outcome)
    (pre post : list pending) (w : world) : world :=
  let '(st', r, sms) := scanWebsite cfg env url out (ps w) in
  {| ps := st';
     sc := match o with
           | OStart n => start_resume url n (env_resume env) (sc w)
           | _ => sc w
           end;
     inflight := pre ++ post ++ match sms with
                               | Some ob => [PSms (sr_changes r) ob]
                               | None => []
                               end |}.

Inductive step : world -> world -> Prop :=
(** [POST /api/scan]: the scan starts its fetch. *)
| step_scan_request w url :
    step w {| ps := ps w; sc := sc w; inflight := PScan OScanRequest url :: inflight w |}
(** [POST /api/monitor/start], up to its [await] (lines 375-387). *)
| step_start_request w url n :
    (serial = true -> url ∉ start_urls (inflight w)) ->
    step w {| ps := ps w; sc := start_begin url (sc w);
              inflight := PScan (OStart n) url :: inflight w |}
(** [POST /api/monitor/stop] (lines 415-425), synchronous. *)
| step_stop_request w url :
    step w {| ps := ps w; sc := fst (stop url (sc w)); inflight := inflight w |}
(** A scheduled task fires and its callback starts a scan. *)
| step_cron_fire w i t :
    tasks (sc w) !! i = Some t -> task_scheduled t = true ->
    step w {| ps := ps w; sc := sc w; inflight := PScan OCron (task_url t) :: inflight w |}
(** A fetch completes. *)
| step_fetch_done w pre post o url env out :
    inflight w = pre ++ PScan o url :: post ->
    step w (fetch_done env o url out pre post w)
(** The SMS transport answers (the [.then] of line 178). *)
| step_sms_done w pre post changes ob now tr :
    inflight w = pre ++ PSms changes ob :: post ->
    step w {| ps := sms_done cfg now changes tr (ps w); sc := sc w; inflight := pre ++ post |}.

Inductive reach : world -> Prop :=
| reach_init : reach world_init
| reach_step w w' : reach w -> step w w' -> reach w'.

Inductive steps : world -> world -> Prop :=
| steps_refl w : steps w w
| steps_cons w w' w'' : step w w' -> steps w' w'' -> steps w w''.

End Steps.

(** ** Two start requests for one URL, interleaved *)

(** From the initial state, two [POST /api/monitor/start] for [u] are
    sent before the first one's initial scan returns; both scans fail,
    the first to complete first; then [POST /api/monitor/stop] for
    [u]. *)
Definition race_env : scan_env := {| env_now := 0; env_date := 0; env_resume := 0; env_locale_time := [] |}.

Definition race_world (u : jstring) : world :=
  let w1 := {| ps := pstate_init; sc := start_begin u sched_init;
               inflight := [PScan (OStart 1) u] |} in
  let w2 := {| ps := ps w1; sc := start_begin u (sc w1);
               inflight := PScan (OStart 1) u :: inflight w1 |} in
  let w3 := fetch_done no_sms race_env (OStart 1) u (FetchThrows []) [] [PScan (OStart 1) u] w2 in
  let w4 := fetch_done no_sms race_env (OStart 1) u (FetchThrows []) [] [] w3 in
  {| ps := ps w4; sc := fst (stop u (sc w4)); inflight := inflight w4 |}.

(** One start request for [u], alone: its initial scan fails. *)
Definition serial_world (u : jstring) : world :=
  let w1 := {| ps := pstate_init; sc := start_begin u sched_init;
               inflight := [PScan (OStart 5) u] |} in
  fetch_done no_sms race_env (OStart 5) u (FetchThrows []) [] [] w1.

(** ** Invariants of every reachable world *)

Lemma start_urls_app l1 l2 : start_urls (l1 ++ l2) = start_urls l1 ++ start_urls l2.
Proof. apply omap_app. Qed.

Section Invariants.

Context `{ExtractionStrategy}.
Variable cfg : sms_config.
Variable serial : bool.

Lemma fetch_done_parts env o url out pre post w :
  ps (fetch_done cfg env o url out pre post w) = fst (fst (scanWebsite cfg env url out (ps w))) /\
  sc (fetch_done cfg env o url out pre post w) =
    match o with OStart n => start_resume url n (env_resume env) (sc w) | _ => sc w end /\
  start_urls (inflight (fetch_done cfg env o url out pre post w)) =
    start_urls pre ++ start_urls post.
Proof.
  unfold fetch_done. destruct (scanWebsite cfg env url out (ps w)) as [[st' r] sms]. cbn.
  split_and!; [done|done|]. rewrite !start_urls_app. destruct sms; simpl; by rewrite ?app_nil_r.
Qed.

(** A property of the pipeline state that holds initially and that every
    scan completion and every SMS completion preserves holds in every
    reachable world, however the events interleave. *)
Lemma reach_pstate (P : pstate -> Prop) w :
  P pstate_init ->
  (forall env url o st, P st -> P (fst (fst (scanWebsite cfg env url o st)))) ->
  (forall now changes tr st, P st -> P (sms_done cfg now changes tr st)) ->
  reach cfg serial w -> P (ps w).
Proof.
  intros Hinit Hscan Hsms. induction 1 as [|w w' _ IH Hstep]; [done|].
  destruct Hstep; cbn; auto. destruct (fetch_done_parts env o url out pre post w) as (-> & _). auto.
Qed.

(** How a step changes the registry. *)
Lemma step_sched w w' :
  step cfg serial w w' ->
  sc w' = sc w \/ (exists url, sc w' = start_begin url (sc w)) \/
  (exists url n now, sc w' = start_resume url n now (sc w)) \/
  (exists url, sc w' = fst (stop url (sc w))).
Proof.
  destruct 1; cbn; eauto 10. destruct (fetch_done_parts env o url out pre post w) as (_ & -> & _).
  destruct o; eauto 10.
Qed.

Lemma step_ids_orphan i w w' :
  step cfg serial w w' -> ids_ok (sc w) ->
  ids_ok (sc w') /\ (orphan i (sc w) -> orphan i (sc w')).
Proof.
  intros Hs Hids.
  destruct (step_sched _ _ Hs) as [->|[(url & ->)|[(url & n & now & ->)|(url & ->)]]].
  - done.
  - split; [by apply ids_ok_start_begin|]. by apply orphan_start_begin.
  - split; [by apply ids_ok_start_resume|]. apply orphan_start_resume.
  - split; [by apply ids_ok_stop|]. by apply orphan_stop.
Qed.

Lemma reach_ids_ok w : reach cfg serial w -> ids_ok (sc w).
Proof.
  induction 1 as [|w w' _ IH Hstep]; [intros i t; cbn; by rewrite lookup_nil|].
  exact (proj1 (step_ids_orphan 0 _ _ Hstep IH)).
Qed.

End Invariants.

(** ** Start requests that do not overlap *)

Section Serial.

Context `{ExtractionStrategy}.
Variable cfg : sms_config.

(** When no client starts a URL whose start is in flight, the registry
    satisfies [ok_upto] for the URLs whose start is in flight, and these
    URLs are distinct. *)
Lemma serial_inv w :
  reach cfg true w -> NoDup (start_urls (inflight w)) /\ ok_upto (start_urls (inflight w)) (sc w).
Proof.
  induction 1 as [|w w' _ [Hnd Hok] Hstep].
  { split; [constructor|apply sched_ok_init]. }
  destruct Hstep as [w url|w url n Hg|w url|w i t _ _|w pre post o url env out Hin
                    |w pre post changes ob now tr Hin]; cbn.
  - done.
  - specialize (Hg eq_refl). split; [by constructor|by apply start_begin_upto].
  - split; [done|by apply stop_upto].
  - done.
  - destruct (fetch_done_parts cfg env o url out pre post w) as (_ & -> & ->).
    rewrite Hin, start_urls_app in Hnd, Hok. destruct o as [|n|]; cbn in Hnd, Hok.
    + done.
    + apply NoDup_app in Hnd as (Hnd1 & Hdisj & Hnd2). apply NoDup_cons in Hnd2 as [Hu Hnd2].
      split; [apply NoDup_app; split_and!; [done| |done]|].
      { intros x Hx1 Hx2. apply (Hdisj x Hx1). by right. }
      apply start_resume_upto.
      * apply (ok_upto_equiv (start_urls pre ++ url :: start_urls post)); [|done].
        intros x. rewrite elem_of_cons, !elem_of_app, elem_of_cons. tauto.
      * rewrite elem_of_app. intros [Hx|Hx]; [|done]. apply (Hdisj url Hx). by left.
    + done.
  - rewrite Hin, start_urls_app in Hnd, Hok. cbn in Hnd, Hok. by rewrite start_urls_app.
Qed.

End Serial.

Lemma race_world_reach u : reach no_sms false (race_world u).
Proof.
  unfold race_world. eapply reach_step; [|apply step_stop_request].
  eapply reach_step; [|apply step_fetch_done with (pre := []) (post := []); reflexivity].
  eapply reach_step; [|apply step_fetch_done with (pre := []) (post := [PScan (OStart 1) u]);
                         reflexivity].
  eapply reach_step; [|apply step_start_request; discriminate].
  eapply reach_step; [apply reach_init|apply step_start_request; discriminate].
Qed.

Lemma serial_world_reach u : reach no_sms true (serial_world u).
Proof.
  unfold serial_world. eapply reach_step; [|apply step_fetch_done with (pre := []) (post := []);
                                              reflexivity].
  eapply reach_step; [apply reach_init|]. apply step_start_request. intros _. apply not_elem_of_nil.
Qed.

Lemma race_world_orphan : orphan 0 (sc (race_world (js "https://www.tustus.co.il/Arkia/Home"))).
Proof.
  split; [eexists; split; vm_compute; reflexivity|].
  intros k j Hk. vm_compute in Hk. discriminate.
Qed.

(** A cron tick of the first task of the race. *)
Lemma race_cron_step :
  let w := race_world (js "https://www.tustus.co.il/Arkia/Home") in
  let t := {| task_id := 0; task_url := js "https://www.tustus.co.il/Arkia/Home";
              task_expr := cronExpression 1; task_scheduled := true |} in
  step no_sms false w {| ps := ps w; sc := sc w; inflight := PScan OCron (task_url t) :: inflight w |}.
Proof.
  intros w t. assert (Ht : tasks (sc w) !! 0 = Some t) by (vm_compute; reflexivity).
  exact (step_cron_fire no_sms false w 0 t Ht eq_refl).
Qed.

(** ** Properties of the server *)

(** C2: When no client sends a start request for a URL whose previous
    start is still waiting for its initial scan, in every reachable world
    the cron tasks scheduled for a URL are: none while its start is in
    flight, otherwise the task of its job if that task still runs (a
    restart whose [cron.schedule] threw leaves a job whose task is
    destroyed), and none when it has no job. *)
Theorem serial_scheduled_ids `{ExtractionStrategy} cfg w url :
  reach cfg true w ->
  scheduled_ids url (sc w) =
    if bool_decide (url ∈ start_urls (inflight w)) then [] else
    match map_get (monitoringJobs (sc w)) (jobId url) with
    | Some j => if job_live (sc w) j then [job_task j] else [] | None => [] end.
Proof. intros Hr. exact (ok_upto_scheduled_ids _ _ _ (proj2 (serial_inv cfg w Hr))). Qed.

Lemma serial_scheduled_ids_witness :
  let u := js "https://www.tustus.co.il/Arkia/Home" in
  reach no_sms true (serial_world u) /\ scheduled_ids u (sc (serial_world u)) = [0].
Proof.
  intros u. split; [apply serial_world_reach|].
  rewrite (serial_scheduled_ids no_sms (serial_world u) u (serial_world_reach u)).
  vm_compute. reflexivity.
Defined.

(** C1: Two overlapping start requests for the same URL schedule two cron
    tasks and the job keeps only the second: after both complete and a
    stop request for the URL, no job and no request is left, yet the
    first task is still scheduled and no job refers to it. *)
Theorem race_orphan :
  let u := js "https://www.tustus.co.il/Arkia/Home" in
  exists w, reach no_sms false w /\ inflight w = [] /\ monitoringJobs (sc w) = [] /\
    scheduled_ids u (sc w) = [0] /\ orphan 0 (sc w).
Proof.
  intros u. exists (race_world u). split; [apply race_world_reach|].
  split_and!; [vm_compute; reflexivity..|apply race_world_orphan].
Qed.

(** C11: An orphaned cron task (scheduled, and the task of no job) stays
    scheduled in every later world: no request can destroy it, since
    [stop] and [start] destroy only the task of a job and new jobs get
    new tasks. *)
Theorem orphan_forever `{ExtractionStrategy} cfg serial w w' i :
  reach cfg serial w -> orphan i (sc w) -> steps cfg serial w w' -> orphan i (sc w').
Proof.
  intros Hr Ho Hs. revert Hr Ho. induction Hs as [w|w w1 w2 Hstep _ IH]; intros Hr Ho; [done|].
  apply IH; [by eapply reach_step|].
  exact (proj2 (step_ids_orphan cfg serial i _ _ Hstep (reach_ids_ok cfg serial _ Hr)) Ho).
Qed.

(** The orphan of the race fires and is still an orphan afterwards. *)
Lemma orphan_forever_witness :
  let w := race_world (js "https://www.tustus.co.il/Arkia/Home") in
  let t := {| task_id := 0; task_url := js "https://www.tustus.co.il/Arkia/Home";
              task_expr := cronExpression 1; task_scheduled := true |} in
  reach no_sms false w /\ orphan 0 (sc w) /\
  orphan 0 (sc {| ps := ps w; sc := sc w; inflight := PScan OCron (task_url t) :: inflight w |}).
Proof.
  intros w t. split_and!; [apply race_world_reach|apply race_world_orphan|].
  apply (orphan_forever no_sms false w); [apply race_world_reach|apply race_world_orphan|].
  exact (steps_cons no_sms false _ _ _ (race_cron_step) (steps_refl no_sms false _)).
Defined.

(** C12: In every reachable world, however scans, requests and SMS
    completions interleave, [lastDestinations] is the destination list
    of the most recent successful scan in [scanHistory], with distinct
    English names. *)
Theorem reach_snapshot_inv `{ExtractionStrategy} cfg serial w :
  reach cfg serial w -> snapshot_inv (ps w).
Proof.
  apply reach_pstate; [apply snapshot_inv_init|apply scanWebsite_snapshot_inv|].
  intros. by apply snapshot_inv_sms.
Qed.

Lemma reach_snapshot_inv_witness :
  let w := race_world (js "https://www.tustus.co.il/Arkia/Home") in
  reach no_sms false w /\ snapshot_inv (ps w).
Proof.
  intros w. split; [apply race_world_reach|].
  apply (reach_snapshot_inv no_sms false w), race_world_reach.
Defined.

(** C13: In every reachable world [smsHistory] holds at most 50 records. *)
Theorem reach_sms_bounded `{ExtractionStrategy} cfg serial w :
  reach cfg serial w -> length (smsHistory (ps w)) <= sms_cap.
Proof.
  apply (reach_pstate cfg serial (fun st => length (smsHistory st) <= sms_cap));
    [cbn; unfold sms_cap; lia| |].
  - intros env url o st Hst. by rewrite scanWebsite_smsHistory.
  - intros now changes tr st Hst. unfold sms_done.
    destruct (sms_success _); cbn; [by apply push_capped_bounded|done].
Qed.

Lemma reach_sms_bounded_witness :
  let w := race_world (js "https://www.tustus.co.il/Arkia/Home") in
  reach no_sms false w /\ length (smsHistory (ps w)) <= sms_cap.
Proof.
  intros w. split; [apply race_world_reach|].
  apply (reach_sms_bounded no_sms false w), race_world_reach.
Defined.

(** C39: The [SIGINT] handler destroys the task of every job.  When no
    client overlaps two start requests for one URL, this cancels every
    scheduled task; after the race of two overlapping starts and a stop,
    the orphaned task is still scheduled after [SIGINT]. *)
Theorem sigint_cancels_serial_only :
  (forall `{ExtractionStrategy} cfg w, reach cfg true w ->
     forall i t, tasks (sigint (sc w)) !! i = Some t -> task_scheduled t = false) /\
  exists t, tasks (sigint (sc (race_world (js "https://www.tustus.co.il/Arkia/Home")))) !! 0 = Some t
    /\ task_scheduled t = true.
Proof.
  split.
  - intros ? cfg w Hr. exact (sigint_upto _ _ (proj2 (serial_inv cfg w Hr))).
  - eexists. split; vm_compute; reflexivity.
Qed.

Lemma sigint_cancels_serial_only_witness :
  let w := serial_world (js "https://www.tustus.co.il/Arkia/Home") in
  reach no_sms true w /\ forall i t, tasks (sigint (sc w)) !! i = Some t -> task_scheduled t = false.
Proof.
  intros w. split; [apply serial_world_reach|].
  exact (proj1 sigint_cancels_serial_only _ no_sms w (serial_world_reach _)).
Defined.

End Server.
