(* ===== verification/SchedSpec.v ===== *)
(** * SchedSpec: the scheduler's contract, and the registry that implements it

    The specification gives the scheduler the contract
    [start(url, intervalMinutes) -> jobSummary], [stop(url) -> boolean]
    (false when no job existed) and [status() -> list of active jobs],
    with one periodic trigger per job.  [spec_jobs] is its state: the
    active jobs as a finite map from URL to interval and start time;
    [spec_start] and [spec_stop] are its operations.

    [abs_jobs] reads the registry of [Scheduler.v] ([monitoringJobs],
    keyed by [`monitor-${url}`]) as such a map.  When start and stop run
    one at a time, the registry refines the contract: [start] and [stop]
    act on [abs_jobs] as [spec_start] and [spec_stop], [status] lists
    exactly the abstract jobs, and every abstract job has exactly one
    scheduled cron task, with the job's interval.

    Inside the server of [Server.v], [lstep] labels every step with the
    operation of the contract it performs: a stop request with [LStop],
    the completion of a start's initial scan with [LStart] when
    [cron.schedule] accepts the interval, every other step with no
    label.  However events interleave and even when starts overlap,
    each labelled step changes the registry's contents by its label's
    transition ([spec_trans]) and an unlabelled one leaves them alone;
    overlapping starts break only the one-task-per-job part
    (Server.race_orphan).  A start takes
    effect when its initial scan completes, so a stop sent meanwhile
    does not cancel it ([stop_during_initial_scan]). *)

From S2P Require Import Prelude JsRegex JsNumber Extractor DiffEngine HistoryStore Notifier Pipeline JsMap Scheduler Endpoints Server.
From stdpp Require Import gmap.
Import Notifier Pipeline JsMap Scheduler Server.

Module SchedSpec.

(** ** The contract *)

Abbreviation spec_jobs := (gmap jstring (nat * Z)).

Definition spec_start (url : jstring) (n : nat) (now : Z) (A : spec_jobs) : spec_jobs :=
  <[url := (n, now)]> A.

Definition spec_stop (url : jstring) (A : spec_jobs) : spec_jobs * bool :=
  (delete url A, bool_decide (is_Some (A !! url))).

(** The contract's operations as labels, and their effect. *)
Inductive spec_label := LStart (url : jstring) (n : nat) (now : Z) | LStop (url : jstring).

Definition spec_trans (l : spec_label) (A : spec_jobs) : spec_jobs :=
  match l with
  | LStart url n now => spec_start url n now A
  | LStop url => fst (spec_stop url A)
  end.

(** ** The abstraction of the registry *)

Definition summary (j : job) : nat * Z := (job_intervalMinutes j, job_startTime j).

Definition abs_jobs (s : sched) : spec_jobs :=
  list_to_map (map (fun kv => (job_url kv.2, summary kv.2)) (monitoringJobs s)).

(** Every job is stored under the id of its URL. *)
Definition keys_ok (s : sched) : Prop :=
  Forall (fun kv => kv.1 = jobId (job_url kv.2)) (monitoringJobs s).

(** Every job's task carries the cron expression of its interval. *)
Definition exprs_ok (s : sched) : Prop :=
  forall k j, map_get (monitoringJobs s) k = Some j ->
    exists t, tasks s !! job_task j = Some t /\ task_expr t = cronExpression (job_intervalMinutes j).

(** ** The server's steps, labelled with the contract's operation

    One rule per rule of [Server.step]: a stop request is the contract's
    [stop] of its URL; the completion of a start's initial scan is the
    contract's [start] of its URL, interval and resume time when
    [cron.schedule] accepts the interval, and nothing when it throws;
    every other step is no operation of the contract. *)

Definition fetch_label (o : origin) (url : jstring) (env : scan_env) : option spec_label :=
  match o with
  | OStart n => match cron_schedule (cronExpression n) with
                | Some _ => Some (LStart url n (env_resume env))
                | None => None
                end
  | _ => None
  end.

Section Labelled.

Context `{ExtractionStrategy}.
Variable cfg : sms_config.
Variable serial : bool.

Inductive lstep : world -> option spec_label -> world -> Prop :=
| lstep_scan_request w url :
    lstep w None {| ps := ps w; sc := sc w; inflight := PScan OScanRequest url :: inflight w |}
| lstep_start_request w url n :
    (serial = true -> url ∉ start_urls (inflight w)) ->
    lstep w None {| ps := ps w; sc := start_begin url (sc w);
                    inflight := PScan (OStart n) url :: inflight w |}
| lstep_stop_request w url :
    lstep w (Some (LStop url)) {| ps := ps w; sc := fst (stop url (sc w)); inflight := inflight w |}
| lstep_cron_fire w i t :
    tasks (sc w) !! i = Some t -> task_scheduled t = true ->
    lstep w None {| ps := ps w; sc := sc w; inflight := PScan OCron (task_url t) :: inflight w |}
| lstep_fetch_done w pre post o url env out :
    inflight w = pre ++ PScan o url :: post ->
    lstep w (fetch_label o url env) (fetch_done cfg env o url out pre post w)
| lstep_sms_done w pre post changes ob now tr :
    inflight w = pre ++ PSms changes ob :: post ->
    lstep w None {| ps := sms_done cfg now changes tr (ps w); sc := sc w; inflight := pre ++ post |}.

End Labelled.

(** ** Lemmas *)

Lemma abs_jobs_lookup s url :
  keys_ok s -> abs_jobs s !! url = summary <$> map_get (monitoringJobs s) (jobId url).
Proof.
  unfold keys_ok, abs_jobs. induction (monitoringJobs s) as [|[k j] m IH]; [done|].
  intros [Hk Hm]%Forall_cons. cbn [map fst snd map_get] in *. rewrite list_to_map_cons, lookup_insert.
  rewrite Hk. destruct (decide (job_url j = url)) as [->|Hne].
  - by rewrite bool_decide_true.
  - rewrite bool_decide_false by (intros ?%jobId_inj; done). by apply IH.
Qed.

Lemma destroy_expr id ts i t :
  ts !! i = Some t -> exists t', destroy id ts !! i = Some t' /\ task_expr t' = task_expr t.
Proof. intros Ht. rewrite destroy_lookup, Ht. cbn. eexists; split; [done|]. by case_match. Qed.

Lemma keys_ok_start_begin url s : keys_ok (start_begin url s) <-> keys_ok s.
Proof. unfold keys_ok. by rewrite start_begin_jobs. Qed.

Lemma keys_ok_start_resume url n now s : keys_ok s -> keys_ok (start_resume url n now s).
Proof.
  unfold keys_ok, start_resume. rewrite start_finish_eq. case_bool_decide; [done|].
  cbn. by apply Forall_map_set.
Qed.

Lemma keys_ok_start url n now s : keys_ok s -> keys_ok (start url n now s).
Proof. intros Hk. by apply keys_ok_start_resume, keys_ok_start_begin. Qed.

Lemma keys_ok_stop url s : keys_ok s -> keys_ok (fst (stop url s)).
Proof. unfold keys_ok, stop. destruct (map_get _ _); [apply Forall_map_delete|done]. Qed.

Lemma exprs_ok_start_begin url s : exprs_ok s -> exprs_ok (start_begin url s).
Proof.
  unfold exprs_ok, start_begin. destruct (map_get _ (jobId url)) as [j0|]; [|done].
  intros Hs k j Hk. destruct (Hs k j Hk) as (t & Ht & He).
  destruct (destroy_expr (job_task j0) _ _ _ Ht) as (t' & Ht' & He'). exists t'. split; [done|congruence].
Qed.

Lemma exprs_ok_start url n now s : exprs_ok s -> exprs_ok (start url n now s).
Proof.
  intros Hs%(exprs_ok_start_begin url). unfold start, start_resume. rewrite start_finish_eq.
  set (s0 := start_begin url s) in *. case_bool_decide; [done|]. intros k j. cbn.
  rewrite map_get_set. case_bool_decide.
  - intros [= <-]. cbn. eexists. rewrite lookup_app_r, Nat.sub_diag by done. done.
  - intros Hk. destruct (Hs k j Hk) as (t & Ht & He). exists t. split; [|done].
    by apply lookup_app_l_Some.
Qed.

Lemma exprs_ok_stop url s : exprs_ok s -> exprs_ok (fst (stop url s)).
Proof.
  unfold exprs_ok, stop. destruct (map_get _ (jobId url)) as [j0|]; [|done].
  intros Hs k j. cbn [fst monitoringJobs tasks]. rewrite map_get_delete. case_bool_decide; [done|].
  intros Hk. destruct (Hs k j Hk) as (t & Ht & He).
  destruct (destroy_expr (job_task j0) _ _ _ Ht) as (t' & Ht' & He'). exists t'. split; [done|congruence].
Qed.

Lemma seq_reach_abs pos s : seq_reach pos s -> keys_ok s /\ exprs_ok s.
Proof.
  induction 1 as [|url n now s _ _ [Hk He]|url s _ [Hk He]].
  - split; [constructor|]. intros k j Hk. discriminate.
  - split; [by apply keys_ok_start|by apply exprs_ok_start].
  - split; [by apply keys_ok_stop|by apply exprs_ok_stop].
Qed.

Lemma abs_jobs_start_begin url s : abs_jobs (start_begin url s) = abs_jobs s.
Proof. unfold abs_jobs. by rewrite start_begin_jobs. Qed.

Lemma abs_jobs_start_resume url n now s :
  keys_ok s ->
  abs_jobs (start_resume url n now s) =
    if bool_decide (n = 0) then abs_jobs s else spec_start url n now (abs_jobs s).
Proof.
  intros Hk. case_bool_decide as Hn.
  { unfold start_resume. by rewrite start_finish_eq, bool_decide_true. }
  apply map_eq. intros u. unfold spec_start.
  rewrite (abs_jobs_lookup _ _ (keys_ok_start_resume url n now s Hk)).
  unfold start_resume. rewrite start_finish_eq, bool_decide_false by done. cbn. rewrite map_get_set.
  destruct (decide (url = u)) as [->|Hne].
  - by rewrite bool_decide_true, lookup_insert_eq.
  - rewrite bool_decide_false by (intros ?%jobId_inj; done).
    by rewrite lookup_insert_ne, (abs_jobs_lookup _ _ Hk).
Qed.

Lemma abs_jobs_start url n now s :
  keys_ok s ->
  abs_jobs (start url n now s) =
    if bool_decide (n = 0) then abs_jobs s else spec_start url n now (abs_jobs s).
Proof.
  intros Hk. unfold start. rewrite abs_jobs_start_resume by by apply keys_ok_start_begin.
  by rewrite abs_jobs_start_begin.
Qed.

Lemma abs_jobs_stop url s :
  keys_ok s -> abs_jobs (fst (stop url s)) = fst (spec_stop url (abs_jobs s)) /\
  (snd (stop url s) = StopOk <-> snd (spec_stop url (abs_jobs s)) = true).
Proof.
  intros Hk. pose proof (keys_ok_stop url s Hk) as Hk'. unfold spec_stop. cbn [fst snd].
  rewrite bool_decide_eq_true, (abs_jobs_lookup _ _ Hk). split.
  - apply map_eq. intros u. rewrite (abs_jobs_lookup _ _ Hk'), lookup_delete, (abs_jobs_lookup _ _ Hk).
    unfold stop. destruct (map_get _ (jobId url)) as [j|] eqn:E; cbn [fst monitoringJobs].
    + rewrite map_get_delete. destruct (decide (url = u)) as [->|Hne].
      * by rewrite bool_decide_true.
      * by rewrite bool_decide_false by (intros ?%jobId_inj; done).
    + destruct (decide (url = u)) as [->|]; [by rewrite E|done].
  - unfold stop. destruct (map_get _ (jobId url)); cbn; split; [done|eauto|discriminate|].
    by intros [? ?].
Qed.

(** Every world the server reaches keys each job by its URL's id,
    whether or not starts overlap. *)
Lemma reach_keys_ok `{ExtractionStrategy} cfg serial w : reach cfg serial w -> keys_ok (sc w).
Proof.
  induction 1 as [|w w' _ IH Hs]; [constructor|].
  destruct (step_sched cfg serial _ _ Hs) as [->|[(url & ->)|[(url & n & now & ->)|(url & ->)]]].
  - done.
  - by apply keys_ok_start_begin.
  - by apply keys_ok_start_resume.
  - by apply keys_ok_stop.
Qed.

Lemma step_lstep `{ExtractionStrategy} cfg serial w w' :
  step cfg serial w w' <-> exists l, lstep cfg serial w l w'.
Proof.
  split.
  - destruct 1; eexists; [econstructor..]; eauto.
  - intros [l Hl]. destruct Hl; econstructor; eauto.
Qed.

Lemma fetch_label_spec o url env :
  fetch_label o url env =
    match o with
    | OStart n => if bool_decide (n = 0) then None else Some (LStart url n (env_resume env))
    | _ => None
    end.
Proof. destruct o as [|n|]; [done| |done]. cbn. rewrite cron_schedule_cronExpression. by case_bool_decide. Qed.

(** ** Properties *)

(** C38: When start and stop requests run one at a time and every start
    asks for a positive interval, the job registry implements the
    scheduler's contract: read as a map from URL to interval and start
    time, [start] inserts the job, [stop] deletes it and answers success
    exactly when a job existed, [status] lists exactly these jobs, and
    every job has exactly one scheduled cron task, whose expression is
    that of the job's interval, while a URL without a job has none.  (An
    interval of 0 breaks the contract: [restart_zero_stops_monitoring].) *)
Theorem scheduler_refines_spec s :
  seq_reach true s ->
  (forall url n now, 0 < n -> abs_jobs (start url n now s) = spec_start url n now (abs_jobs s)) /\
  (forall url, abs_jobs (fst (stop url s)) = fst (spec_stop url (abs_jobs s)) /\
               (snd (stop url s) = StopOk <-> snd (spec_stop url (abs_jobs s)) = true)) /\
  list_to_map (map (fun e => (e.1.1.2, (e.1.2, e.2))) (status s)) = abs_jobs s /\
  (forall url, match abs_jobs s !! url with
     | Some (n, _) => exists i t, scheduled_ids url s = [i] /\ tasks s !! i = Some t /\
                                 task_url t = url /\ task_expr t = cronExpression n
     | None => scheduled_ids url s = []
     end).
Proof.
  intros Hr. destruct (seq_reach_abs true s Hr) as [Hk He].
  pose proof (seq_reach_ok true s Hr) as Hok. split_and!.
  - intros url n now Hn. rewrite abs_jobs_start by done. by rewrite bool_decide_false by lia.
  - intros. by apply abs_jobs_stop.
  - unfold status, abs_jobs. by rewrite map_map.
  - intros url. rewrite (abs_jobs_lookup _ _ Hk), (ok_upto_scheduled_ids [] url s Hok).
    rewrite bool_decide_false by apply not_elem_of_nil.
    destruct (map_get _ (jobId url)) as [j|] eqn:Hj; [|done]. cbn [fmap option_fmap option_map summary].
    destruct (seq_reach_live s Hr _ _ Hj (not_elem_of_nil _)) as (t' & Ht' & Hs').
    unfold job_live. rewrite Ht', Hs'.
    destruct (He _ _ Hj) as (t & Ht & Hex). exists (job_task j), t. split_and!; [done|done| |done].
    destruct (up_jobs _ _ Hok _ _ Hj) as [Hu%jobId_inj (t'' & Ht'' & Hut)].
    rewrite Ht in Ht''. injection Ht'' as <-. congruence.
Qed.

Lemma scheduler_refines_spec_witness :
  let s := start (js "https://www.tustus.co.il/Arkia/Home") 5 0 sched_init in
  seq_reach true s /\ abs_jobs s !! js "https://www.tustus.co.il/Arkia/Home" = Some (5, 0%Z).
Proof.
  intros s. assert (Hr : seq_reach true s) by (apply seq_start; [intros _; lia|apply seq_init]).
  split; [exact Hr|]. unfold s.
  rewrite (proj1 (scheduler_refines_spec sched_init (seq_init true)) _ 5 0%Z ltac:(lia)).
  apply lookup_insert_eq.
Defined.

(** C23: Inside the whole server, however requests, cron firings and
    completions interleave, and even when start requests for one URL
    overlap, every step is a step of [lstep] and acts on the registry's
    contents exactly as its label says: a stop request for [url] is the
    contract's [stop url]; the completion of a start's initial scan is
    the contract's [start] of that URL, interval and resume time when
    [cron.schedule] accepts the interval; every other step, the start
    request before its scan included, leaves the contents unchanged.
    Overlapping starts break only the one-task-per-job part of the
    contract ([Server.race_orphan]). *)
Theorem server_jobs_follow_spec `{ExtractionStrategy} cfg serial w w' :
  reach cfg serial w ->
  (step cfg serial w w' <-> exists l, lstep cfg serial w l w') /\
  (forall l, lstep cfg serial w l w' ->
     abs_jobs (sc w') = match l with Some l => spec_trans l (abs_jobs (sc w)) | None => abs_jobs (sc w) end).
Proof.
  intros Hr. pose proof (reach_keys_ok cfg serial w Hr) as Hk. split; [apply step_lstep|].
  intros l Hl. destruct Hl as [w url|w url n _|w url|w i t _ _|w pre post o url env out _|]; cbn.
  - done.
  - apply abs_jobs_start_begin.
  - exact (proj1 (abs_jobs_stop url _ Hk)).
  - done.
  - rewrite (proj1 (proj2 (fetch_done_parts cfg env o url out pre post w))), fetch_label_spec.
    destruct o as [|n|]; [done| |done]. rewrite abs_jobs_start_resume by done.
    by case_bool_decide.
  - done.
Qed.

Lemma server_jobs_follow_spec_witness :
  let u := js "https://www.tustus.co.il/Arkia/Home" in
  let w1 := {| ps := pstate_init; sc := start_begin u sched_init; inflight := [PScan (OStart 5) u] |} in
  let w2 := fetch_done no_sms race_env (OStart 5) u (FetchThrows []) [] [] w1 in
  reach no_sms false w1 /\ lstep no_sms false w1 (Some (LStart u 5 0)) w2 /\
  abs_jobs (sc w2) = spec_start u 5 0 (abs_jobs (sc w1)).
Proof.
  intros u w1 w2.
  assert (Hr : reach no_sms false w1).
  { apply (reach_step no_sms false world_init w1 (reach_init no_sms false)).
    apply (step_start_request no_sms false world_init u 5). discriminate. }
  assert (Hs : lstep no_sms false w1 (Some (LStart u 5 0)) w2)
    by exact (lstep_fetch_done no_sms false w1 [] [] (OStart 5) u race_env (FetchThrows []) eq_refl).
  split_and!; [exact Hr|exact Hs|exact (proj2 (server_jobs_follow_spec no_sms false w1 w2 Hr) _ Hs)].
Defined.



End SchedSpec.
