(* ===== verification/Timed.v ===== *)
(** * Timed: the server with its clock

    [Date.now()] is read by [scanWebsite] after its fetch (the [id] and
    [timestamp] of the record, lines 147-149 and 337-339), by the SMS
    callback (line 181) and by the start handler after its initial scan
    ([startTime], line 401).  The untimed server of [Server.v] lets each
    completion choose its reading; here the world carries the clock,
    which only moves forward, and a completion reads it once for each
    reading of the code: the record's [id] ([Date.now()], line 148), its
    [timestamp] ([new Date()], line 149) and the job's [startTime] are
    read at times [t1 <= t2 <= t3], which may differ ([tenv]).  A step that
    leaves the pipeline state unchanged (a request, a cron firing, an SMS
    the transport refused) reads no clock and is the step of [Server.v]
    unchanged.  Cron tasks may fire at any time, as in [Server.v]: this
    over-approximates node-cron's timer, so what holds here holds of the
    program.

    The timed server is a restriction of the untimed one ([treach_reach]),
    so every invariant of [Server.v] holds of it; the theorems here are
    about time: the histories are newest first, and two scans that
    complete in the same millisecond get the same [id]. *)

From S2P Require Import Prelude JsRegex JsNumber Extractor DiffEngine HistoryStore Notifier Pipeline JsMap Scheduler Server.
Import Extractor HistoryStore Notifier Pipeline JsMap Scheduler Server.

Module Timed.

Record tworld := {
  clock : Z;
  tw : world
}.

(** The readings of a completion: [Date.now()] at [t1], the record's
    [new Date()] at [t2], the resumed start handler's [new Date()] at
    [t3]. *)
Definition tenv (t1 t2 t3 : Z) (loc : jstring) : scan_env :=
  {| env_now := t1; env_date := t2; env_resume := t3; env_locale_time := loc |}.

Section TimedSteps.

Context `{ExtractionStrategy}.
Variable cfg : sms_config.
Variable serial : bool.

Inductive tstep : tworld -> tworld -> Prop :=
(** Time passes. *)
| tstep_tick c c' w :
    (c <= c')%Z -> tstep {| clock := c; tw := w |} {| clock := c'; tw := w |}
(** A fetch completes and the rest of [scanWebsite], then the resumed
    handler, read the clock in turn; time may pass between the readings. *)
| tstep_fetch c t1 t2 t3 loc w pre post o url out :
    (c <= t1)%Z -> (t1 <= t2)%Z -> (t2 <= t3)%Z ->
    inflight w = pre ++ PScan o url :: post ->
    tstep {| clock := c; tw := w |}
          {| clock := t3; tw := fetch_done cfg (tenv t1 t2 t3 loc) o url out pre post w |}
(** The SMS transport answers; a success is recorded at the clock. *)
| tstep_sms c w pre post changes ob tr :
    inflight w = pre ++ PSms changes ob :: post ->
    tstep {| clock := c; tw := w |}
          {| clock := c; tw := {| ps := sms_done cfg c changes tr (ps w); sc := sc w;
                                  inflight := pre ++ post |} |}
(** A step that reads no clock. *)
| tstep_untimed c w w' :
    step cfg serial w w' -> ps w' = ps w ->
    tstep {| clock := c; tw := w |} {| clock := c; tw := w' |}.

Inductive treach : tworld -> Prop :=
| treach_init c : treach {| clock := c; tw := world_init |}
| treach_step x y : treach x -> tstep x y -> treach y.

End TimedSteps.

(** The histories newest first, no record later than the clock, and the
    [id] of a scan record no later than its [timestamp]. *)
Definition clock_inv (x : tworld) : Prop :=
  stamped_upto sr_time (clock x) (scanHistory (ps (tw x))) /\
  Forall (fun r => (sr_id r <= sr_time r)%Z) (scanHistory (ps (tw x))) /\
  stamped_upto sms_time (clock x) (smsHistory (ps (tw x))).

(** ** Two scans of one job in flight at once *)

Definition home : jstring := js "https://www.tustus.co.il/Arkia/Home".

Definition env_at (c : Z) : scan_env := {| env_now := c; env_date := c; env_resume := c; env_locale_time := [] |}.

(** A job for [home] every minute, started at 0 (its initial scan fails);
    its task fires at minute 0 and again a minute later, while the first
    scan still waits for its fetch. *)
Definition job_task0 : cron_task :=
  {| task_id := 0; task_url := home; task_expr := cronExpression 1; task_scheduled := true |}.

Definition ow1 : tworld :=
  {| clock := 0; tw := {| ps := ps world_init; sc := start_begin home (sc world_init);
                          inflight := PScan (OStart 1) home :: inflight world_init |} |}.

Definition ow2 : tworld :=
  {| clock := 0; tw := fetch_done no_sms (tenv 0 0 0 []) (OStart 1) home (FetchThrows []) [] []
                         (tw ow1) |}.

Definition ow3 : tworld :=
  {| clock := 0; tw := {| ps := ps (tw ow2); sc := sc (tw ow2);
                          inflight := PScan OCron (task_url job_task0) :: inflight (tw ow2) |} |}.

Definition overlap_world : tworld :=
  {| clock := 60000; tw := {| ps := ps (tw ow3); sc := sc (tw ow3);
                              inflight := PScan OCron (task_url job_task0) :: inflight (tw ow3) |} |}.

(** Both fetches complete at the same clock. *)
Definition both_done (loc : jstring) (o1 o2 : fetch_outcome) : tworld :=
  let c := clock overlap_world in
  let env := tenv c c c loc in
  let w1 := fetch_done no_sms env OCron home o1 [] [PScan OCron home] (tw overlap_world) in
  {| clock := c; tw := fetch_done no_sms env OCron home o2 [] [] w1 |}.

(** ** The timed server refines the untimed one *)

Lemma tstep_step `{ExtractionStrategy} cfg serial x y :
  tstep cfg serial x y -> tw y = tw x \/ step cfg serial (tw x) (tw y).
Proof.
  destruct 1; cbn; [by left|right..].
  - by apply step_fetch_done.
  - by eapply step_sms_done.
  - done.
Qed.

Lemma treach_reach `{ExtractionStrategy} cfg serial x : treach cfg serial x -> reach cfg serial (tw x).
Proof.
  induction 1 as [c|x y _ IH Hs]; [apply reach_init|].
  destruct (tstep_step cfg serial x y Hs) as [->|Hs']; [done|by eapply reach_step].
Qed.

(** ** How a completion changes the histories *)

Lemma scanWebsite_history `{ExtractionStrategy} cfg env url o st :
  exists r, sr_id r = env_now env /\ sr_time r = env_date env /\ sr_url r = url /\
    (scanHistory (fst (fst (scanWebsite cfg env url o st))) = record_scan r (scanHistory st) \/
     scanHistory (fst (fst (scanWebsite cfg env url o st))) = record_error_scan r (scanHistory st)).
Proof.
  unfold scanWebsite, scan_failed, scan_succeeded, addScanResult.
  destruct o as [status text body|msg]; [destruct ((200 <=? status) && (status <? 300))|];
    cbn; eexists; (split; [|split; [|split; [|(left; reflexivity) || (right; reflexivity)]]]);
    reflexivity.
Qed.

Lemma push_capped_lookup1 {A} cap (x : A) l :
  2 <= cap -> push_capped cap x l !! 1 = l !! 0.
Proof.
  intros Hc. unfold push_capped, unshift, pop. cbn [length].
  destruct (cap <? S (length l)) eqn:E; [|done].
  apply Nat.ltb_lt in E. destruct l as [|y [|z l]]; cbn in *; [lia|lia|done].
Qed.

(** The new record is the head, and the previous head comes second. *)
Lemma scanWebsite_head `{ExtractionStrategy} cfg env url o st :
  exists r, sr_id r = env_now env /\ sr_url r = url /\
    scanHistory (fst (fst (scanWebsite cfg env url o st))) !! 0 = Some r /\
    scanHistory (fst (fst (scanWebsite cfg env url o st))) !! 1 = scanHistory st !! 0.
Proof.
  destruct (scanWebsite_history cfg env url o st) as (r & Hid & _ & Hu & [E|E]);
    exists r; rewrite E; split_and!; try done.
  - unfold record_scan, push_capped, unshift, pop. destruct (_ <? _) eqn:C; [|done].
    apply Nat.ltb_lt in C. unfold scan_cap in C. destruct (scanHistory st); cbn in *; [lia|done].
  - apply push_capped_lookup1. unfold scan_cap. lia.
Qed.

Lemma sendSMSAlert_start_no_sms changes dests ts : sendSMSAlert_start no_sms changes dests ts = None.
Proof. done. Qed.

Lemma scanWebsite_no_sms `{ExtractionStrategy} env url o st : snd (scanWebsite no_sms env url o st) = None.
Proof.
  unfold scanWebsite, scan_failed, scan_succeeded, addScanResult.
  destruct o as [status text body|msg]; [destruct ((200 <=? status) && (status <? 300))|];
    cbn; [by case_match|done|done].
Qed.

(** ** The invariant of the clock *)

Lemma clock_inv_init c : clock_inv {| clock := c; tw := world_init |}.
Proof. split_and!; cbn; auto with fm. Qed.

Lemma stamped_push_capped {A} (t : A -> Z) c cap x l :
  t x = c -> stamped_upto t c l -> stamped_upto t c (push_capped cap x l).
Proof. intros Hx Hl. unfold push_capped. case_match; auto with fm. Qed.

Lemma Forall_push_capped {A} (P : A -> Prop) cap x l :
  P x -> Forall P l -> Forall P (push_capped cap x l).
Proof.
  intros Hx Hl. unfold push_capped, unshift. case_match; [apply Forall_removelast|]; by constructor.
Qed.

Lemma clock_inv_fetch `{ExtractionStrategy} cfg c t1 t2 t3 loc w pre post o url out :
  (c <= t1)%Z -> (t1 <= t2)%Z -> (t2 <= t3)%Z ->
  clock_inv {| clock := c; tw := w |} ->
  clock_inv {| clock := t3; tw := fetch_done cfg (tenv t1 t2 t3 loc) o url out pre post w |}.
Proof.
  intros H1 H2 H3 (Hs & Hid & Hsms). unfold clock_inv. cbn [clock tw] in *.
  destruct (fetch_done_parts cfg (tenv t1 t2 t3 loc) o url out pre post w) as (-> & _).
  rewrite scanWebsite_smsHistory.
  apply (stamped_upto_mono _ _ t2) in Hs; [|lia].
  destruct (scanWebsite_history cfg (tenv t1 t2 t3 loc) url out (ps w))
    as (r & Hr & Ht & _ & [E|E]); rewrite E; cbn in Hr, Ht; split_and!;
    try (apply (stamped_upto_mono _ c); [lia|exact Hsms]).
  - apply (stamped_upto_mono _ t2); [lia|]. by apply stamped_push_capped.
  - apply Forall_push_capped; [lia|done].
  - apply (stamped_upto_mono _ t2); [lia|]. by apply stamped_upto_unshift.
  - constructor; [lia|done].
Qed.

Lemma clock_inv_sms `{ExtractionStrategy} cfg c w pre post changes tr :
  clock_inv {| clock := c; tw := w |} ->
  clock_inv {| clock := c; tw := {| ps := sms_done cfg c changes tr (ps w); sc := sc w;
                                    inflight := pre ++ post |} |}.
Proof.
  intros (Hs & Hid & Hsms). unfold clock_inv, sms_done. cbn [clock tw ps] in *.
  destruct (sms_success _); cbn; split_and!; try done. by apply stamped_push_capped.
Qed.

Lemma clock_inv_step `{ExtractionStrategy} cfg serial x y :
  tstep cfg serial x y -> clock_inv x -> clock_inv y.
Proof.
  destruct 1 as [c c' w Hc|c t1 t2 t3 loc w pre post o url out H1 H2 H3 _
                 |c w pre post changes ob tr _|c w w' _ E].
  - intros (Hs & Hid & Hsms). split_and!; [by eapply stamped_upto_mono..|done|by eapply stamped_upto_mono].
  - by apply clock_inv_fetch.
  - apply clock_inv_sms.
  - unfold clock_inv. cbn. by rewrite E.
Qed.

(** ** The concrete worlds *)

Lemma job_task0_scheduled w : sc w = sc (tw ow2) -> tasks (sc w) !! 0 = Some job_task0.
Proof. intros ->. vm_compute. reflexivity. Qed.

Lemma overlap_world_treach : treach no_sms false overlap_world.
Proof.
  assert (H1 : treach no_sms false ow1).
  { apply (treach_step _ _ _ _ (treach_init no_sms false 0)).
    exact (tstep_untimed no_sms false 0 world_init (tw ow1)
             (step_start_request no_sms false world_init home 1 (fun e => False_ind _ (diff_false_true e)))
             eq_refl). }
  assert (H2 : treach no_sms false ow2).
  { apply (treach_step _ _ _ _ H1).
    exact (tstep_fetch no_sms false 0 0 0 0 [] (tw ow1) [] [] (OStart 1) home (FetchThrows [])
             (Z.le_refl 0) (Z.le_refl 0) (Z.le_refl 0) eq_refl). }
  assert (H3 : treach no_sms false ow3).
  { apply (treach_step _ _ _ _ H2).
    exact (tstep_untimed no_sms false 0 (tw ow2) (tw ow3)
             (step_cron_fire no_sms false (tw ow2) 0 job_task0 (job_task0_scheduled _ eq_refl) eq_refl)
             eq_refl). }
  assert (H4 : treach no_sms false {| clock := 60000; tw := tw ow3 |}).
  { apply (treach_step _ _ _ _ H3). apply tstep_tick. lia. }
  apply (treach_step _ _ _ _ H4).
  exact (tstep_untimed no_sms false 60000 (tw ow3) (tw overlap_world)
           (step_cron_fire no_sms false (tw ow3) 0 job_task0 (job_task0_scheduled _ eq_refl) eq_refl)
           eq_refl).
Qed.

Lemma fetch_done_no_sms_inflight `{ExtractionStrategy} env o url out pre post w :
  inflight (fetch_done no_sms env o url out pre post w) = pre ++ post.
Proof.
  pose proof (scanWebsite_no_sms env url out (ps w)) as E. unfold fetch_done.
  destruct (scanWebsite no_sms env url out (ps w)) as [[st' r] sms]. cbn in E |- *.
  subst. by rewrite app_nil_r.
Qed.

Lemma overlap_world_inflight : inflight (tw overlap_world) = [PScan OCron home; PScan OCron home].
Proof. vm_compute. reflexivity. Qed.

Lemma both_done_treach loc o1 o2 : treach no_sms false (both_done loc o1 o2).
Proof.
  assert (Hin : inflight (tw overlap_world) = [] ++ PScan OCron home :: [PScan OCron home])
    by exact overlap_world_inflight.
  pose proof (treach_step _ _ _ _ overlap_world_treach
                (tstep_fetch no_sms false 60000 60000 60000 60000 loc (tw overlap_world) [] [PScan OCron home]
                   OCron home o1 (Z.le_refl _) (Z.le_refl _) (Z.le_refl _) Hin)) as H1.
  apply (treach_step _ _ _ _ H1).
  apply (tstep_fetch no_sms false 60000 60000 60000 60000 loc _ [] [] OCron home o2); try lia.
  by rewrite fetch_done_no_sms_inflight.
Qed.

(** ** Properties *)

(** C19: In every world the timed server reaches, [scanHistory] and
    [smsHistory] are newest first by [timestamp] and no record is stamped
    later than the clock, however scans overlap: a scan's record is
    stamped when its fetch completes, so the history is chronological in
    completion order.  The [id] of a scan record ([Date.now()]) is never
    later than its [timestamp] ([new Date()], read just after), though
    the two can differ. *)
Theorem history_chronological `{ExtractionStrategy} cfg serial x :
  treach cfg serial x ->
  stamped_upto sr_time (clock x) (scanHistory (ps (tw x))) /\
  Forall (fun r => (sr_id r <= sr_time r)%Z) (scanHistory (ps (tw x))) /\
  stamped_upto sms_time (clock x) (smsHistory (ps (tw x))).
Proof.
  induction 1 as [c|x y _ IH Hs]; [apply clock_inv_init|].
  exact (clock_inv_step cfg serial x y Hs IH).
Qed.

Lemma history_chronological_witness :
  treach no_sms false overlap_world /\
  stamped_upto sr_time (clock overlap_world) (scanHistory (ps (tw overlap_world))).
Proof.
  split; [apply overlap_world_treach|].
  exact (proj1 (history_chronological no_sms false overlap_world overlap_world_treach)).
Defined.

(** C24: The cron task of a job fires while the scan it started a minute
    earlier still waits for its fetch, so two scans of one job run at
    once; when both fetches complete in the same millisecond, whatever
    they return, the history holds two records of that URL with the same
    [id]: [Date.now()] is not a unique identifier. *)
Theorem overlapping_scans_share_id :
  treach no_sms false overlap_world /\
  inflight (tw overlap_world) = [PScan OCron home; PScan OCron home] /\
  forall loc o1 o2,
    treach no_sms false (both_done loc o1 o2) /\
    exists r1 r2, scanHistory (ps (tw (both_done loc o1 o2))) !! 0 = Some r2 /\
      scanHistory (ps (tw (both_done loc o1 o2))) !! 1 = Some r1 /\
      sr_id r1 = sr_id r2 /\ sr_url r1 = home /\ sr_url r2 = home.
Proof.
  split_and!; [apply overlap_world_treach|apply overlap_world_inflight|].
  intros loc o1 o2. split; [apply both_done_treach|].
  set (env := tenv 60000 60000 60000 loc).
  set (w1 := fetch_done no_sms env OCron home o1 [] [PScan OCron home] (tw overlap_world)).
  destruct (scanWebsite_head no_sms env home o1 (ps (tw overlap_world))) as (r1 & Hid1 & Hu1 & H10 & _).
  destruct (scanWebsite_head no_sms env home o2 (ps w1)) as (r2 & Hid2 & Hu2 & H20 & H21).
  destruct (fetch_done_parts no_sms env OCron home o1 [] [PScan OCron home] (tw overlap_world))
    as (E1 & _).
  destruct (fetch_done_parts no_sms env OCron home o2 [] [] w1) as (E2 & _).
  exists r1, r2.
  change (scanHistory (ps (tw (both_done loc o1 o2))))
    with (scanHistory (ps (fetch_done no_sms env OCron home o2 [] [] w1))).
  rewrite E2.
  split_and!; [done| |congruence|done|done]. rewrite H21. fold w1 in E1. by rewrite E1.
Qed.

End Timed.
