(* ===== verification/App.v ===== *)
(** * App: the Express application, its middleware and its routes

    Models how src/flight-monitor-server.js wires its handlers into
    Express: the middleware of lines 34-36 ([cors()], [express.json()],
    [express.static('public')]), the twelve routes in the order they are
    registered (lines 355-551, the last one [GET /] sending the front end),
    the error-handling middleware of lines 556-559 and the port of line 11.
    [dispatch] tells which layer answers a request: the preflight of
    [cors], a body the JSON parser rejects (passed to the error
    middleware), a file of [public/], a route, or Express's final handler
    (404).  What each route's handler then does is in [Endpoints.v],
    [HistoryStore.v], [Scheduler.v] and [Server.v].

    The behaviour of the libraries is taken from their defaults: [cors()]
    answers an [OPTIONS] preflight itself with 204; [express.json()]
    parses the body and calls [next(err)] with the error's HTTP status
    (400 for malformed JSON, 413 for a body over 100kb, 415 for an
    unsupported charset); [express.static] serves [GET] and [HEAD] of a
    file under [public/], [index.html] for a path ending in [/]; a route
    path matches case-insensitively and with an optional trailing slash,
    and a [GET] route also answers [HEAD].  The file system is a
    parameter, [public_has]; directories are not modelled. *)

From S2P Require Import Prelude JsRegex JsNumber Notifier.
Import Notifier.

Module App.

(** ** Requests and outcomes *)

Inductive http_method := GET | HEAD | POST | OPTIONS | OTHER.

(** The request body as [express.json()] leaves it: parsed (or absent,
    [req.body = {}]), or rejected with an HTTP status and a message. *)
Inductive body := BodyOk | BodyError (status : nat) (message : jstring).

Record request := {
  rq_method : http_method;
  rq_path : jstring;      (* [req.path], without the query string *)
  rq_body : body
}.

(** The route handlers, by their line in the source. *)
Inductive handler :=
| HScan             (* 355 *)
| HMonitorStart     (* 374 *)
| HMonitorStop      (* 414 *)
| HMonitorStatus    (* 429 *)
| HHistory          (* 445 *)
| HDestinations     (* 454 *)
| HChanges          (* 465 *)
| HHealth           (* 478 *)
| HSmsTest          (* 491 *)
| HSmsHistory       (* 528 *)
| HSmsStatus        (* 539 *)
| HIndex.           (* 551 *)

#[export] Instance handler_eq_dec : EqDecision handler.
Proof. solve_decision. Defined.

(** The body of the error middleware:
    [{ error: 'Internal server error', message: error.message }]. *)
Record error_response := {
  er_status : nat;
  er_error : jstring;
  er_message : jstring
}.

Inductive outcome :=
| Preflight                   (* cors: 204 *)
| ServeStatic (file : jstring)
| Route (h : handler)
| NotFound                    (* Express's final handler: 404 *)
| Failed (r : error_response).

(** ** The application *)

(** Lines 355-551, in registration order. *)
Definition routes : list (http_method * jstring * handler) :=
  [(POST, js "/api/scan", HScan);
   (POST, js "/api/monitor/start", HMonitorStart);
   (POST, js "/api/monitor/stop", HMonitorStop);
   (GET, js "/api/monitor/status", HMonitorStatus);
   (GET, js "/api/history", HHistory);
   (GET, js "/api/destinations", HDestinations);
   (GET, js "/api/changes", HChanges);
   (GET, js "/api/health", HHealth);
   (POST, js "/api/sms/test", HSmsTest);
   (GET, js "/api/sms/history", HSmsHistory);
   (GET, js "/api/sms/status", HSmsStatus);
   (GET, js "/", HIndex)].

(** [res.sendFile(__dirname + '/public/flight-monitor.html')] *)
Definition index_file : jstring := js "public/flight-monitor.html".

(** Lines 556-559: the status of the error is not consulted. *)
Definition error_handler (message : jstring) (status : nat) : error_response :=
  {| er_status := 500; er_error := js "Internal server error"; er_message := message |}.

(** [process.env.PORT || 3002] *)
Definition PORT (env_PORT : option jstring) : jstring :=
  if truthy env_PORT then default [] env_PORT else js "3002".

(** ** Matching *)

Definition method_matches (route_m req_m : http_method) : bool :=
  match route_m, req_m with
  | GET, (GET | HEAD) => true
  | POST, POST => true
  | _, _ => false
  end.

Definition canon_path (p : jstring) : jstring := map (canonicalize true) p.

Definition slash : jstring := [47%Z].

(** The route's regular expression [^path\/?$] (the slash is optional
    when the route already ends with one), with the [i] flag. *)
Definition route_matches (r p : jstring) : bool :=
  let cr := canon_path r in
  let cp := canon_path p in
  bool_decide (cp = cr) ||
  (if bool_decide (last r = Some 47%Z) then bool_decide (cp ++ slash = cr)
   else bool_decide (cp = cr ++ slash)).

Fixpoint route_lookup (rs : list (http_method * jstring * handler)) (m : http_method)
    (p : jstring) : option handler :=
  match rs with
  | [] => None
  | (rm, r, h) :: rs' => if method_matches rm m && route_matches r p then Some h
                         else route_lookup rs' m p
  end.

(** The file [express.static('public')] looks for. *)
Definition static_file (p : jstring) : jstring :=
  if bool_decide (last p = Some 47%Z) then p ++ js "index.html" else p.

Definition static_method (m : http_method) : bool :=
  match m with GET | HEAD => true | _ => false end.

(** The layers in order: [cors()], [express.json()],
    [express.static('public')], the routes, then Express's final handler;
    an error skips to the error middleware. *)
Definition dispatch (public_has : jstring -> bool) (rq : request) : outcome :=
  match rq_method rq with
  | OPTIONS => Preflight
  | m =>
      match rq_body rq with
      | BodyError status message => Failed (error_handler message status)
      | BodyOk =>
          if static_method m && public_has (static_file (rq_path rq))
          then ServeStatic (static_file (rq_path rq))
          else match route_lookup routes m (rq_path rq) with
               | Some h => Route h
               | None => NotFound
               end
      end
  end.

(** ** Properties *)

#[export] Instance http_method_eq_dec : EqDecision http_method.
Proof. solve_decision. Defined.

(** The path with its trailing slashes removed. *)
Fixpoint drop_slashes (l : jstring) : jstring :=
  match l with x :: l' => if bool_decide (x = 47%Z) then drop_slashes l' else l | [] => [] end.

Definition rstrip (p : jstring) : jstring := rev (drop_slashes (rev p)).

Lemma rstrip_slash p : rstrip (p ++ slash) = rstrip p.
Proof. unfold rstrip, slash. rewrite rev_app_distr. done. Qed.

Lemma canon_path_app p q : canon_path (p ++ q) = canon_path p ++ canon_path q.
Proof. apply map_app. Qed.

(** A path a route matches differs from the route by trailing slashes. *)
Lemma route_matches_rstrip r p :
  route_matches r p = true -> rstrip (canon_path r) = rstrip (canon_path p).
Proof.
  unfold route_matches. intros [E|E]%orb_true_iff; [by apply bool_decide_eq_true in E as ->|].
  case_bool_decide; apply bool_decide_eq_true in E.
  - by rewrite <- E, rstrip_slash.
  - by rewrite E, rstrip_slash.
Qed.

Lemma method_matches_same rm1 rm2 m :
  method_matches rm1 m = true -> method_matches rm2 m = true -> rm1 = rm2.
Proof. by destruct rm1, rm2, m. Qed.

(** No two routes of the table answer the same requests. *)
Lemma routes_unambiguous_table :
  Forall (fun e1 => Forall (fun e2 =>
    e1.1.1 = e2.1.1 -> rstrip (canon_path e1.1.2) = rstrip (canon_path e2.1.2) -> e1.2 = e2.2)
    routes) routes.
Proof. apply (bool_decide_unpack _). vm_compute. reflexivity. Qed.

Lemma routes_unambiguous rm1 r1 h1 rm2 r2 h2 m p :
  (rm1, r1, h1) ∈ routes -> (rm2, r2, h2) ∈ routes ->
  method_matches rm1 m && route_matches r1 p = true ->
  method_matches rm2 m && route_matches r2 p = true -> h1 = h2.
Proof.
  intros E1 E2 [M1 R1]%andb_prop [M2 R2]%andb_prop.
  pose proof (proj1 (Forall_forall _ _) routes_unambiguous_table _ E1) as F.
  apply (proj1 (Forall_forall _ _) F _ E2); cbn [fst snd]; [by eapply method_matches_same|].
  by rewrite (route_matches_rstrip _ _ R1), (route_matches_rstrip _ _ R2).
Qed.

Lemma route_lookup_sound rs m p h :
  route_lookup rs m p = Some h ->
  exists rm r, (rm, r, h) ∈ rs /\ method_matches rm m && route_matches r p = true.
Proof.
  induction rs as [|[[rm r] h'] rs IH]; cbn; [done|].
  destruct (method_matches rm m && route_matches r p) eqn:E.
  - intros [= ->]. exists rm, r. split; [left|done].
  - intros (rm' & r' & Hin & Hm)%IH. exists rm', r'. split; [by right|done].
Qed.

Lemma route_lookup_none rs m p :
  route_lookup rs m p = None <->
  forall rm r h, (rm, r, h) ∈ rs -> method_matches rm m && route_matches r p = false.
Proof.
  induction rs as [|[[rm r] h'] rs IH]; cbn.
  { split; [intros _ ? ? ? Hin; by apply elem_of_nil in Hin|done]. }
  destruct (method_matches rm m && route_matches r p) eqn:E; split.
  - done.
  - intros Hall. by rewrite (Hall rm r h') in E by left.
  - intros Hn rm' r' h Hin. apply elem_of_cons in Hin as [[= -> -> ->]|Hin]; [done|].
    by apply (proj1 IH Hn rm' r' h).
  - intros Hall. apply IH. intros rm' r' h Hin. apply (Hall rm' r' h). by right.
Qed.

Lemma dispatch_route_lookup public_has m p :
  m <> OPTIONS -> static_method m && public_has (static_file p) = false ->
  dispatch public_has {| rq_method := m; rq_path := p; rq_body := BodyOk |} =
  match route_lookup routes m p with Some h => Route h | None => NotFound end.
Proof. intros Hm Hs. unfold dispatch. cbn [rq_method rq_body rq_path]. destruct m; by rewrite ?Hs. Qed.

(** A request that a route of the table matches reaches that route's
    handler, whatever the order of the table. *)
Lemma dispatch_route_complete public_has m p rm r h :
  m <> OPTIONS -> static_method m && public_has (static_file p) = false ->
  (rm, r, h) ∈ routes -> method_matches rm m && route_matches r p = true ->
  dispatch public_has {| rq_method := m; rq_path := p; rq_body := BodyOk |} = Route h.
Proof.
  intros Hm Hs Hin Hmr. rewrite (dispatch_route_lookup _ _ _ Hm Hs).
  destruct (route_lookup routes m p) as [h'|] eqn:E.
  - destruct (route_lookup_sound _ _ _ _ E) as (rm' & r' & Hin' & Hm').
    f_equal. by eapply routes_unambiguous.
  - pose proof (proj1 (route_lookup_none _ _ _) E rm r h Hin) as F. congruence.
Qed.

(** C29: A request whose body [express.json()] rejects -- malformed JSON
    (status 400), a body over the size limit (413), an unsupported
    charset (415) -- is answered by the error middleware with status 500
    and [Internal server error], whatever its path: the error's status
    is not consulted, so bad input is reported as a server error. *)
Theorem body_error_is_500 public_has m p status msg :
  m <> OPTIONS ->
  dispatch public_has {| rq_method := m; rq_path := p; rq_body := BodyError status msg |} =
  Failed {| er_status := 500; er_error := js "Internal server error"; er_message := msg |}.
Proof. intros Hm. by destruct m. Qed.

Lemma body_error_is_500_witness :
  POST <> OPTIONS /\
  dispatch (fun _ => false) {| rq_method := POST; rq_path := js "/api/scan";
                               rq_body := BodyError 400 (js "Unexpected token") |} =
  Failed {| er_status := 500; er_error := js "Internal server error";
            er_message := js "Unexpected token" |}.
Proof.
  split; [discriminate|]. apply body_error_is_500. discriminate.
Defined.

(** C33: A request with an accepted body that no file of [public/]
    answers reaches the handler of a route exactly when that route's
    method and path match it (case-insensitively, with an optional
    trailing slash; [GET] routes also answer [HEAD]), and Express's 404
    exactly when no route matches: no two routes of the table overlap, so
    the order of registration does not matter. *)
Theorem dispatch_routes public_has m p :
  m <> OPTIONS -> static_method m && public_has (static_file p) = false ->
  (forall h, dispatch public_has {| rq_method := m; rq_path := p; rq_body := BodyOk |} = Route h <->
     exists rm r, (rm, r, h) ∈ routes /\ method_matches rm m = true /\ route_matches r p = true) /\
  (dispatch public_has {| rq_method := m; rq_path := p; rq_body := BodyOk |} = NotFound <->
     forall rm r h, (rm, r, h) ∈ routes -> method_matches rm m && route_matches r p = false).
Proof.
  intros Hm Hs. rewrite (dispatch_route_lookup _ _ _ Hm Hs). split.
  - intros h. split.
    + destruct (route_lookup routes m p) as [h'|] eqn:E; [intros [= <-]|done].
      destruct (route_lookup_sound _ _ _ _ E) as (rm & r & Hin & [? ?]%andb_prop). eauto.
    + intros (rm & r & Hin & Hmm & Hr). rewrite <- (dispatch_route_lookup _ _ _ Hm Hs).
      apply (dispatch_route_complete _ _ _ rm r); [done|done|done|by rewrite Hmm, Hr].
  - rewrite <- route_lookup_none. by destruct (route_lookup routes m p).
Qed.

Lemma dispatch_routes_witness :
  GET <> OPTIONS /\ static_method GET && (fun _ => false) (static_file (js "/API/Health/")) = false /\
  dispatch (fun _ => false) {| rq_method := GET; rq_path := js "/API/Health/"; rq_body := BodyOk |} =
    Route HHealth.
Proof.
  assert (Hm : GET <> OPTIONS) by discriminate.
  assert (Hs : static_method GET && (fun _ => false) (static_file (js "/API/Health/")) = false)
    by reflexivity.
  split_and!; [exact Hm|exact Hs|].
  apply (proj1 (dispatch_routes (fun _ => false) GET (js "/API/Health/") Hm Hs) HHealth).
  exists GET, (js "/api/health"). split_and!; [|reflexivity|vm_compute; reflexivity].
  vm_compute. do 7 right. left.
Defined.

End App.
