(* ===== verification/Http.v ===== *)
(** * Http: a request, from Express to the handler and the server's state

    Composes [App.dispatch] (which layer answers a request) with the
    handlers of src/flight-monitor-server.js (lines 355-553): [handle]
    runs the handler the router picks up to its first [await] and returns
    the new world of [Server.v] with the response, or [Pending] when the
    response waits for a fetch or for the SMS transport (it is then sent
    by the completion step of [Server.v]).  The fields of [req.body] and
    [req.query] that the handlers read are [fields]; a field left out is
    [None] and takes the handler's default.

    [completion_response] is what a handler sends when the fetch it
    awaits completes, or [RRejected] when the start handler's
    [cron.schedule] throws after it.  The theorems show that every request is a step of
    the server of [Server.v] or changes nothing, that only [POST]
    requests with a body [express.json()] accepts can change the state,
    and that [POST /api/scan] and [POST /api/monitor/start] answer, once
    their fetch completes, with what that completion recorded. *)

From S2P Require Import Prelude JsRegex JsNumber Extractor DiffEngine HistoryStore Notifier Pipeline JsMap Scheduler Endpoints Server App.
Import Extractor HistoryStore Notifier Pipeline JsMap Scheduler Endpoints Server App.

Module Http.

(** What the handlers read from [req.body] and [req.query]. *)
Record fields := {
  f_url : option jstring;              (* body.url *)
  f_intervalMinutes : option nat;      (* body.intervalMinutes *)
  f_phoneNumber : option jstring;      (* body.phoneNumber *)
  f_message : option jstring;          (* body.message *)
  f_limit : option jstring             (* query.limit *)
}.

Inductive response :=
| Pending                                          (* after an [await] *)
| RPreflight
| RStatic (file : jstring)
| RNotFound
| RError (e : error_response)
| RStop (r : stop_response)
| RStatus (s : monitor_status)
| RHistory (h : list scan_result * nat)
| RDestinations (d : list destination * option Z * nat)
| RChanges (c : list scan_result * nat)
| RHealth (h : health)
| RSmsTestNotConfigured
| RSmsHistory (h : sms_history_response)
| RSmsStatus (s : sms_status)
| RIndex (file : jstring)
| RScan (r : scan_response)                        (* after the fetch *)
| RStart (r : start_response)
| RRejected.                                       (* the handler's promise rejects *)

(** [const { intervalMinutes = 1 } = req.body] *)
Definition default_interval (n : option nat) : nat := default 1 n.

(** The handler of each route, run up to its first [await]. *)
Definition run_handler (cfg : sms_config) (now : Z) (h : handler) (f : fields) (w : world)
    : world * response :=
  match h with
  | HScan =>
      ({| ps := ps w; sc := sc w; inflight := PScan OScanRequest (default_url (f_url f)) :: inflight w |},
       Pending)
  | HMonitorStart =>
      let url := default_url (f_url f) in
      ({| ps := ps w; sc := start_begin url (sc w);
          inflight := PScan (OStart (default_interval (f_intervalMinutes f))) url :: inflight w |},
       Pending)
  | HMonitorStop =>
      let '(s', r) := stop (default_url (f_url f)) (sc w) in
      ({| ps := ps w; sc := s'; inflight := inflight w |}, RStop r)
  | HMonitorStatus => (w, RStatus (status_endpoint (ps w) (sc w)))
  | HHistory => (w, RHistory (history_endpoint (f_limit f) (scanHistory (ps w))))
  | HDestinations => (w, RDestinations (destinations_endpoint (scanHistory (ps w))))
  | HChanges => (w, RChanges (changes_endpoint (f_limit f) (scanHistory (ps w))))
  | HHealth => (w, RHealth (health_endpoint cfg now (ps w) (sc w)))
  | HSmsTest =>
      (w, if twilioClient_present cfg then Pending else RSmsTestNotConfigured)
  | HSmsHistory =>
      (w, RSmsHistory (sms_history_endpoint (f_limit f) (smsHistory (ps w))
                         (twilioClient_present cfg) (ALERT_PHONE_NUMBER cfg)))
  | HSmsStatus => (w, RSmsStatus (sms_status_endpoint cfg (ps w)))
  | HIndex => (w, RIndex index_file)
  end.

Definition handle (cfg : sms_config) (public_has : jstring -> bool) (now : Z) (rq : request)
    (f : fields) (w : world) : world * response :=
  match dispatch public_has rq with
  | Preflight => (w, RPreflight)
  | ServeStatic file => (w, RStatic file)
  | Route h => run_handler cfg now h f w
  | NotFound => (w, RNotFound)
  | Failed e => (w, RError e)
  end.

(** The [res.json] a handler sends once the fetch it awaits completes,
    on the world the fetch completes in: [POST /api/scan] answers with the
    result (lines 358-362), [POST /api/monitor/start] with its job (lines
    389-410), unless [cron.schedule] throws at line 391 and the handler's
    promise rejects before [res.json]; a cron callback answers nobody. *)
Definition completion_response `{ExtractionStrategy} (cfg : sms_config) (env : scan_env) (o : origin)
    (url : jstring) (out : fetch_outcome) (w : world) : option response :=
  let result := snd (fst (scanWebsite cfg env url out (ps w))) in
  match o with
  | OScanRequest => Some (RScan (scan_endpoint_response result))
  | OStart n => match cron_schedule (cronExpression n) with
                | Some _ => Some (RStart (start_endpoint_response url n result))
                | None => Some RRejected
                end
  | OCron => None
  end.

(** ** Lemmas *)

Lemma run_handler_step `{ExtractionStrategy} cfg now h f w :
  fst (run_handler cfg now h f w) = w \/ step cfg false w (fst (run_handler cfg now h f w)).
Proof.
  destruct h; cbn [run_handler fst]; try (by left); right.
  - apply step_scan_request.
  - apply step_start_request. by intros ?.
  - destruct (stop _ _) as [s' r] eqn:E. cbn [fst].
    replace s' with (fst (stop (default_url (f_url f)) (sc w))) by by rewrite E.
    apply step_stop_request.
Qed.

(** The handlers of the [GET] routes read the state only. *)
Lemma run_handler_get cfg now h f w rm r :
  (rm, r, h) ∈ routes -> rm = GET -> fst (run_handler cfg now h f w) = w.
Proof.
  intros Hin ->. unfold routes in Hin.
  repeat (apply elem_of_cons in Hin as [Hin|Hin]; [inversion Hin; subst; done|]).
  by apply elem_of_nil in Hin.
Qed.

(** The fetch a handler left pending completes as the next step, and
    its result heads the history. *)
Lemma completion_step `{ExtractionStrategy} cfg env o url out w s :
  let w1 := {| ps := ps w; sc := s; inflight := PScan o url :: inflight w |} in
  step cfg false w1 (fetch_done cfg env o url out [] (inflight w) w1) /\
  scanHistory (ps (fetch_done cfg env o url out [] (inflight w) w1)) !! 0 =
    Some (snd (fst (scanWebsite cfg env url out (ps w)))) /\
  sr_url (snd (fst (scanWebsite cfg env url out (ps w)))) = url.
Proof.
  intros w1. split; [by apply step_fetch_done|].
  rewrite (proj1 (fetch_done_parts cfg env o url out [] (inflight w) w1)). apply scanWebsite_recorded.
Qed.

(** A [POST] whose path a route matches runs that route's handler. *)
Lemma handle_post `{ExtractionStrategy} cfg public_has now r h p f w :
  (POST, r, h) ∈ routes -> route_matches r p = true ->
  handle cfg public_has now {| rq_method := POST; rq_path := p; rq_body := BodyOk |} f w =
  run_handler cfg now h f w.
Proof.
  intros Hin Hr. unfold handle.
  by rewrite (dispatch_route_complete public_has POST p POST r h) by (done || by rewrite Hr).
Qed.

(** ** Properties *)

(** C36: Every request is a step of the server of [Server.v] or leaves
    the world unchanged; a request whose body [express.json()] rejects,
    one that no route matches or that [public/] answers, a preflight and
    every [GET] or [HEAD] request leave it unchanged: only [POST] to
    [/api/scan], [/api/monitor/start] and [/api/monitor/stop] change
    the state. *)
Theorem handle_refines_step `{ExtractionStrategy} cfg public_has now rq f w :
  (fst (handle cfg public_has now rq f w) = w \/
   step cfg false w (fst (handle cfg public_has now rq f w))) /\
  (rq_method rq <> POST -> fst (handle cfg public_has now rq f w) = w) /\
  (forall status msg, rq_body rq = BodyError status msg -> fst (handle cfg public_has now rq f w) = w).
Proof.
  unfold handle. split_and!.
  - destruct (dispatch public_has rq); try (by left). apply run_handler_step.
  - intros Hm. destruct (dispatch public_has rq) as [| | h | |] eqn:E; try done.
    unfold dispatch in E. destruct (rq_method rq) eqn:M; try discriminate;
      destruct (rq_body rq); try discriminate;
      case_match; try discriminate; case_match; try discriminate; injection E as <-;
      (edestruct route_lookup_sound as (rm & r & Hin & Hmr); [eassumption|]);
      apply andb_prop in Hmr as [Hmm _]; destruct rm; try discriminate;
      by eapply run_handler_get.
  - intros status msg Hb. destruct (dispatch public_has rq) eqn:E; try done.
    unfold dispatch in E. rewrite Hb in E. by destruct (rq_method rq).
Qed.

Lemma handle_refines_step_witness :
  let rq := {| rq_method := GET; rq_path := js "/api/monitor/status"; rq_body := BodyOk |} in
  let f := {| f_url := None; f_intervalMinutes := None; f_phoneNumber := None; f_message := None;
              f_limit := None |} in
  rq_method rq <> POST /\ fst (handle no_sms (fun _ => false) 0 rq f world_init) = world_init.
Proof.
  intros rq f. assert (Hm : rq_method rq <> POST) by discriminate. split; [exact Hm|].
  exact (proj1 (proj2 (handle_refines_step no_sms (fun _ => false) 0 rq f world_init)) Hm).
Defined.

(** C37: The two handlers that await a fetch answer only once it
    completes, and the answer is what the completion recorded.  A [POST]
    to [/api/scan] (any path Express matches to it) with an accepted body
    leaves a pending scan, a step of the server and no response yet; the
    fetch's completion, the next step, records the result at the head of
    [scanHistory], leaves the monitoring jobs as they were, and the
    response carries that result, with [success: true] exactly when the
    fetch succeeded or threw an empty message.  A [POST] to
    [/api/monitor/start] likewise waits for its initial scan, whose
    completion records the result.  With a positive interval (default 1)
    the completion then sets the URL's job with that interval and the
    resume time, schedules the task of that interval, and answers with
    the job's id, the interval and the recorded result; with interval 0
    [cron.schedule] throws, the handler rejects without answering, and
    the jobs are those before the request. *)
Theorem post_requests_end_to_end `{ExtractionStrategy} cfg public_has now p f w env out :
  let rq := {| rq_method := POST; rq_path := p; rq_body := BodyOk |} in
  let url := default_url (f_url f) in
  let w1 := fst (handle cfg public_has now rq f w) in
  (route_matches (js "/api/scan") p = true ->
   let w2 := fetch_done cfg env OScanRequest url out [] (inflight w) w1 in
   snd (handle cfg public_has now rq f w) = Pending /\
   step cfg false w w1 /\ step cfg false w1 w2 /\ sc w2 = sc w /\
   exists rs, completion_response cfg env OScanRequest url out w1 = Some (RScan rs) /\
     scanHistory (ps w2) !! 0 = Some (scan_body rs) /\ sr_url (scan_body rs) = url /\
     (scan_success rs = true <-> is_Some (fetch_ok out) \/ out = FetchThrows [])) /\
  (route_matches (js "/api/monitor/start") p = true ->
   let n := default_interval (f_intervalMinutes f) in
   let w2 := fetch_done cfg env (OStart n) url out [] (inflight w) w1 in
   snd (handle cfg public_has now rq f w) = Pending /\
   step cfg false w w1 /\ step cfg false w1 w2 /\
   scanHistory (ps w2) !! 0 = Some (snd (fst (scanWebsite cfg env url out (ps w)))) /\
   if bool_decide (n = 0) then
     completion_response cfg env (OStart n) url out w1 = Some RRejected /\
     monitoringJobs (sc w2) = monitoringJobs (sc w)
   else
     (exists j t, map_get (monitoringJobs (sc w2)) (jobId url) = Some j /\
        job_url j = url /\ job_intervalMinutes j = n /\ job_startTime j = env_resume env /\
        tasks (sc w2) !! job_task j = Some t /\ task_scheduled t = true /\
        task_expr t = cronExpression n) /\
     exists rs, completion_response cfg env (OStart n) url out w1 = Some (RStart rs) /\
       start_jobId rs = jobId url /\ start_intervalMinutes rs = n /\
       scanHistory (ps w2) !! 0 = Some (start_initialResult rs)).
Proof.
  intros rq url w1. split.
  - intros Hr w2. assert (E : handle cfg public_has now rq f w = run_handler cfg now HScan f w)
      by (apply (handle_post _ _ _ (js "/api/scan")); [apply elem_of_cons; by left|done]).
    unfold w2, w1. rewrite E. cbn [run_handler fst snd].
    destruct (completion_step cfg env OScanRequest url out w (sc w)) as (Hs & Hh & Hu).
    split_and!; [done|apply step_scan_request|exact Hs|apply fetch_done_parts|].
    eexists. split; [done|]. split_and!; [exact Hh|exact Hu|]. apply scan_success_iff.
  - intros Hr n w2. assert (E : handle cfg public_has now rq f w = run_handler cfg now HMonitorStart f w)
      by (apply (handle_post _ _ _ (js "/api/monitor/start"));
          [apply elem_of_cons; right; apply elem_of_cons; by left|done]).
    unfold w2, w1. rewrite E. cbn [run_handler fst snd].
    destruct (completion_step cfg env (OStart n) url out w (start_begin url (sc w))) as (Hs & Hh & _).
    split_and!; [done|by apply step_start_request|exact Hs|exact Hh|].
    rewrite (proj1 (proj2 (fetch_done_parts _ _ _ _ _ _ _ _))). unfold completion_response.
    rewrite cron_schedule_cronExpression. unfold start_resume. rewrite start_finish_eq.
    case_bool_decide; cbn [default id].
    + split; [done|apply start_begin_jobs].
    + split; [|by eexists]. cbn. rewrite map_get_set, bool_decide_true by done. do 2 eexists.
      split_and!; [done..|by rewrite lookup_app_r, Nat.sub_diag|done|done].
Qed.

Lemma post_requests_end_to_end_witness :
  let f := {| f_url := None; f_intervalMinutes := None; f_phoneNumber := None; f_message := None;
              f_limit := None |} in
  let rq := {| rq_method := POST; rq_path := js "/API/scan/"; rq_body := BodyOk |} in
  let env := {| env_now := 1; env_date := 1; env_resume := 1; env_locale_time := [] |} in
  route_matches (js "/api/scan") (js "/API/scan/") = true /\
  sc (fetch_done no_sms env OScanRequest (default_url (f_url f)) (FetchThrows []) [] (inflight world_init)
        (fst (handle no_sms (fun _ => false) 0 rq f world_init))) = sc world_init.
Proof.
  intros f rq env.
  assert (Hr : route_matches (js "/api/scan") (js "/API/scan/") = true) by reflexivity.
  split; [exact Hr|].
  exact (proj1 (proj2 (proj2 (proj2 (proj1 (post_requests_end_to_end no_sms (fun _ => false) 0
    (js "/API/scan/") f world_init env (FetchThrows [])) Hr))))).
Defined.

End Http.
