(* ===== verification/TestClient.v ===== *)
(** * TestClient: the setup test script

    Models src/test-flight-monitor.js: the check of the required files
    and of [node_modules] (lines 7-38) and [runTests] (lines 79-172),
    which calls [/api/health], [POST /api/scan], [/api/destinations] and
    [/api/monitor/status] one after the other and stops at the first
    failed check.  The network is the environment: a call of
    [testEndpoint] (lines 43-77) either rejects (connection error or the
    5 s timeout, caught at line 162) or resolves; [testEndpoint_reply]
    is what it resolves with, the status and the body decoded as JSON when
    the [content-type] names it and kept as text otherwise, of which the
    script reads the [success] field of the scan.  A JSON [null] body
    makes [result.data.success] throw, which the [catch] of line 162
    reports as a connection failure.  Against the server of
    [Endpoints.v] the verdict of the script is a function of the scan's
    fetch. *)

From S2P Require Import Prelude JsRegex JsNumber Extractor HistoryStore Notifier Pipeline JsMap Scheduler Endpoints.
Import Extractor HistoryStore Notifier Pipeline Endpoints.

Module TestClient.

(** What [testEndpoint] resolves with: the status and its [data]:
    [None] when [data] is JSON's [null], on which reading a field throws,
    otherwise the truth value of [data.success] ([undefined] is falsy).
    The other fields the script reads ([totalDestinations],
    [destinations], ...) are taken to be those of the server's replies. *)
Record reply := {
  rp_status : nat;
  rp_data : option bool
}.

(** What [JSON.parse(data)] does with a body. *)
Inductive parsed :=
| PThrows                 (* not JSON: [data] stays the text *)
| PNull                   (* the body is [null] *)
| PValue (success : bool) (* any other value, with the truth value of its [success] *).

(** The lines the script ends on. *)
Inductive verdict :=
| MissingFiles          (* exit 1, line 27 *)
| MissingDependencies   (* exit 1, line 37 *)
| HealthFailed (status : nat)   (* line 89 *)
| ScanFailed            (* line 122 *)
| AllPassed             (* line 148 *)
| ConnectionFailed.     (* line 163 *)

Definition requiredFiles : list jstring :=
  [js "flight-monitor-server.js"; js "package.json"; js "public/flight-monitor.html"].

(** Lines 14-38: [None] when the script goes on to [runTests]. *)
Definition setup_check (exists_file : jstring -> bool) : option verdict :=
  if negb (forallb exists_file requiredFiles) then Some MissingFiles
  else if negb (exists_file (js "node_modules")) then Some MissingDependencies
  else None.

(** [runTests]: each request is [None] when it rejects.  Reading a field
    of a [null] [data] throws into the [catch] of line 162, as a rejected
    request does: after a health reply of 200 (line 87), for the scan's
    [success] when its status is 200 (line 101), and for the destinations
    and status replies of status 200 (lines 130 and 140). *)
Definition runTests (health scan destinations status : option reply) : verdict :=
  match health with
  | None => ConnectionFailed
  | Some h =>
      if negb (Nat.eqb (rp_status h) 200) then HealthFailed (rp_status h) else
      match rp_data h, scan with
      | None, _ | _, None => ConnectionFailed
      | Some _, Some sc =>
          if negb (Nat.eqb (rp_status sc) 200) then ScanFailed else
          match rp_data sc with
          | None => ConnectionFailed
          | Some false => ScanFailed
          | Some true =>
              match destinations, status with
              | Some d, Some t =>
                  if (Nat.eqb (rp_status d) 200 && bool_decide (rp_data d = None)) ||
                     (Nat.eqb (rp_status t) 200 && bool_decide (rp_data t = None))
                  then ConnectionFailed else AllPassed
              | _, _ => ConnectionFailed
              end
          end
      end
  end.

(** The whole script. *)
Definition test_script (exists_file : jstring -> bool)
    (health scan destinations status : option reply) : verdict :=
  match setup_check exists_file with
  | Some v => v
  | None => runTests health scan destinations status
  end.

(** Lines 53-66: [testEndpoint] resolves with the status and, when the
    [content-type] header names JSON, the parsed body, else the text (also
    when [JSON.parse] throws, line 62); a text has no [success] field. *)
Definition testEndpoint_reply (status : nat) (content_type : option jstring) (p : parsed) : reply :=
  {| rp_status := status;
     rp_data := match content_type with
                | Some ct => if includes ct (js "application/json")
                             then match p with PThrows => Some false | PNull => None
                                             | PValue b => Some b end
                             else Some false
                | None => Some false
                end |}.

(** The header [res.json] sets. *)
Definition json_content_type : jstring := js "application/json; charset=utf-8".

(** The replies of the server: [/api/health], [/api/destinations] and
    [/api/monitor/status] answer 200, and [POST /api/scan] answers 200 with
    [res.json] of [scan_endpoint_response]. *)
Definition server_reply (r : scan_result) : reply :=
  testEndpoint_reply 200 (Some json_content_type) (PValue (scan_success (scan_endpoint_response r))).

Definition ok_reply : reply := {| rp_status := 200; rp_data := Some false |}.

(** ** Properties *)

(** All tests pass only if the scan's reply has [success]. *)
Lemma test_script_scan_success exists_file h sc d t :
  test_script exists_file h (Some sc) d t = AllPassed -> rp_data sc = Some true.
Proof.
  unfold test_script, setup_check, runTests.
  destruct (negb (forallb _ _)); [discriminate|]. destruct (negb (exists_file _)); [discriminate|].
  destruct h as [h|]; [|discriminate]. destruct (negb (Nat.eqb (rp_status h) 200)); [discriminate|].
  destruct (rp_data h); [|discriminate]. destruct (negb (Nat.eqb (rp_status sc) 200)); [discriminate|].
  by destruct (rp_data sc) as [[]|].
Qed.

Lemma testEndpoint_html status p : rp_data (testEndpoint_reply status (Some (js "text/html")) p) = Some false.
Proof. reflexivity. Qed.

Lemma server_reply_parts r :
  rp_status (server_reply r) = 200 /\ rp_data (server_reply r) = Some (scan_success (scan_endpoint_response r)).
Proof. split; reflexivity. Qed.

(** C40: With the files in place and a server that answers every request,
    the test script reports that all tests passed exactly when the scan's
    fetch succeeded, or when it threw with an empty message, a failed scan
    the server reports as a success; with a missing file it stops before
    any request; a scan reply that is not JSON (an HTML error page of a
    proxy, say) fails the test whatever its status, and a 200 reply whose
    body is [null] ends in the connection-failure message; once the
    health check and the scan pass, the script reports success whatever
    status [/api/destinations] and [/api/monitor/status] answer with, since
    it checks their status without stopping on a failure. *)
Theorem test_script_verdict `{ExtractionStrategy} exists_file cfg env url o st :
  (forallb exists_file requiredFiles = false ->
   forall h s d t, test_script exists_file h s d t = MissingFiles) /\
  (forallb exists_file requiredFiles = true -> exists_file (js "node_modules") = true ->
   test_script exists_file (Some ok_reply)
     (Some (server_reply (snd (fst (scanWebsite cfg env url o st)))))
     (Some ok_reply) (Some ok_reply) = AllPassed <->
   is_Some (fetch_ok o) \/ o = FetchThrows []) /\
  (forall status p h d t, test_script exists_file h
     (Some (testEndpoint_reply status (Some (js "text/html")) p)) d t <> AllPassed) /\
  (forall status p h d t, test_script exists_file h
     (Some (testEndpoint_reply status None p)) d t <> AllPassed) /\
  (forallb exists_file requiredFiles = true -> exists_file (js "node_modules") = true ->
   forall d t, test_script exists_file (Some ok_reply)
     (Some (testEndpoint_reply 200 (Some json_content_type) PNull)) d t = ConnectionFailed) /\
  (forallb exists_file requiredFiles = true -> exists_file (js "node_modules") = true ->
   forall sd stt bd bt, test_script exists_file (Some ok_reply)
     (Some (testEndpoint_reply 200 (Some json_content_type) (PValue true)))
     (Some {| rp_status := sd; rp_data := Some bd |})
     (Some {| rp_status := stt; rp_data := Some bt |}) = AllPassed).
Proof.
  split_and!.
  - intros Hf h s d t. unfold test_script, setup_check. by rewrite Hf.
  - intros Hf Hn. unfold test_script, setup_check. rewrite Hf, Hn.
    cbn [negb runTests ok_reply rp_status rp_data Nat.eqb].
    destruct (server_reply_parts (snd (fst (scanWebsite cfg env url o st)))) as [-> ->].
    rewrite <- (scan_success_iff cfg env url o st).
    cbn [scan_endpoint_response scan_success Nat.eqb negb].
    destruct (not_error _); cbn; split; congruence.
  - intros status p h d t Hp. apply test_script_scan_success in Hp. by rewrite testEndpoint_html in Hp.
  - intros status p h d t Hp. by apply test_script_scan_success in Hp.
  - intros Hf Hn d t. unfold test_script, setup_check. by rewrite Hf, Hn.
  - intros Hf Hn sd stt bd bt. unfold test_script, setup_check. rewrite Hf, Hn. cbn.
    by rewrite !andb_false_r.
Qed.

(** A scan whose fetch throws with an empty message passes the test. *)
Lemma test_script_verdict_witness :
  let ex := fun _ : jstring => true in
  let o := FetchThrows [] in
  forallb ex requiredFiles = true /\ ex (js "node_modules") = true /\
  test_script ex (Some ok_reply)
    (Some (server_reply (snd (fst (scanWebsite no_sms {| env_now := 0; env_date := 0; env_resume := 0; env_locale_time := [] |}
                                     [] o pstate_init)))))
    (Some ok_reply) (Some ok_reply) = AllPassed.
Proof.
  intros ex o. split_and!; [reflexivity|reflexivity|].
  apply (proj1 (proj2 (test_script_verdict ex no_sms {| env_now := 0; env_date := 0; env_resume := 0; env_locale_time := [] |} [] o
                  pstate_init))); [reflexivity|reflexivity|by right].
Defined.

End TestClient.
